(** * biggify_image.py: stretch-and-slice and vertical merge

    A shallow embedding of [src/biggify_image.py].  The two functions
    [biggify_image] and [merge_images] are written against

    - a small model of the Python runtime they rely on: unbounded integers
      ([Z]), IEEE-754 binary64 floats ([spec_float] with [prec = 53],
      [emax = 1024]), exceptions, [print] and [io.BytesIO];
    - the Pillow calls they make ([Image.open], [Image.new], [resize],
      [crop], [paste], [save]), taken as an interface [PIL], since Pillow is
      a third-party library and no part of the repository.

    Every run records the Pillow calls and the printed lines in order, so a
    statement can speak about what the code asks of the library. *)

From Stdlib Require Import ZArith List Bool Lia String Ascii.
From Stdlib Require Import Strings.Byte.
From Stdlib Require Import Floats.SpecFloat.
Import ListNotations.
Open Scope list_scope.
Open Scope Z_scope.

(* ===================================================================== *)
(** ** Python runtime *)
(* ===================================================================== *)

Module Py.

(** A raised exception: its class name and its message ([str(e)]).  Only
    subclasses of [Exception] are modelled; those are what
    [except Exception] catches. *)
Inductive exn : Type := Exc (cls : string) (msg : string).

Definition str_exn (e : exn) : string := let 'Exc _ m := e in m.

(** [inl e]: the expression raised [e]; [inr v]: it evaluated to [v]. *)
Definition result (A : Type) : Type := (exn + A)%type.

Definition bindR {A B : Type} (r : result A) (k : A -> result B) : result B :=
  match r with
  | inl e => inl e
  | inr a => k a
  end.

(** *** float: IEEE-754 binary64 *)

Definition prec : Z := 53.
Definition emax : Z := 1024.
Definition float : Type := spec_float.

Definition fmul : float -> float -> float := SFmul prec emax.
Definition fleb : float -> float -> bool := SFleb.
Definition feqb : float -> float -> bool := SFeqb.

(** The float literals of the source, and of the examples of the
    specification.  0.1 is 0x1.999999999999ap-4. *)
Definition f0_1 : float := S754_finite false 7205759403792794 (-56).
Definition f0_5 : float := S754_finite false 4503599627370496 (-53).
Definition f1_0 : float := S754_finite false 4503599627370496 (-52).
Definition f1_5 : float := S754_finite false 6755399441055744 (-52).
Definition f2_0 : float := S754_finite false 4503599627370496 (-51).
Definition f3_0 : float := S754_finite false 6755399441055744 (-51).
Definition f4_0 : float := S754_finite false 4503599627370496 (-50).
Definition f5_0 : float := S754_finite false 5629499534213120 (-50).

(** [float(z)] as CPython's [PyLong_AsDouble]: round to nearest even,
    [OverflowError] when the result does not fit. *)
Definition float_of_int (z : Z) : result float :=
  match binary_normalize prec emax z 0 false with
  | S754_infinity _ => inl (Exc "OverflowError" "int too large to convert to float")
  | f => inr f
  end.

(** [z * f] for an int [z] and a float [f]: the int is converted first. *)
Definition int_mul_float (z : Z) (f : float) : result float :=
  bindR (float_of_int z) (fun x => inr (fmul x f)).

(** [a / b] for two ints: the correctly rounded quotient. *)
Definition int_truediv (a b : Z) : result float :=
  if b =? 0 then inl (Exc "ZeroDivisionError" "division by zero") else
  match a with
  | Z0 => inr (S754_zero (b <? 0))
  | _ =>
      match SFdiv prec emax (S754_finite false (Z.to_pos (Z.abs a)) 0)
                            (S754_finite false (Z.to_pos (Z.abs b)) 0) with
      | S754_infinity _ =>
          inl (Exc "OverflowError" "integer division result too large for a float")
      | f => inr (if xorb (a <? 0) (b <? 0) then SFopp f else f)
      end
  end.

(** [int(f)]: truncation toward zero; NaN and the infinities raise. *)
Definition int_of_float (f : float) : result Z :=
  match f with
  | S754_zero _ => inr 0
  | S754_finite s m e =>
      let a := match e with
               | Z0 => Zpos m
               | Zpos _ => Z.shiftl (Zpos m) e
               | Zneg p => Z.shiftr (Zpos m) (Zpos p)
               end in
      inr (if s then - a else a)
  | S754_infinity _ =>
      inl (Exc "OverflowError" "cannot convert float infinity to integer")
  | S754_nan => inl (Exc "ValueError" "cannot convert float NaN to integer")
  end.

(** [x if x else d] on an optional string: [None] and the empty string are
    falsy. *)
Definition truthy (o : option string) : bool :=
  match o with
  | Some (String _ _) => true
  | _ => false
  end.

(** *** io.BytesIO: the bytes written and the stream position *)

Record BytesIO : Type := mkBytesIO { getvalue : list byte; tell : nat }.

Definition BytesIO_new : BytesIO := mkBytesIO [] 0.

Definition write (b : BytesIO) (data : list byte) : BytesIO :=
  mkBytesIO (firstn (tell b) (getvalue b) ++ data
               ++ skipn (tell b + List.length data) (getvalue b))
            (tell b + List.length data).

Definition seek (b : BytesIO) (p : nat) : BytesIO := mkBytesIO (getvalue b) p.

(** [b.read()]: everything from the current position on. *)
Definition read (b : BytesIO) : list byte := skipn (tell b) (getvalue b).

End Py.
Import Py.

(* ===================================================================== *)
(** ** Pillow, as far as the source uses it *)
(* ===================================================================== *)

Inductive Resampling : Type := NEAREST | BILINEAR | BICUBIC | LANCZOS.

(** A colour as [convert('RGB')] would give it. *)
Definition color : Type := (Z * Z * Z)%type.

(** A crop box [(left, upper, right, lower)]. *)
Definition box : Type := (Z * Z * Z * Z)%type.

Class PIL : Type := {
  Image : Type;
  (** [Image.open(io.BytesIO(data))] *)
  Image_open : list byte -> result Image;
  (** [Image.new(mode, size)] *)
  Image_new : string -> Z * Z -> result Image;
  (** [im.size], [im.mode], [im.format] *)
  size : Image -> Z * Z;
  mode : Image -> string;
  format : Image -> option string;
  (** the pixel at [(x, y)] seen as RGB *)
  getpixel : Image -> Z * Z -> color;
  (** [im.resize(size, resample)] *)
  resize : Image -> Z * Z -> Resampling -> result Image;
  (** [im.crop(box)] *)
  crop : Image -> box -> result Image;
  (** [canvas.paste(im, xy)]: the canvas after the call *)
  paste : Image -> Image -> Z * Z -> result Image;
  (** [im.save(fp, format=fmt)]: the bytes written to [fp] *)
  save : Image -> string -> result (list byte)
}.

Section Effects.

Context {pil : PIL}.

Definition width (im : Image) : Z := fst (size im).
Definition height (im : Image) : Z := snd (size im).

(** What a run does that can be seen from outside: lines printed, and the
    calls into Pillow with their arguments. *)
Inductive event : Type :=
| Printed (line : string)
| Call_open (data : list byte)
| Call_new (md : string) (sz : Z * Z)
| Call_resize (im : Image) (sz : Z * Z) (resample : Resampling)
| Call_crop (im : Image) (bx : box)
| Call_paste (canvas im : Image) (xy : Z * Z)
| Call_save (im : Image) (fmt : string).

(** A computation: the events in order, and the value or the exception. *)
Definition M (A : Type) : Type := (list event * result A)%type.

Definition ret {A : Type} (a : A) : M A := ([], inr a).

Definition bind {A B : Type} (m : M A) (k : A -> M B) : M B :=
  match m with
  | (l, inl e) => (l, inl e)
  | (l, inr a) => let '(l', r) := k a in (l ++ l', r)
  end.

Definition lift {A : Type} (r : result A) : M A := ([], r).

Definition print (line : string) : M unit := ([Printed line], inr tt).

Definition call {A : Type} (ev : event) (r : result A) : M A := ([ev], r).

(** [try: m except Exception as e: h e] *)
Definition try_except {A : Type} (m : M A) (h : exn -> M A) : M A :=
  match m with
  | (l, inl e) => let '(l', r) := h e in (l ++ l', r)
  | (l, inr a) => (l, inr a)
  end.

(** [for r in range(n): acc = body r acc], entered at index [r]. *)
Fixpoint for_range {A : Type} (n : nat) (r : Z) (body : Z -> A -> M A) (acc : A)
  : M A :=
  match n with
  | O => ret acc
  | S n' => bind (body r acc) (fun acc' => for_range n' (r + 1) body acc')
  end.

End Effects.

Declare Scope py_scope.
Delimit Scope py_scope with py.
Notation "x <- m ;; k" := (bind m (fun x => k))
  (at level 61, m at next level, right associativity) : py_scope.
Notation "m ;;; k" := (bind m (fun _ => k))
  (at level 61, right associativity) : py_scope.
Notation "'let*' x ':=' r 'in' k" := (bindR r (fun x => k))
  (at level 61, x name, r at next level, right associativity) : py_scope.
Open Scope py_scope.

(* ===================================================================== *)
(** ** biggify_image.py *)
(* ===================================================================== *)

(** [int(z * f)] *)
Definition int_of_product (z : Z) (f : float) : result Z :=
  let* x := int_mul_float z f in int_of_float x.

(** Lines 60-69: the bounding box of strip [r]. *)
Definition strip_box (current_width current_height rows : Z)
    (part_height : float) (r : Z) : result box :=
  let left := 0 in
  let* top := int_of_product r part_height in
  let right := current_width in
  let* bottom := int_of_product (r + 1) part_height in
  let bottom := if r =? rows - 1 then current_height else bottom in
  inr (left, top, right, bottom).

(** Lines 54-69 for all of [range(rows)]: the boxes in the order of the
    loop, or the first exception. *)
Fixpoint strip_boxes_from (n : nat) (r : Z) (current_width current_height rows : Z)
    (part_height : float) : result (list box) :=
  match n with
  | O => inr []
  | S n' =>
      let* b := strip_box current_width current_height rows part_height r in
      let* bs := strip_boxes_from n' (r + 1) current_width current_height rows
                   part_height in
      inr (b :: bs)
  end.

Definition strip_boxes (current_width current_height rows : Z) : result (list box) :=
  let* part_height := int_truediv current_height rows in
  strip_boxes_from (Z.to_nat rows) 0 current_width current_height rows part_height.

Section Source.

Context {pil : PIL}.

(** Line 83: [original_img.format if original_img.format else "PNG"]. *)
Definition save_format (original_img : Image) : string :=
  if truthy (format original_img)
  then match format original_img with Some f => f | None => "PNG" end
  else "PNG".

(** Lines 75-78. *)
Definition scale_strip (cropped_strip : Image) (output_scale_factor : float)
  : M Image :=
  if negb (feqb output_scale_factor f1_0) then
    new_strip_width <-
      lift (int_of_product (width cropped_strip) output_scale_factor) ;;
    new_strip_height <-
      lift (int_of_product (height cropped_strip) output_scale_factor) ;;
    call (Call_resize cropped_strip (new_strip_width, new_strip_height) LANCZOS)
         (resize cropped_strip (new_strip_width, new_strip_height) LANCZOS)
  else ret cropped_strip.

(** Lines 59-85: one turn of the loop. *)
Definition strip_iteration (original_img stretched_img : Image)
    (current_width current_height rows : Z)
    (part_height output_scale_factor : float)
    (r : Z) (cropped_images : list BytesIO) : M (list BytesIO) :=
  bx <- lift (strip_box current_width current_height rows part_height r) ;;
  cropped_strip <- call (Call_crop stretched_img bx) (crop stretched_img bx) ;;
  cropped_strip <- scale_strip cropped_strip output_scale_factor ;;
  let img_byte_arr := BytesIO_new in
  data <- call (Call_save cropped_strip (save_format original_img))
               (save cropped_strip (save_format original_img)) ;;
  let img_byte_arr := write img_byte_arr data in
  let img_byte_arr := seek img_byte_arr 0 in
  ret (cropped_images ++ [img_byte_arr]).

(** Lines 25-87: the body of the [try]. *)
Definition biggify_image_try (image_bytes : list byte) (rows : Z)
    (stretch_factor output_scale_factor : float) : M (list BytesIO) :=
  original_img <- call (Call_open image_bytes) (Image_open image_bytes) ;;
  let '(original_width, original_height) := size original_img in
  if rows <=? 0 then
    print "Error: Rows must be a positive integer." ;;; ret []
  else if negb (fleb f1_0 stretch_factor && fleb stretch_factor f3_0) then
    print "Error: Stretch factor must be between 1.0 and 3.0." ;;; ret []
  else if negb (fleb f0_5 output_scale_factor && fleb output_scale_factor f4_0) then
    print "Error: Output scale factor must be between 0.5 and 4.0." ;;; ret []
  else
    let img_for_processing := original_img in
    let '(current_width, current_height) := size img_for_processing in
    stretched_width <- lift (int_of_product current_width stretch_factor) ;;
    stretched_img <-
      call (Call_resize img_for_processing (stretched_width, current_height) LANCZOS)
           (resize img_for_processing (stretched_width, current_height) LANCZOS) ;;
    let '(current_width, current_height) := size stretched_img in
    part_height <- lift (int_truediv current_height rows) ;;
    for_range (Z.to_nat rows) 0
      (strip_iteration original_img stretched_img current_width current_height
         rows part_height output_scale_factor)
      [].

(** Lines 23-90, with the events of the run. *)
Definition biggify_image_run (image_bytes : list byte) (rows : Z)
    (stretch_factor output_scale_factor : float) : M (list BytesIO) :=
  try_except
    (biggify_image_try image_bytes rows stretch_factor output_scale_factor)
    (fun e =>
       print ("Error processing image in biggify_image: " ++ str_exn e) ;;;
       ret []).

Definition returned {A : Type} (d : A) (m : M A) : A :=
  match snd m with
  | inr a => a
  | inl _ => d
  end.

(** What [biggify_image] returns. *)
Definition biggify_image (image_bytes : list byte) (rows : Z)
    (stretch_factor output_scale_factor : float) : list BytesIO :=
  returned [] (biggify_image_run image_bytes rows stretch_factor output_scale_factor).

(** Lines 155-157. *)
Fixpoint open_all (image_bytes_list : list (list byte)) (images : list Image)
  : M (list Image) :=
  match image_bytes_list with
  | [] => ret images
  | img_bytes :: rest =>
      im <- call (Call_open img_bytes) (Image_open img_bytes) ;;
      open_all rest (images ++ [im])
  end.

(** Lines 169-172. *)
Fixpoint paste_all (images : list Image) (merged_img : Image)
    (current_height_offset : Z) : M Image :=
  match images with
  | [] => ret merged_img
  | img :: rest =>
      merged_img <-
        call (Call_paste merged_img img (0, current_height_offset))
             (paste merged_img img (0, current_height_offset)) ;;
      paste_all rest merged_img (current_height_offset + height img)
  end.

(** [sum(img.height for img in images)] *)
Definition sum_heights (images : list Image) : Z :=
  fold_left Z.add (map height images) 0.

(** Lines 155-178: the body of the [try]. *)
Definition merge_images_try (image_bytes_list : list (list byte)) : M BytesIO :=
  images <- open_all image_bytes_list [] ;;
  images_0 <- lift (match images with
                    | im :: _ => inr im
                    | [] => inl (Exc "IndexError" "list index out of range")
                    end) ;;
  let merged_width := width images_0 in
  let merged_height := sum_heights images in
  merged_img <- call (Call_new "RGB" (merged_width, merged_height))
                     (Image_new "RGB" (merged_width, merged_height)) ;;
  merged_img <- paste_all images merged_img 0 ;;
  let img_byte_arr := BytesIO_new in
  data <- call (Call_save merged_img "PNG") (save merged_img "PNG") ;;
  let img_byte_arr := write img_byte_arr data in
  let img_byte_arr := seek img_byte_arr 0 in
  ret img_byte_arr.

(** Lines 150-182, with the events of the run. *)
Definition merge_images_run (image_bytes_list : list (list byte))
  : M (option BytesIO) :=
  match image_bytes_list with
  | [] => print "Error: No images provided for merging." ;;; ret None
  | _ :: _ =>
      try_except
        (b <- merge_images_try image_bytes_list ;; ret (Some b))
        (fun e => print ("Error merging images: " ++ str_exn e) ;;; ret None)
  end.

(** What [merge_images] returns; [None] is Python's [None]. *)
Definition merge_images (image_bytes_list : list (list byte)) : option BytesIO :=
  returned None (merge_images_run image_bytes_list).

End Source.

(* ===================================================================== *)
(** ** What the statements below use of Pillow's behaviour *)
(* ===================================================================== *)

(** Postconditions of the calls: each says what holds of the result when
    the call returns.  None says that a call returns. *)
Class PIL_laws (pil : PIL) : Prop := {
  (** a decoded image has C [int] dimensions *)
  open_size : forall data im,
    Image_open data = inr im ->
    0 <= width im < 2 ^ 31 /\ 0 <= height im < 2 ^ 31;
  (** [resize] refuses a target below 1 x 1 and gives the size asked for *)
  resize_size : forall im sz f im',
    resize im sz f = inr im' -> size im' = sz /\ 1 <= fst sz /\ 1 <= snd sz;
  (** [crop] gives the size of the box, an inverted side counting as 0 *)
  crop_size : forall im l t r b im',
    crop im (l, t, r, b) = inr im' ->
    size im' = (Z.max 0 (r - l), Z.max 0 (b - t));
  new_size : forall md sz im,
    Image_new md sz = inr im -> size im = sz /\ mode im = md;
  paste_size : forall canvas im xy canvas',
    paste canvas im xy = inr canvas' ->
    size canvas' = size canvas /\ mode canvas' = mode canvas;
  (** inside the canvas, a pixel under the pasted image is that image's,
      every other pixel is kept *)
  paste_pixel : forall canvas im x0 y0 canvas' x y,
    paste canvas im (x0, y0) = inr canvas' ->
    mode canvas = "RGB"%string ->
    0 <= x < width canvas -> 0 <= y < height canvas ->
    getpixel canvas' (x, y) =
      if (x0 <=? x) && (x <? x0 + width im) && (y0 <=? y) && (y <? y0 + height im)
      then getpixel im (x - x0, y - y0)
      else getpixel canvas (x, y);
  (** what [save] wrote can be opened again, with the same size *)
  save_decodable : forall im fmt data,
    save im fmt = inr data ->
    exists im', Image_open data = inr im' /\ size im' = size im
}.

(* ===================================================================== *)
(** ** A reference raster library *)
(* ===================================================================== *)

(** An implementation of the interface that follows Pillow's documented
    behaviour on uncompressed RGB rasters, used to run the functions on
    concrete inputs.  Its file format is a tag byte for the format name,
    two bytes each for width and height, then the rows as RGB triples. *)
Module Raster.

Record image : Type := mk_image {
  r_size : Z * Z;
  r_mode : string;
  r_format : option string;
  r_pixel : Z -> Z -> color
}.

Definition black : color := (0, 0, 0).

Definition inside (sz : Z * Z) (x y : Z) : bool :=
  (0 <=? x) && (x <? fst sz) && (0 <=? y) && (y <? snd sz).

Definition Z_of_byte (b : byte) : Z := Z.of_N (Byte.to_N b).

Definition byte_of_Z (z : Z) : byte :=
  match Byte.of_N (Z.to_N (z mod 256)) with
  | Some b => b
  | None => x00
  end.

Definition format_of_tag (b : byte) : option string :=
  match b with
  | x50 => Some "PNG"%string
  | x4a => Some "JPEG"%string
  | x47 => Some "GIF"%string
  | _ => None
  end.

Definition tag_of_format (fmt : string) : option byte :=
  if String.eqb fmt "PNG" then Some x50
  else if String.eqb fmt "JPEG" then Some x4a
  else if String.eqb fmt "GIF" then Some x47
  else None.

Definition Zrange (n : Z) : list Z := map Z.of_nat (seq 0 (Z.to_nat n)).

Definition payload (im : image) : list byte :=
  flat_map (fun y =>
    flat_map (fun x =>
      let '(r, g, b) := r_pixel im x y in
      [byte_of_Z r; byte_of_Z g; byte_of_Z b])
    (Zrange (fst (r_size im))))
  (Zrange (snd (r_size im))).

Definition pixel_of_payload (w h : Z) (p : list byte) (x y : Z) : color :=
  if inside (w, h) x y then
    let i := Z.to_nat (3 * (y * w + x)) in
    (Z_of_byte (nth i p x00), Z_of_byte (nth (i + 1) p x00),
     Z_of_byte (nth (i + 2) p x00))
  else black.

Definition decode (data : list byte) : result image :=
  match data with
  | t :: w1 :: w0 :: h1 :: h0 :: p =>
      match format_of_tag t with
      | None => inl (Exc "UnidentifiedImageError" "cannot identify image file")
      | Some f =>
          let w := 256 * Z_of_byte w1 + Z_of_byte w0 in
          let h := 256 * Z_of_byte h1 + Z_of_byte h0 in
          if Z.of_nat (List.length p) =? 3 * w * h
          then inr (mk_image (w, h) "RGB" (Some f) (pixel_of_payload w h p))
          else inl (Exc "OSError" "image file is truncated")
      end
  | _ => inl (Exc "UnidentifiedImageError" "cannot identify image file")
  end.

Definition encode (im : image) (fmt : string) : result (list byte) :=
  match tag_of_format fmt with
  | None => inl (Exc "KeyError" fmt)
  | Some t =>
      let '(w, h) := r_size im in
      if (1 <=? w) && (w <? 65536) && (1 <=? h) && (h <? 65536)
      then inr (t :: byte_of_Z (w / 256) :: byte_of_Z w
                  :: byte_of_Z (h / 256) :: byte_of_Z h :: payload im)
      else inl (Exc "ValueError" "cannot write an image of this size")
  end.

Definition new (md : string) (sz : Z * Z) : result image :=
  if (fst sz <? 0) || (snd sz <? 0)
  then inl (Exc "ValueError" "Width and height must be >= 0")
  else inr (mk_image sz md None (fun _ _ => black)).

Definition resize (im : image) (sz : Z * Z) (f : Resampling) : result image :=
  if (fst sz <? 1) || (snd sz <? 1)
  then inl (Exc "ValueError" "height and width must be > 0")
  else inr (mk_image sz (r_mode im) None
              (fun x y => r_pixel im (x * fst (r_size im) / fst sz)
                                     (y * snd (r_size im) / snd sz))).

Definition crop (im : image) (bx : box) : result image :=
  let '(l, t, r, b) := bx in
  if r <? l then inl (Exc "ValueError" "Coordinate 'right' is less than 'left'")
  else if b <? t then inl (Exc "ValueError" "Coordinate 'lower' is less than 'upper'")
  else inr (mk_image (r - l, b - t) (r_mode im) None
              (fun x y => if inside (r_size im) (x + l) (y + t)
                          then r_pixel im (x + l) (y + t) else black)).

Definition paste (canvas im : image) (xy : Z * Z) : result image :=
  inr (mk_image (r_size canvas) (r_mode canvas) (r_format canvas)
         (fun x y =>
            if inside (r_size im) (x - fst xy) (y - snd xy)
            then r_pixel im (x - fst xy) (y - snd xy)
            else r_pixel canvas x y)).

#[global] Instance pillow : PIL := {
  Image := image;
  Image_open := decode;
  Image_new := new;
  size := r_size;
  mode := r_mode;
  format := r_format;
  getpixel := fun im xy => r_pixel im (fst xy) (snd xy);
  resize := resize;
  crop := crop;
  paste := paste;
  save := encode
}.

(** A [w] x [h] image of one colour, and its encoding. *)
Definition solid (w h : Z) (c : color) : image :=
  mk_image (w, h) "RGB" None (fun _ _ => c).

Definition file_of (im : image) (fmt : string) : list byte :=
  match encode im fmt with
  | inr data => data
  | inl _ => []
  end.

End Raster.

(* ===================================================================== *)
(** ** Sample inputs *)
(* ===================================================================== *)

Module Sample.

Definition red : color := (255, 0, 0).
Definition green : color := (0, 255, 0).
Definition blue : color := (0, 0, 255).

Definition value {A : Type} (d : A) (r : result A) : A :=
  match r with
  | inr a => a
  | inl _ => d
  end.

Definition decoded (data : list byte) : Raster.image :=
  value (Raster.solid 0 0 Raster.black) (Raster.decode data).

(** Two strips of equal width, 50 and 60 pixels high. *)
Definition strip_a_png : list byte := Raster.file_of (Raster.solid 2 50 red) "PNG".
Definition strip_b_png : list byte := Raster.file_of (Raster.solid 2 60 green) "PNG".
Definition strip_a : Raster.image := decoded strip_a_png.
Definition strip_b : Raster.image := decoded strip_b_png.

Definition canvas0 : Raster.image :=
  value (Raster.solid 0 0 Raster.black) (Raster.new "RGB" (2, 110)).
Definition pastes : M Raster.image :=
  paste_all (pil := Raster.pillow) [strip_a; strip_b] canvas0 0.
Definition canvas : Raster.image := value canvas0 (snd pastes).
Definition merged_png : list byte := Raster.file_of canvas "PNG".

(** The single-image merge of [strip_a]. *)
Definition single0 : Raster.image :=
  value (Raster.solid 0 0 Raster.black) (Raster.new "RGB" (2, 50)).
Definition single : Raster.image :=
  value single0 (Raster.paste single0 strip_a (0, 0)).
Definition single_png : list byte := Raster.file_of single "PNG".

(** A picture 100 pixels wide and 4 high, and one that is 1 pixel high. *)
Definition photo_png : list byte := Raster.file_of (Raster.solid 100 4 blue) "PNG".
Definition photo : Raster.image := decoded photo_png.
Definition thin_png : list byte := Raster.file_of (Raster.solid 4 1 red) "JPEG".
Definition thin : Raster.image := decoded thin_png.

End Sample.

(* ===================================================================== *)
(** ** Vocabulary of the statements *)
(* ===================================================================== *)

(** [lo <= x <= hi] on floats, as Python chains the comparison. *)
Definition in_domain (lo hi x : float) : bool := fleb lo x && fleb x hi.

(** The validation list of the specification, in its order: rows first,
    then the stretch factor, then the output scale factor.  The message is
    the one the source prints for the check. *)
Definition first_failing_check (rows : Z) (stretch_factor output_scale_factor : float)
  : option string :=
  if rows <=? 0 then Some "Error: Rows must be a positive integer."%string
  else if negb (in_domain f1_0 f3_0 stretch_factor)
  then Some "Error: Stretch factor must be between 1.0 and 3.0."%string
  else if negb (in_domain f0_5 f4_0 output_scale_factor)
  then Some "Error: Output scale factor must be between 0.5 and 4.0."%string
  else None.

Section Vocabulary.

Context {pil : PIL}.

(** Transform work: every call into Pillow but the decoding. *)
Definition is_transform (ev : event) : bool :=
  match ev with
  | Printed _ | Call_open _ => false
  | Call_new _ _ | Call_resize _ _ _ | Call_crop _ _
  | Call_paste _ _ _ | Call_save _ _ => true
  end.

(** A returned buffer is rewound and holds what one [save] call wrote. *)
Definition holds_encoding (fmt : string) (buf : BytesIO) : Prop :=
  tell buf = 0%nat /\ exists im, save im fmt = inr (getvalue buf).

(** The width of a strip as it is saved, for a stretched width [sw]: [sw]
    itself when the output scale factor is 1.0 and nothing is rescaled,
    [int(sw * factor)] otherwise. *)
Definition scaled_width (sw : Z) (output_scale_factor : float) (w : Z) : Prop :=
  if feqb output_scale_factor f1_0 then w = sw
  else int_of_product sw output_scale_factor = inr w.

(** What a run of [biggify_image] may ask of Pillow, for a decoded image
    [orig], a stretched width [sw] and an output scale factor: a [resize]
    is the stretch of [orig] to [sw] columns at its own height, or the
    rescale of a strip of [sw] columns to the truncated products of its
    sides with the factor; a [crop] cuts the stretched image, of [sw]
    columns and the height of [orig], from column 0 to column [sw]; and a
    saved strip has the scaled width. *)
Definition stretch_event (orig : Image) (sw : Z) (output_scale_factor : float)
    (ev : event) : Prop :=
  match ev with
  | Call_resize im sz resample =>
      resample = LANCZOS /\
      ((im = orig /\ sz = (sw, height orig)) \/
       (width im = sw /\
        int_of_product (width im) output_scale_factor = inr (fst sz) /\
        int_of_product (height im) output_scale_factor = inr (snd sz)))
  | Call_crop st bx =>
      size st = (sw, height orig) /\ exists t b, bx = (0, t, sw, b)
  | Call_save im _ => scaled_width sw output_scale_factor (width im)
  | _ => True
  end.

(** The boxes a run cropped and the sizes of the images it saved, in the
    order of the calls. *)
Definition cropped_boxes (log : list event) : list box :=
  flat_map (fun ev => match ev with
                      | Call_crop _ bx => [bx]
                      | _ => []
                      end) log.

Definition saved_sizes (log : list event) : list (Z * Z) :=
  flat_map (fun ev => match ev with
                      | Call_save im _ => [size im]
                      | _ => []
                      end) log.

(** [data] decodes to [im]. *)
Definition opens (data : list byte) (im : Image) : Prop := Image_open data = inr im.

End Vocabulary.

(* ===================================================================== *)
(** ** Rounding to binary64, on integers *)
(* ===================================================================== *)

(** The statements about [int(r * part_height)] need the value of a float
    operation, not its bit pattern.  A finite float [m * 2 ^ e] is looked at
    through the integer [m * 2 ^ (e - E0)] for an [E0] below every exponent
    in play; rounding to nearest even is then a function on integers. *)

(** A mantissa shifted right by [n] places, with the round and sticky bits
    of [SpecFloat]'s [shr]. *)
Definition shifted (n : Z) (m : Z) (r s : bool) : shr_record :=
  Build_shr_record (m / 2 ^ n) (Z.testbit m (n - 1))
    (r || s || negb (m mod 2 ^ (n - 1) =? 0)).

(** [X / 2 ^ k] rounded to the nearest integer, ties to even. *)
Definition rne (X k : Z) : Z :=
  let q := X / 2 ^ k in
  let r := X mod 2 ^ k in
  if (2 ^ k <? 2 * r) || ((2 ^ k =? 2 * r) && Z.odd q) then q + 1 else q.

(** The exponent of the last place of [X]: 53 significant bits, and never
    below [kmin], the last place of the subnormal numbers. *)
Definition cexp (kmin X : Z) : Z := Z.max (Zdigits2 X - prec) kmin.

(** [X] rounded to 53 significant bits. *)
Definition round (kmin X : Z) : Z := 2 ^ cexp kmin X * rne X (cexp kmin X).

(** [fexp prec emax] of [SpecFloat], with the numbers of binary64. *)
Definition fexp64 (e : Z) : Z := Z.max (e - 53) (-1074).

(** The value of a non-negative finite float in units of [2 ^ -1074]. *)
Definition sv (f : float) : Z :=
  match f with
  | S754_finite false m e => Zpos m * 2 ^ (e + 1074)
  | _ => 0
  end.

Definition nonneg_finite (f : float) : Prop :=
  match f with
  | S754_zero _ => True
  | S754_finite false _ e => -1074 <= e <= 971
  | _ => False
  end.

Definition small_exponent (f : float) : Prop :=
  match f with
  | S754_finite _ _ e => e <= 0
  | _ => True
  end.

(** The first int that [float(z)] refuses: halfway between the largest
    float and [2 ^ 1024]. *)
Definition float_int_limit : Z := 2 ^ 1024 - 2 ^ 970.

(** [int(r * f)] as a number, for a float [f] of scaled value [P]. *)
Definition truncated_product (P r : Z) : Z :=
  round 1074 (round 0 (r * 2 ^ 1074) * P) / 2 ^ 1074 / 2 ^ 1074.

(* ===================================================================== *)
(** ** Strips *)
(* ===================================================================== *)

Definition strip_height (b : box) : Z :=
  let '(_, top, _, bottom) := b in bottom - top.

Definition strip_width (b : box) : Z :=
  let '(l, _, r, _) := b in r - l.

(** The boxes [bs], in their order, tile the rows from [top] to [bottom]
    over the full [width]: each starts at column 0 and ends at [width],
    starts at the row where the one before ended, and does not end above
    its start. *)
Fixpoint tiles_from (top width : Z) (bs : list box) (bottom : Z) : Prop :=
  match bs with
  | [] => top = bottom
  | (l, t, r, b) :: rest =>
      l = 0 /\ r = width /\ t = top /\ t <= b /\ tiles_from b width rest bottom
  end.

(** The box of strip [r] as a number, for a row height of scaled value
    [P]. *)
Definition box_of (W H n P : Z) (r : Z) : box :=
  (0, truncated_product P r, W,
   if r =? n - 1 then H else truncated_product P (r + 1)).

Fixpoint boxes_from (W H n P : Z) (k : nat) (r : Z) : list box :=
  match k with
  | O => []
  | S k' => box_of W H n P r :: boxes_from W H n P k' (r + 1)
  end.
(* ===================================================================== *)
(** ** bot.py: the two slash commands *)
(* ===================================================================== *)

(** The handlers [biggify] and [mergebiggify] of [src/bot.py] are the
    callers of [biggify_image] and [merge_images].  They are coroutines
    that talk to Discord through discord.py; what they use of it is taken
    as an interface, as Pillow is above.  An awaited call returns or
    raises as the outside world decides, so every call takes the state of
    that world and gives the next one. *)

From Stdlib Require Import DecimalString.

(** [str(z)] for an int, as the f-strings of the handlers format it. *)
Definition str_int (z : Z) : string := NilZero.string_of_int (Z.to_int z).

(** A [discord.Attachment], with the one attribute the handlers look at.
    [content_type] is [Optional[str]]. *)
Record Attachment : Type := mkAttachment {
  attachment_id : Z;
  content_type : option string
}.

Class Discord : Type := {
  World : Type;
  (** [await interaction.response.defer(thinking=.., ephemeral=..)] *)
  response_defer : bool -> bool -> World -> result unit * World;
  (** [await interaction.followup.send(content, ephemeral=..)] *)
  followup_send : string -> bool -> World -> result unit * World;
  (** [await interaction.channel.send(file=discord.File(fp=.., filename=..))] *)
  channel_send : BytesIO -> string -> World -> result unit * World;
  (** [await attachment.read()] *)
  attachment_read : Attachment -> World -> result (list byte) * World;
  (** [isinstance(e, discord.errors.HTTPException)] *)
  is_HTTPException : exn -> bool
}.

Section Handlers.

Context {pil : PIL} {discord : Discord}.

(** What a handler does that can be seen from outside: its calls into
    discord.py, the lines it prints, and the events of the image functions
    it runs. *)
Inductive bot_event : Type :=
| Call_defer (thinking ephemeral : bool)
| Call_followup (content : string) (ephemeral : bool)
| Call_channel_send (fp : BytesIO) (filename : string)
| Call_read (a : Attachment)
| Bot_printed (line : string)
| Core (ev : event).

(** A coroutine: from the state of the world, the events in order, the
    value or the exception, and the state of the world afterwards. *)
Definition Bot (A : Type) : Type := World -> (list bot_event * result A) * World.

Definition bret {A : Type} (a : A) : Bot A := fun w => (([], inr a), w).

Definition bbind {A B : Type} (m : Bot A) (k : A -> Bot B) : Bot B :=
  fun w =>
    match m w with
    | ((l, inl e), w') => ((l, inl e), w')
    | ((l, inr a), w') => let '((l', r), w'') := k a w' in ((l ++ l', r), w'')
    end.

Definition blift {A : Type} (r : result A) : Bot A := fun w => (([], r), w).

(** [await] of a call into discord.py *)
Definition await {A : Type} (ev : bot_event) (f : World -> result A * World)
  : Bot A :=
  fun w => let '(r, w') := f w in (([ev], r), w').

Definition bot_print (line : string) : Bot unit :=
  fun w => (([Bot_printed line], inr tt), w).

(** A call of one of the two image functions: its events are events of the
    handler. *)
Definition core {A : Type} (m : M A) : Bot A :=
  fun w => ((map Core (fst m), snd m), w).

(** [try: x = m except Exception as e: h e], followed by [k x] when the
    [try] body returned.  Exceptions of [h] and of [k] are not caught. *)
Definition try_else {A B : Type} (m : Bot A) (h : exn -> Bot B) (k : A -> Bot B)
  : Bot B :=
  fun w =>
    match m w with
    | ((l, inl e), w') => let '((l', r), w'') := h e w' in ((l ++ l', r), w'')
    | ((l, inr a), w') => let '((l', r), w'') := k a w' in ((l ++ l', r), w'')
    end.

(** The events and the outcome of a handler started in the world [w]. *)
Definition trace {A : Type} (m : Bot A) (w : World) : list bot_event :=
  fst (fst (m w)).

Definition outcome {A : Type} (m : Bot A) (w : World) : result A :=
  snd (fst (m w)).

End Handlers.

Declare Scope bot_scope.
Delimit Scope bot_scope with bot.
Notation "x <- m ;; k" := (bbind m (fun x => k))
  (at level 61, m at next level, right associativity) : bot_scope.
Notation "m ;;; k" := (bbind m (fun _ => k))
  (at level 61, right associativity) : bot_scope.

Section BotSource.

Context {pil : PIL} {discord : Discord}.

Local Open Scope bot_scope.

(** [await interaction.followup.send(content, ephemeral=True)] *)
Definition reply (content : string) : Bot unit :=
  await (Call_followup content true) (followup_send content true).

(** [image.content_type.startswith('image/')]; the attribute lookup on
    [None] raises. *)
Definition content_type_startswith_image (img : Attachment) : result bool :=
  match content_type img with
  | Some ct => inr (prefix "image/" ct)
  | None =>
      inl (Exc "AttributeError" "'NoneType' object has no attribute 'startswith'")
  end.

(** Lines 93-101: one message for each strip; a strip that cannot be sent
    is reported and the loop goes on. *)
Fixpoint send_parts (i : Z) (processed_images : list BytesIO) : Bot unit :=
  match processed_images with
  | [] => bret tt
  | img_data :: rest =>
      try_else
        (let file_name := ("biggified_part_" ++ str_int (i + 1) ++ ".png")%string in
         await (Call_channel_send img_data file_name)
               (channel_send img_data file_name))
        (fun e =>
           bot_print ("Error sending individual file " ++ str_int (i + 1)
                      ++ ": " ++ str_exn e) ;;;
           reply ("Could not send part " ++ str_int (i + 1) ++ " due to an error."))
        (fun _ => bret tt) ;;;
      send_parts (i + 1) rest
  end.

(** Lines 69-104: download the attachment, cut it, send the strips. *)
Definition download_and_send (image : Attachment) (rows : Z)
    (stretch_factor : float) : Bot unit :=
  let default_output_scale_factor := f2_0 in
  try_else
    (await (Call_read image) (attachment_read image))
    (fun e =>
       if is_HTTPException e then
         bot_print ("HTTP Error downloading image: " ++ str_exn e) ;;;
         reply ("Could not download the image. Please try again. Error: "
                ++ str_exn e)
       else
         bot_print ("Unexpected error downloading image: " ++ str_exn e) ;;;
         reply ("An unexpected error occurred while downloading the image. Error: "
                ++ str_exn e))
    (fun image_bytes =>
       processed_images <-
         core (biggify_image_run image_bytes rows stretch_factor
                 default_output_scale_factor) ;;
       match processed_images with
       | [] =>
           reply "An error occurred while processing the image. Please try again with a different image or settings."
       | _ :: _ =>
           send_parts 0 processed_images ;;;
           reply "Image biggified and sent!"
       end).

(** Lines 43-104: the /biggify command.  [image] is [None] or an
    attachment; [rows] and [stretch_factor] default to 4 and 1.5. *)
Definition biggify (image : option Attachment) (rows : Z) (stretch_factor : float)
  : Bot unit :=
  await (Call_defer true true) (response_defer true true) ;;;
  match image with
  | None => reply "Please attach a valid image to the command!"
  | Some img =>
      is_image <- blift (content_type_startswith_image img) ;;
      if negb is_image then
        reply "Please attach a valid image to the command!"
      else if negb ((1 <=? rows) && (rows <=? 10)) then
        reply "Rows must be between 1 and 10 (inclusive)."
      else if negb (fleb f1_0 stretch_factor && fleb stretch_factor f3_0) then
        reply "Stretch factor must be between 1.0 and 3.0 (e.g., 1.5). Larger values mean more stretch."
      else download_and_send img rows stretch_factor
  end.

(** Line 147: [img is not None and img.content_type and
    img.content_type.startswith('image/')], as a truth value. *)
Definition is_valid_image (img : option Attachment) : bool :=
  match img with
  | None => false
  | Some a =>
      truthy (content_type a) &&
      match content_type a with
      | Some ct => prefix "image/" ct
      | None => false
      end
  end.

(** Lines 145-148. *)
Definition valid_images_of (attached_images : list (option Attachment))
  : list Attachment :=
  flat_map (fun img => match img with
                       | Some a => if is_valid_image img then [a] else []
                       | None => []
                       end) attached_images.

(** Lines 158-169, followed by [rest] when the loop ends: a download that
    raises ends the handler. *)
Fixpoint download_all (valid_images : list Attachment)
    (image_bytes_list : list (list byte))
    (rest : list (list byte) -> Bot unit) : Bot unit :=
  match valid_images with
  | [] => rest image_bytes_list
  | img_attachment :: valid_images' =>
      try_else
        (await (Call_read img_attachment) (attachment_read img_attachment))
        (fun e =>
           if is_HTTPException e then
             bot_print ("HTTP Error downloading image for merge: " ++ str_exn e) ;;;
             reply ("Could not download one of the images for merging. Error: "
                    ++ str_exn e)
           else
             bot_print ("Unexpected error downloading image for merge: "
                        ++ str_exn e) ;;;
             reply ("An unexpected error occurred while downloading images for merging. Error: "
                    ++ str_exn e))
        (fun data => download_all valid_images' (image_bytes_list ++ [data]) rest)
  end.

(** Lines 171-186. *)
Definition merge_and_send (image_bytes_list : list (list byte)) : Bot unit :=
  merged_image_io <- core (merge_images_run image_bytes_list) ;;
  match merged_image_io with
  | Some buf =>
      try_else
        (await (Call_channel_send buf "merged_biggified_image.png")
               (channel_send buf "merged_biggified_image.png") ;;;
         reply "Images merged successfully!")
        (fun e =>
           if is_HTTPException e then
             bot_print ("Error sending merged image: " ++ str_exn e) ;;;
             reply ("Could not send the merged image (likely too large). Error: "
                    ++ str_exn e)
           else
             bot_print ("An unexpected error occurred while sending the merged image: "
                        ++ str_exn e) ;;;
             reply ("An unexpected error occurred while sending the merged image: "
                    ++ str_exn e))
        (fun _ => bret tt)
  | None =>
      reply "An error occurred while merging the images. Please ensure they are valid image strips."
  end.

(** Lines 137-186, for the list [attached_images] of line 139. *)
Definition merge_attached (attached_images : list (option Attachment)) : Bot unit :=
  await (Call_defer true true) (response_defer true true) ;;;
  let valid_images := valid_images_of attached_images in
  match valid_images with
  | [] => reply "Please attach at least one valid image strip to merge."
  | _ :: _ =>
      if Z.of_nat (List.length valid_images) <? 2 then
        reply "Please attach at least two image strips to merge them effectively."
      else download_all valid_images [] merge_and_send
  end.

(** Lines 120-186: the /mergebiggify command.  [image1] is required, the
    other nine are [None] when not given. *)
Definition mergebiggify (image1 : Attachment)
    (image2 image3 image4 image5 image6 image7 image8 image9 image10
       : option Attachment) : Bot unit :=
  merge_attached [Some image1; image2; image3; image4; image5;
                  image6; image7; image8; image9; image10].

End BotSource.

(* ===================================================================== *)
(** ** A scripted Discord *)
(* ===================================================================== *)

(** An implementation of the interface used to run the handlers on
    concrete inputs.  The state of the world is the script of the coming
    channel messages: [false] makes the next one fail with an HTTP error.
    Replies to the interaction always go through, and the attachments 1 to
    4 download to the sample files. *)
Module Scripted.

Definition http_classes : list string :=
  ["HTTPException"; "Forbidden"; "NotFound"; "DiscordServerError"]%string.

Definition is_http (e : exn) : bool :=
  let 'Exc cls _ := e in existsb (String.eqb cls) http_classes.

Definition send (fp : BytesIO) (filename : string) (w : list bool)
  : result unit * list bool :=
  match w with
  | false :: w' => (inl (Exc "HTTPException" "413 Payload Too Large"), w')
  | true :: w' => (inr tt, w')
  | [] => (inr tt, [])
  end.

Definition download (a : Attachment) (w : list bool)
  : result (list byte) * list bool :=
  (match attachment_id a with
   | 1 => inr Sample.photo_png
   | 2 => inr Sample.strip_a_png
   | 3 => inr Sample.strip_b_png
   | 4 => inr Sample.thin_png
   | _ => inl (Exc "NotFound" "404 Not Found")
   end, w).

#[global] Instance discord : Discord := {
  World := list bool;
  response_defer := fun _ _ w => (inr tt, w);
  followup_send := fun _ _ w => (inr tt, w);
  channel_send := send;
  attachment_read := download;
  is_HTTPException := is_http
}.

Definition png (id : Z) : Attachment := mkAttachment id (Some "image/png"%string).
Definition untyped (id : Z) : Attachment := mkAttachment id None.
Definition text (id : Z) : Attachment := mkAttachment id (Some "text/plain"%string).

End Scripted.
(* ===================================================================== *)
(** ** Vocabulary of the further statements *)
(* ===================================================================== *)

(** The size [sz'] a strip cropped at size [sz] is saved with: the same
    when the output scale factor is 1.0, the truncated products of the two
    sides with the factor otherwise. *)
Definition scaled_size (output_scale_factor : float) (sz sz' : Z * Z) : Prop :=
  if feqb output_scale_factor f1_0 then sz' = sz
  else int_of_product (fst sz) output_scale_factor = inr (fst sz') /\
       int_of_product (snd sz) output_scale_factor = inr (snd sz').

(** Sample values of the further statements: the strips of the 100 x 4
    picture cut in 4 rows at stretch 1.5, unscaled and at scale 2.0, merged
    again. *)
Module Merged.

Definition buffer (o : option BytesIO) : BytesIO :=
  match o with
  | Some b => b
  | None => BytesIO_new
  end.

Definition unscaled : BytesIO :=
  buffer (merge_images (pil := Raster.pillow)
            (map read (biggify_image (pil := Raster.pillow)
                         Sample.photo_png 4 f1_5 f1_0))).

Definition doubled : BytesIO :=
  buffer (merge_images (pil := Raster.pillow)
            (map read (biggify_image (pil := Raster.pillow)
                         Sample.photo_png 4 f1_5 f2_0))).

End Merged.

Section BotVocabulary.

Context {pil : PIL} {discord : Discord}.

(** The reply of the first check of [biggify] that fails, in the order of
    the source: the attachment, the rows, the stretch factor.  [None] when
    all pass, and when the content type is missing, where the first check
    raises. *)
Definition biggify_rejection (image : option Attachment) (rows : Z)
    (stretch_factor : float) : option string :=
  match image with
  | None => Some "Please attach a valid image to the command!"%string
  | Some img =>
      match content_type img with
      | None => None
      | Some ct =>
          if negb (prefix "image/" ct)
          then Some "Please attach a valid image to the command!"%string
          else if (rows <? 1) || (10 <? rows)
          then Some "Rows must be between 1 and 10 (inclusive)."%string
          else if negb (in_domain f1_0 f3_0 stretch_factor)
          then Some "Stretch factor must be between 1.0 and 3.0 (e.g., 1.5). Larger values mean more stretch."%string
          else None
      end
  end.

(** The files a run sent to the channel, with their names, in order. *)
Definition sent_files (log : list bot_event) : list (BytesIO * string) :=
  flat_map (fun ev => match ev with
                      | Call_channel_send fp name => [(fp, name)]
                      | _ => []
                      end) log.

(** The attachments a run downloaded, in order. *)
Definition downloads (log : list bot_event) : list Attachment :=
  flat_map (fun ev => match ev with
                      | Call_read a => [a]
                      | _ => []
                      end) log.

(** The events of the image functions in a run. *)
Definition core_events (log : list bot_event) : list event :=
  flat_map (fun ev => match ev with
                      | Core e => [e]
                      | _ => []
                      end) log.

(** The replies to the interaction in a run. *)
Definition replies (log : list bot_event) : list string :=
  flat_map (fun ev => match ev with
                      | Call_followup content _ => [content]
                      | _ => []
                      end) log.

(** The strips [l] under the names of the parts [i + 1], [i + 2], ... *)
Fixpoint numbered_parts (i : Z) (l : list BytesIO) : list (BytesIO * string) :=
  match l with
  | [] => []
  | b :: rest =>
      (b, ("biggified_part_" ++ str_int (i + 1) ++ ".png")%string)
      :: numbered_parts (i + 1) rest
  end.

(** A handler that returns in every world. *)
Definition returns {A : Type} (m : Bot A) : Prop :=
  forall w, exists a, outcome m w = inr a.

(** Every event of every run of a handler satisfies [Q]. *)
Definition always (Q : bot_event -> Prop) {A : Type} (m : Bot A) : Prop :=
  forall w, Forall Q (trace m w).

(** The replies to the interaction always go through. *)
Definition replies_go_through : Prop :=
  (forall t e w, fst (response_defer t e w) = inr tt) /\
  (forall content e w, fst (followup_send content e w) = inr tt).

(** The attachment downloads to [data], whenever it is read. *)
Definition downloads_to (a : Attachment) (data : list byte) : Prop :=
  forall w, fst (attachment_read a w) = inr data.

End BotVocabulary.

(* ===================================================================== *)
(** ** Runs: general facts *)
(* ===================================================================== *)

Section Runs.

Context {pil : PIL}.

Lemma bind_inr_inv {A B : Type} (m : M A) (k : A -> M B) log b :
  bind m k = (log, inr b) ->
  exists l1 a l2, m = (l1, inr a) /\ k a = (l2, inr b) /\ log = l1 ++ l2.
Proof.
  unfold bind. destruct m as [l1 [e | a]]; [discriminate |].
  destruct (k a) as [l2 r] eqn:Hk. intros H. inversion H; subst.
  exists l1, a, l2. auto.
Qed.

Lemma bind_events_prefix {A B : Type} (m : M A) (k : A -> M B) :
  exists rest, fst (bind m k) = fst m ++ rest.
Proof.
  unfold bind. destruct m as [l1 [e | a]]; simpl.
  - exists []. now rewrite app_nil_r.
  - destruct (k a) as [l2 r]. simpl. now exists l2.
Qed.

Lemma lift_inr_inv {A : Type} (r : result A) log a :
  lift r = (log, inr a) -> r = inr a /\ log = [].
Proof. unfold lift. intros H. inversion H. auto. Qed.

Lemma call_inr_inv {A : Type} ev (r : result A) log a :
  call ev r = (log, inr a) -> r = inr a /\ log = [ev].
Proof. unfold call. intros H. inversion H. auto. Qed.

Lemma ret_inr_inv {A : Type} (x : A) log a :
  ret x = (log, inr a) -> a = x /\ log = [].
Proof. unfold ret. intros H. inversion H. auto. Qed.

(** A handler that returns makes the whole [try] return. *)
Lemma try_except_returns {A : Type} (m : M A) (h : exn -> M A) :
  (forall e, exists l v, h e = (l, inr v)) ->
  exists l v, try_except m h = (l, inr v).
Proof.
  intros Hh. unfold try_except. destruct m as [l [e | a]].
  - destruct (Hh e) as (l' & v & ->). eauto.
  - eauto.
Qed.

Lemma returned_try_except_raised {A : Type} (d : A) (m : M A) e (msg : exn -> string) :
  snd m = inl e ->
  returned d (try_except m (fun e => bind (print (msg e)) (fun _ => ret d))) = d.
Proof.
  destruct m as [l r]. simpl. intros ->. reflexivity.
Qed.

Lemma returned_try_except_value {A : Type} (d : A) (m : M A) a (h : exn -> M A) :
  snd m = inr a -> returned d (try_except m h) = a.
Proof.
  destruct m as [l r]. simpl. intros ->. reflexivity.
Qed.

(** A loop whose body appends one element satisfying [P] appends [n] of
    them. *)
Lemma for_range_appends {A : Type} (P : A -> Prop) (body : Z -> list A -> M (list A)) :
  (forall r acc log l, body r acc = (log, inr l) -> exists x, l = acc ++ [x] /\ P x) ->
  forall n r acc log l,
    for_range n r body acc = (log, inr l) ->
    exists xs, l = acc ++ xs /\ List.length xs = n /\ Forall P xs.
Proof.
  intros Hbody. induction n as [| n IH]; intros r acc log l H; simpl in H.
  - apply ret_inr_inv in H as [-> _]. exists []. rewrite app_nil_r. auto.
  - apply bind_inr_inv in H as (l1 & acc' & l2 & Hb & Hrest & _).
    apply Hbody in Hb as (x & -> & Hx).
    apply IH in Hrest as (xs & -> & Hlen & Hall).
    exists (x :: xs). rewrite <- app_assoc. simpl. split; [reflexivity |].
    split; [now rewrite Hlen | now constructor].
Qed.

Lemma written_buffer data :
  seek (write BytesIO_new data) 0 = mkBytesIO data 0.
Proof.
  unfold seek, write, BytesIO_new. simpl.
  rewrite skipn_nil, app_nil_r. reflexivity.
Qed.

End Runs.

(* ===================================================================== *)
(** ** Properties of every event of a run *)
(* ===================================================================== *)

Section EventInvariants.

Context {pil : PIL}.

Variable Q : event -> Prop.

Lemma bind_events {A B : Type} (m : M A) (k : A -> M B) :
  Forall Q (fst m) ->
  (forall a, snd m = inr a -> Forall Q (fst (k a))) ->
  Forall Q (fst (bind m k)).
Proof.
  intros Hm Hk. unfold bind. destruct m as [l [e | a]]; simpl in *.
  - assumption.
  - specialize (Hk a eq_refl). destruct (k a) as [l' r]. simpl in *.
    apply Forall_app. auto.
Qed.

Lemma try_except_events {A : Type} (m : M A) (h : exn -> M A) :
  Forall Q (fst m) ->
  (forall e, Forall Q (fst (h e))) ->
  Forall Q (fst (try_except m h)).
Proof.
  intros Hm Hh. unfold try_except. destruct m as [l [e | a]]; simpl in *.
  - specialize (Hh e). destruct (h e) as [l' r]. simpl in *.
    apply Forall_app. auto.
  - assumption.
Qed.

Lemma call_events {A : Type} ev (r : result A) :
  Q ev -> Forall Q (fst (call ev r)).
Proof. intros H. simpl. auto. Qed.

Lemma lift_events {A : Type} (r : result A) : Forall Q (fst (lift r)).
Proof. simpl. auto. Qed.

Lemma ret_events {A : Type} (a : A) : Forall Q (fst (ret a)).
Proof. simpl. auto. Qed.

Lemma print_events line : Q (Printed line) -> Forall Q (fst (print line)).
Proof. intros H. simpl. auto. Qed.

Lemma for_range_events {A : Type} (body : Z -> A -> M A) :
  (forall r acc, Forall Q (fst (body r acc))) ->
  forall n r acc, Forall Q (fst (for_range n r body acc)).
Proof.
  intros Hbody. induction n as [| n IH]; intros r acc; simpl.
  - constructor.
  - apply bind_events; auto.
Qed.

End EventInvariants.

(* ===================================================================== *)
(** ** biggify_image: the shape of a run *)
(* ===================================================================== *)

Section BiggifyRuns.

Context {pil : PIL}.

Lemma scale_strip_value strip osf log strip' :
  scale_strip strip osf = (log, inr strip') ->
  (feqb osf f1_0 = true /\ strip' = strip /\ log = []) \/
  (feqb osf f1_0 = false /\
   exists w h, int_of_product (width strip) osf = inr w /\
               int_of_product (height strip) osf = inr h /\
               resize strip (w, h) LANCZOS = inr strip' /\
               log = [Call_resize strip (w, h) LANCZOS]).
Proof.
  unfold scale_strip. destruct (feqb osf f1_0) eqn:Hs; simpl negb; cbv iota.
  - intros H. apply ret_inr_inv in H as [-> ->]. left. auto.
  - intros H. right. split; [reflexivity |].
    apply bind_inr_inv in H as (l1 & w & l2 & Hw & H & ->).
    apply lift_inr_inv in Hw as [Hw ->].
    apply bind_inr_inv in H as (l3 & h & l4 & Hh & H & ->).
    apply lift_inr_inv in Hh as [Hh ->].
    apply call_inr_inv in H as [H ->].
    exists w, h. auto.
Qed.

Lemma strip_iteration_value orig st cw ch rows ph osf r acc log l :
  strip_iteration orig st cw ch rows ph osf r acc = (log, inr l) ->
  exists bx strip strip' data log',
    strip_box cw ch rows ph r = inr bx /\
    crop st bx = inr strip /\
    scale_strip strip osf = (log', inr strip') /\
    save strip' (save_format orig) = inr data /\
    l = acc ++ [mkBytesIO data 0] /\
    log = Call_crop st bx :: log' ++ [Call_save strip' (save_format orig)].
Proof.
  unfold strip_iteration. intros H.
  apply bind_inr_inv in H as (l1 & bx & l2 & Hbx & H & ->).
  apply lift_inr_inv in Hbx as [Hbx ->].
  apply bind_inr_inv in H as (l3 & strip & l4 & Hc & H & ->).
  apply call_inr_inv in Hc as [Hc ->].
  apply bind_inr_inv in H as (l5 & strip' & l6 & Hs & H & ->).
  apply bind_inr_inv in H as (l7 & data & l8 & Hd & H & ->).
  apply call_inr_inv in Hd as [Hd ->].
  apply ret_inr_inv in H as [-> ->].
  exists bx, strip, strip', data, l5.
  rewrite written_buffer, app_nil_r. simpl. auto 10.
Qed.

Lemma strip_iteration_appends orig st cw ch rows ph osf r acc log l :
  strip_iteration orig st cw ch rows ph osf r acc = (log, inr l) ->
  exists buf, l = acc ++ [buf] /\ holds_encoding (save_format orig) buf.
Proof.
  intros H. apply strip_iteration_value in H
    as (bx & strip & strip' & data & log' & _ & _ & _ & Hd & -> & _).
  exists (mkBytesIO data 0). split; [reflexivity |].
  split; [reflexivity | now exists strip'].
Qed.

(** What the body of the [try] returns when it returns: the empty list
    after a failed check, and otherwise one rewound buffer for each of the
    [rows] turns of the loop. *)
Lemma biggify_image_try_value image_bytes rows sf osf log l :
  biggify_image_try image_bytes rows sf osf = (log, inr l) ->
  exists orig,
    Image_open image_bytes = inr orig /\
    ((exists msg, first_failing_check rows sf osf = Some msg /\ l = [] /\
                  log = [Call_open image_bytes; Printed msg]) \/
     (first_failing_check rows sf osf = None /\
      List.length l = Z.to_nat rows /\
      Forall (holds_encoding (save_format orig)) l)).
Proof.
  unfold biggify_image_try, first_failing_check, in_domain. intros H.
  apply bind_inr_inv in H as (l1 & orig & l2 & Ho & H & ->).
  apply call_inr_inv in Ho as [Ho ->].
  exists orig. split; [assumption |].
  destruct (size orig) as [ow oh] eqn:Hsz.
  destruct (rows <=? 0).
  { left. eexists. split; [reflexivity |]. simpl in H. inversion H. auto. }
  destruct (negb (fleb f1_0 sf && fleb sf f3_0)).
  { left. eexists. split; [reflexivity |]. simpl in H. inversion H. auto. }
  destruct (negb (fleb f0_5 osf && fleb osf f4_0)).
  { left. eexists. split; [reflexivity |]. simpl in H. inversion H. auto. }
  right. split; [reflexivity |].
  apply bind_inr_inv in H as (l3 & sw & l4 & _ & H & _).
  apply bind_inr_inv in H as (l5 & st & l6 & _ & H & _).
  destruct (size st) as [cw ch].
  apply bind_inr_inv in H as (l7 & ph & l8 & _ & H & _).
  apply for_range_appends
    with (P := holds_encoding (save_format orig)) in H.
  - destruct H as (xs & -> & Hlen & Hall). simpl. auto.
  - intros r acc lg l'. apply strip_iteration_appends.
Qed.

(** An exception in the body of the [try] ends in the [except] clause. *)
Lemma biggify_image_raised image_bytes rows sf osf e :
  snd (biggify_image_try image_bytes rows sf osf) = inl e ->
  biggify_image image_bytes rows sf osf = [].
Proof.
  intros H. unfold biggify_image, biggify_image_run.
  now apply returned_try_except_raised with (e := e).
Qed.

Lemma biggify_image_value image_bytes rows sf osf l :
  snd (biggify_image_try image_bytes rows sf osf) = inr l ->
  biggify_image image_bytes rows sf osf = l.
Proof.
  intros H. unfold biggify_image, biggify_image_run.
  now apply returned_try_except_value.
Qed.

Lemma biggify_image_cases image_bytes rows sf osf :
  biggify_image image_bytes rows sf osf = [] \/
  exists log l,
    biggify_image_try image_bytes rows sf osf = (log, inr l) /\
    biggify_image image_bytes rows sf osf = l.
Proof.
  destruct (biggify_image_try image_bytes rows sf osf) as [log [e | l]] eqn:H.
  - left. apply biggify_image_raised with (e := e). now rewrite H.
  - right. exists log, l. split; [reflexivity |].
    apply biggify_image_value. now rewrite H.
Qed.

Lemma cropped_boxes_app l1 l2 :
  cropped_boxes (l1 ++ l2) = cropped_boxes l1 ++ cropped_boxes l2.
Proof. apply flat_map_app. Qed.

Lemma scale_strip_crops strip osf :
  cropped_boxes (fst (scale_strip strip osf)) = [].
Proof.
  unfold scale_strip. destruct (negb (feqb osf f1_0)); [| reflexivity].
  destruct (int_of_product (width strip) osf) as [e | w]; [reflexivity |].
  destruct (int_of_product (height strip) osf) as [e | h]; reflexivity.
Qed.

(** What one turn of the loop crops is its box, and it goes on to the next
    turn only after cropping. *)
Lemma strip_iteration_crops orig st cw ch rows ph osf r acc bx :
  strip_box cw ch rows ph r = inr bx ->
  cropped_boxes (fst (strip_iteration orig st cw ch rows ph osf r acc)) = [bx].
Proof.
  intros Hbx. unfold strip_iteration. rewrite Hbx.
  unfold lift, call, bind at 1. cbn [app].
  destruct (crop st bx) as [e | strip]; [reflexivity |].
  unfold bind at 1. cbn [app].
  pose proof (scale_strip_crops strip osf) as Hs.
  destruct (scale_strip strip osf) as [lg [e | strip']]; cbn [fst] in Hs.
  - cbn [fst].
    change (cropped_boxes ([Call_crop st bx] ++ lg) = [bx]).
    now rewrite cropped_boxes_app, Hs.
  - unfold bind at 1.
    destruct (save strip' (save_format orig)) as [e | data]; cbn [bind ret app fst].
    all: match goal with
         | |- cropped_boxes (_ :: ?l) = _ =>
             change (cropped_boxes ([Call_crop st bx] ++ l) = [bx])
         end.
    all: rewrite !cropped_boxes_app, Hs; reflexivity.
Qed.

(** The boxes the loop crops are, in order, those of [strip_boxes_from]:
    all of them when the loop runs to its end, the first ones when a call
    raises. *)
Lemma for_range_crops orig st cw ch rows ph osf :
  forall n r acc bs,
    strip_boxes_from n r cw ch rows ph = inr bs ->
    exists rest,
      bs = cropped_boxes
             (fst (for_range n r (strip_iteration orig st cw ch rows ph osf) acc))
           ++ rest /\
      (forall l,
         snd (for_range n r (strip_iteration orig st cw ch rows ph osf) acc) = inr l ->
         rest = []).
Proof.
  induction n as [| n IH]; intros r acc bs Hbs; cbn [strip_boxes_from for_range] in *.
  - injection Hbs as <-. exists []. split; [reflexivity | auto].
  - destruct (strip_box cw ch rows ph r) as [e | bx] eqn:Hbx; [discriminate |].
    cbn [bindR] in Hbs.
    destruct (strip_boxes_from n (r + 1) cw ch rows ph) as [e | bs'] eqn:Hbs';
      [discriminate |].
    cbn [bindR] in Hbs. injection Hbs as <-.
    pose proof (strip_iteration_crops orig st cw ch rows ph osf r acc bx Hbx) as Hc.
    destruct (strip_iteration orig st cw ch rows ph osf r acc) as [l1 [e | acc']];
      cbn [fst] in Hc; cbn [bind].
    + exists bs'. cbn [fst snd]. rewrite Hc. split; [reflexivity | discriminate].
    + destruct (IH (r + 1) acc' bs' Hbs') as (rest & Hrest & Hend).
      destruct (for_range n (r + 1) (strip_iteration orig st cw ch rows ph osf) acc')
        as [l2 res]. cbn [fst snd] in *.
      exists rest. rewrite cropped_boxes_app, Hc. split.
      * cbn [app]. now rewrite Hrest.
      * exact Hend.
Qed.

End BiggifyRuns.

(* ===================================================================== *)
(** ** merge_images: the shape of a run *)
(* ===================================================================== *)

Section MergeRuns.

Context {pil : PIL}.

Lemma open_all_ok l : forall ims acc,
  Forall2 opens l ims ->
  open_all l acc = (map Call_open l, inr (acc ++ ims)).
Proof.
  induction l as [| b l IH]; intros ims acc H; inversion H as [| ? im ? ims' Ho HF];
    subst; simpl.
  - now rewrite app_nil_r.
  - unfold opens in Ho. rewrite Ho. unfold call, bind.
    rewrite (IH _ _ HF). simpl. now rewrite <- app_assoc.
Qed.

Lemma open_all_value l : forall acc log images,
  open_all l acc = (log, inr images) ->
  exists ims, Forall2 opens l ims /\ images = acc ++ ims /\ log = map Call_open l.
Proof.
  induction l as [| b l IH]; intros acc log images H; cbn [open_all] in H.
  - apply ret_inr_inv in H as [-> ->]. exists []. rewrite app_nil_r. auto.
  - apply bind_inr_inv in H as (l1 & im & l2 & Ho & H & ->).
    apply call_inr_inv in Ho as [Ho ->].
    apply IH in H as (ims & HF & -> & ->).
    exists (im :: ims). rewrite <- app_assoc. simpl. auto.
Qed.

(** One undecodable element makes the decoding loop raise. *)
Lemma open_all_raises l : forall acc b e,
  In b l -> Image_open b = inl e ->
  exists log e', open_all l acc = (log, inl e').
Proof.
  induction l as [| b0 l IH]; intros acc b e Hin Hb; [destruct Hin |].
  simpl. destruct (Image_open b0) as [e0 | im0] eqn:H0.
  - unfold call, bind. eauto.
  - destruct Hin as [-> | Hin]; [congruence |].
    destruct (IH (acc ++ [im0]) b e Hin Hb) as (log & e' & Hr).
    unfold call, bind. rewrite Hr. eauto.
Qed.

Lemma merge_images_try_value l log buf :
  merge_images_try l = (log, inr buf) ->
  exists images first canvas0 plog canvas data,
    Forall2 opens l images /\
    hd_error images = Some first /\
    Image_new "RGB" (width first, sum_heights images) = inr canvas0 /\
    paste_all images canvas0 0 = (plog, inr canvas) /\
    save canvas "PNG" = inr data /\
    buf = mkBytesIO data 0 /\
    log = map Call_open l
          ++ Call_new "RGB" (width first, sum_heights images)
          :: plog ++ [Call_save canvas "PNG"].
Proof.
  unfold merge_images_try. intros H.
  apply bind_inr_inv in H as (l1 & images & l2 & Ho & H & ->).
  apply open_all_value in Ho as (ims & HF & Hi & ->). simpl in Hi. subst ims.
  apply bind_inr_inv in H as (l3 & first & l4 & Hf & H & ->).
  apply lift_inr_inv in Hf as [Hf ->].
  apply bind_inr_inv in H as (l5 & c0 & l6 & Hn & H & ->).
  apply call_inr_inv in Hn as [Hn ->].
  apply bind_inr_inv in H as (plog & c & l8 & Hp & H & ->).
  apply bind_inr_inv in H as (l9 & data & l10 & Hs & H & ->).
  apply call_inr_inv in Hs as [Hs ->].
  apply ret_inr_inv in H as [-> ->].
  exists images, first, c0, plog, c, data.
  rewrite written_buffer, app_nil_r. simpl.
  repeat split; try assumption.
  destruct images; [discriminate | now inversion Hf].
Qed.

(** The other way round: when every call of the run returns, the run
    returns the rewound buffer. *)
Lemma merge_images_try_ok l images first canvas0 plog canvas data :
  Forall2 opens l images ->
  hd_error images = Some first ->
  Image_new "RGB" (width first, sum_heights images) = inr canvas0 ->
  paste_all images canvas0 0 = (plog, inr canvas) ->
  save canvas "PNG" = inr data ->
  snd (merge_images_try l) = inr (mkBytesIO data 0).
Proof.
  intros HF Hf Hn Hp Hs. unfold merge_images_try.
  rewrite (open_all_ok _ _ [] HF). simpl app.
  destruct images as [| im ims]; [discriminate |]. inversion Hf; subst im.
  unfold bind, lift, call. rewrite Hn, Hp, Hs. simpl.
  now rewrite written_buffer.
Qed.

Lemma merge_images_raised l e :
  snd (merge_images_try l) = inl e -> merge_images l = None.
Proof.
  intros H. unfold merge_images, merge_images_run.
  destruct l as [| b l]; [reflexivity |].
  destruct (merge_images_try (b :: l)) as [log r]. simpl in H. subst r.
  reflexivity.
Qed.

Lemma merge_images_value l buf :
  l <> [] -> snd (merge_images_try l) = inr buf -> merge_images l = Some buf.
Proof.
  intros Hl H. unfold merge_images, merge_images_run.
  destruct l as [| b l]; [congruence |].
  destruct (merge_images_try (b :: l)) as [log r]. simpl in H. subst r.
  reflexivity.
Qed.

Lemma merge_images_some l buf :
  merge_images l = Some buf ->
  exists log, merge_images_try l = (log, inr buf).
Proof.
  unfold merge_images, merge_images_run.
  destruct l as [| b l]; [discriminate |].
  destruct (merge_images_try (b :: l)) as [log [e | v]]; simpl; [discriminate |].
  intros H. inversion H. eauto.
Qed.

End MergeRuns.

(* ===================================================================== *)
(** ** merge_images: where the pixels go *)
(* ===================================================================== *)

Section MergePixels.

Context {pil : PIL} {laws : PIL_laws pil}.

Lemma fold_left_add_init (l : list Z) : forall a,
  fold_left Z.add l a = a + fold_left Z.add l 0.
Proof.
  induction l as [| x l IH]; intros a; simpl; [lia |].
  rewrite (IH (a + x)), (IH x). lia.
Qed.

Lemma sum_heights_cons im images :
  sum_heights (im :: images) = height im + sum_heights images.
Proof.
  unfold sum_heights. simpl. now rewrite fold_left_add_init.
Qed.

Lemma sum_heights_nonneg images :
  Forall (fun im => 0 <= height im) images -> 0 <= sum_heights images.
Proof.
  induction 1 as [| im images H _ IH]; [reflexivity |].
  rewrite sum_heights_cons. lia.
Qed.

(** The height of the images before position [j], and of those up to it,
    against the height of all. *)
Lemma sum_heights_firstn images : forall j im,
  Forall (fun im => 0 <= height im) images ->
  nth_error images j = Some im ->
  0 <= sum_heights (firstn j images) /\
  sum_heights (firstn j images) + height im <= sum_heights images.
Proof.
  induction images as [| im0 images IH]; intros j im HF Hn.
  - destruct j; discriminate.
  - inversion HF as [| ? ? H0 HF']; subst.
    destruct j as [| j]; simpl in Hn |- *.
    + inversion Hn; subst. rewrite sum_heights_cons.
      pose proof (sum_heights_nonneg images HF').
      change (sum_heights []) with 0. lia.
    + rewrite !sum_heights_cons. specialize (IH j im HF' Hn). lia.
Qed.

Lemma paste_all_log images : forall canvas0 off log canvas,
  paste_all images canvas0 off = (log, inr canvas) ->
  List.length log = List.length images /\
  forall j im, nth_error images j = Some im ->
    exists cj, nth_error log j
               = Some (Call_paste cj im (0, off + sum_heights (firstn j images))).
Proof.
  induction images as [| im0 images IH]; intros c0 off log c H; cbn [paste_all] in H.
  - apply ret_inr_inv in H as [_ ->]. split; [reflexivity |].
    intros [| j] im Hn; discriminate.
  - apply bind_inr_inv in H as (l1 & c1 & l2 & Hp & H & ->).
    apply call_inr_inv in Hp as [Hp ->].
    apply IH in H as [Hlen Hlog]. split; [simpl; now rewrite Hlen |].
    intros [| j] im Hn; simpl in Hn |- *.
    + inversion Hn; subst. exists c0. unfold sum_heights. simpl.
      now rewrite Z.add_0_r.
    + destruct (Hlog j im Hn) as [cj Hj]. exists cj. rewrite Hj.
      rewrite sum_heights_cons. do 3 f_equal. lia.
Qed.

Lemma paste_all_pixels images : forall canvas0 off log canvas,
  paste_all images canvas0 off = (log, inr canvas) ->
  mode canvas0 = "RGB"%string ->
  Forall (fun im => 0 <= height im) images ->
  0 <= off ->
  size canvas = size canvas0 /\
  mode canvas = "RGB"%string /\
  (forall x y, 0 <= x < width canvas0 -> 0 <= y < height canvas0 -> y < off ->
     getpixel canvas (x, y) = getpixel canvas0 (x, y)) /\
  (forall j im x y,
     nth_error images j = Some im ->
     0 <= x < width im -> x < width canvas0 ->
     0 <= y < height im ->
     off + sum_heights (firstn j images) + y < height canvas0 ->
     getpixel canvas (x, off + sum_heights (firstn j images) + y)
     = getpixel im (x, y)).
Proof.
  induction images as [| im0 images IH];
    intros c0 off log c H Hmode HF Hoff; cbn [paste_all] in H.
  - apply ret_inr_inv in H as [-> _]. repeat split; auto.
    intros [| j] im x y Hn; discriminate.
  - inversion HF as [| ? ? H0 HF']; subst.
    apply bind_inr_inv in H as (l1 & c1 & l2 & Hp & H & ->).
    apply call_inr_inv in Hp as [Hp _].
    destruct (paste_size _ _ _ _ Hp) as [Hsz1 Hmd1].
    assert (Hw1 : width c1 = width c0) by (unfold width; now rewrite Hsz1).
    assert (Hh1 : height c1 = height c0) by (unfold height; now rewrite Hsz1).
    apply IH in H as (Hsz & Hmd & Hkeep & Hpix);
      [| congruence | assumption | lia].
    split; [congruence |]. split; [assumption |]. split.
    + intros x y Hx Hy Hlt.
      rewrite Hkeep by lia.
      rewrite (paste_pixel _ _ _ _ _ x y Hp Hmode Hx Hy).
      replace (off <=? y) with false by (symmetry; apply Z.leb_gt; lia).
      now rewrite andb_false_r.
    + intros [| j] im x y Hn Hx Hxc Hy Hin; simpl in Hn.
      * inversion Hn; subst im. unfold sum_heights in Hin |- *. simpl in Hin |- *.
        rewrite Z.add_0_r in Hin |- *.
        rewrite Hkeep by lia.
        rewrite (paste_pixel _ _ _ _ _ x (off + y) Hp Hmode) by lia.
        replace (0 <=? x) with true by (symmetry; apply Z.leb_le; lia).
        replace (x <? 0 + width im0) with true by (symmetry; apply Z.ltb_lt; lia).
        replace (off <=? off + y) with true by (symmetry; apply Z.leb_le; lia).
        replace (off + y <? off + height im0) with true
          by (symmetry; apply Z.ltb_lt; lia).
        simpl. do 2 f_equal; lia.
      * simpl firstn in Hin |- *. rewrite sum_heights_cons in Hin |- *.
        replace (off + (height im0 + sum_heights (firstn j images)) + y)
          with (off + height im0 + sum_heights (firstn j images) + y) in Hin |- * by lia.
        apply Hpix; auto; lia.
Qed.

Lemma opened_heights_nonneg l images :
  Forall2 opens l images -> Forall (fun im => 0 <= height im) images.
Proof.
  induction 1 as [| b im l images Ho _ IH]; constructor; [| assumption].
  apply open_size in Ho. lia.
Qed.

(** The merged canvas of a run whose calls all return. *)
Lemma merged_canvas l images first canvas0 plog canvas :
  Forall2 opens l images ->
  hd_error images = Some first ->
  Image_new "RGB" (width first, sum_heights images) = inr canvas0 ->
  paste_all images canvas0 0 = (plog, inr canvas) ->
  size canvas = (width first, sum_heights images) /\
  mode canvas = "RGB"%string /\
  (forall j im x y,
     nth_error images j = Some im ->
     0 <= x < width im -> x < width first -> 0 <= y < height im ->
     getpixel canvas (x, sum_heights (firstn j images) + y)
     = getpixel im (x, y)).
Proof.
  intros HF Hf Hn Hp.
  pose proof (opened_heights_nonneg _ _ HF) as Hh.
  destruct (new_size _ _ _ Hn) as [Hsz0 Hmd0].
  destruct (paste_all_pixels _ _ _ _ _ Hp Hmd0 Hh (Z.le_refl 0))
    as (Hsz & Hmd & _ & Hpix).
  split; [congruence |]. split; [assumption |].
  intros j im x y Hj Hx Hxc Hy.
  destruct (sum_heights_firstn _ _ _ Hh Hj) as [Hlo Hhi].
  assert (Hw0 : width canvas0 = width first)
    by (unfold width at 1; now rewrite Hsz0).
  assert (Hh0 : height canvas0 = sum_heights images)
    by (unfold height at 1; now rewrite Hsz0).
  apply (Hpix j im x y Hj Hx); lia.
Qed.

End MergePixels.

(* ===================================================================== *)
(** ** The reference raster library keeps the laws *)
(* ===================================================================== *)

Module RasterFacts.
Import Raster.

Lemma Z_of_byte_range b : 0 <= Z_of_byte b <= 255.
Proof.
  unfold Z_of_byte. pose proof (Byte.to_N_bounded b) as H. lia.
Qed.

Lemma Z_of_byte_of_Z z : Z_of_byte (byte_of_Z z) = z mod 256.
Proof.
  unfold Z_of_byte, byte_of_Z.
  assert (Hm : 0 <= z mod 256 < 256) by (apply Z.mod_pos_bound; lia).
  destruct (Byte.of_N (Z.to_N (z mod 256))) as [b |] eqn:Hb.
  - apply Byte.to_of_N in Hb. rewrite Hb. lia.
  - apply Byte.of_N_None_iff in Hb. lia.
Qed.

Lemma two_bytes w :
  0 <= w < 65536 ->
  256 * Z_of_byte (byte_of_Z (w / 256)) + Z_of_byte (byte_of_Z w) = w.
Proof.
  intros H. rewrite !Z_of_byte_of_Z.
  rewrite (Z.mod_small (w / 256)).
  - symmetry. apply Z.div_mod. lia.
  - split; [apply Z.div_pos; lia | apply Z.div_lt_upper_bound; lia].
Qed.

Lemma length_flat_map_const {A B : Type} (f : A -> list B) k l :
  (forall a, List.length (f a) = k) ->
  List.length (flat_map f l) = (k * List.length l)%nat.
Proof.
  intros Hf. induction l as [| a l IH]; simpl; [lia |].
  rewrite length_app, Hf, IH. lia.
Qed.

Lemma length_payload im :
  Z.of_nat (List.length (payload im))
  = 3 * Z.max 0 (fst (r_size im)) * Z.max 0 (snd (r_size im)).
Proof.
  unfold payload, Zrange.
  rewrite (length_flat_map_const _ (3 * Z.to_nat (fst (r_size im)))).
  - rewrite length_map, length_seq. lia.
  - intros y. rewrite (length_flat_map_const _ 3).
    + rewrite length_map, length_seq. lia.
    + intros x. destruct (r_pixel im x y) as [[r g] b]. reflexivity.
Qed.

Lemma tag_roundtrip fmt t :
  tag_of_format fmt = Some t -> format_of_tag t = Some fmt.
Proof.
  unfold tag_of_format.
  destruct (String.eqb fmt "PNG") eqn:H1.
  { apply String.eqb_eq in H1. intros H. inversion H. now subst. }
  destruct (String.eqb fmt "JPEG") eqn:H2.
  { apply String.eqb_eq in H2. intros H. inversion H. now subst. }
  destruct (String.eqb fmt "GIF") eqn:H3.
  { apply String.eqb_eq in H3. intros H. inversion H. now subst. }
  discriminate.
Qed.

Lemma encode_decode im fmt data :
  encode im fmt = inr data ->
  exists im', decode data = inr im' /\ r_size im' = r_size im.
Proof.
  unfold encode.
  destruct (tag_of_format fmt) as [t |] eqn:Ht; [| discriminate].
  destruct (r_size im) as [w h] eqn:Hsz.
  destruct ((1 <=? w) && (w <? 65536) && (1 <=? h) && (h <? 65536)) eqn:Hb;
    [| discriminate].
  intros H. inversion H; subst data. clear H.
  apply andb_prop in Hb as [Hb Hh2]. apply andb_prop in Hb as [Hb Hh1].
  apply andb_prop in Hb as [Hw1 Hw2].
  apply Z.leb_le in Hw1, Hh1. apply Z.ltb_lt in Hw2, Hh2.
  unfold decode. rewrite (tag_roundtrip _ _ Ht).
  rewrite !two_bytes by lia.
  rewrite length_payload, Hsz. simpl fst. simpl snd.
  replace (3 * Z.max 0 w * Z.max 0 h =? 3 * w * h) with true
    by (symmetry; apply Z.eqb_eq; lia).
  eexists. split; reflexivity.
Qed.

Lemma decode_size data im :
  decode data = inr im ->
  0 <= fst (r_size im) < 65536 /\ 0 <= snd (r_size im) < 65536.
Proof.
  unfold decode.
  destruct data as [| t [| w1 [| w0 [| h1 [| h0 p]]]]]; try discriminate.
  destruct (format_of_tag t); [| discriminate]. cbv zeta.
  pose proof (Z_of_byte_range w1). pose proof (Z_of_byte_range w0).
  pose proof (Z_of_byte_range h1). pose proof (Z_of_byte_range h0).
  remember (256 * Z_of_byte w1 + Z_of_byte w0) as w eqn:Hw.
  remember (256 * Z_of_byte h1 + Z_of_byte h0) as h eqn:Hh.
  destruct (_ =? _); [| discriminate].
  intros Hd. injection Hd as <-. cbn [fst snd r_size]. lia.
Qed.

Lemma paste_region (sz : Z * Z) x0 y0 x y :
  inside sz (x - x0) (y - y0)
  = (x0 <=? x) && (x <? x0 + fst sz) && (y0 <=? y) && (y <? y0 + snd sz).
Proof.
  unfold inside.
  destruct (Z.leb_spec 0 (x - x0)), (Z.leb_spec x0 x); try lia;
  destruct (Z.ltb_spec (x - x0) (fst sz)), (Z.ltb_spec x (x0 + fst sz)); try lia;
  destruct (Z.leb_spec 0 (y - y0)), (Z.leb_spec y0 y); try lia;
  destruct (Z.ltb_spec (y - y0) (snd sz)), (Z.ltb_spec y (y0 + snd sz)); try lia;
  reflexivity.
Qed.

Lemma pillow_laws : PIL_laws pillow.
Proof.
  constructor.
  - intros data im H. apply decode_size in H. unfold width, height. simpl. lia.
  - intros im sz f im'. simpl. unfold resize.
    destruct ((fst sz <? 1) || (snd sz <? 1)) eqn:Hb; [discriminate |].
    intros H. injection H as <-. cbn [r_size].
    apply orb_false_elim in Hb as [Hw Hh].
    apply Z.ltb_ge in Hw, Hh. auto.
  - intros im l t r b im'. simpl. unfold crop.
    destruct (r <? l) eqn:Hr; [discriminate |].
    destruct (b <? t) eqn:Hb; [discriminate |].
    intros H. injection H as <-. cbn [r_size].
    apply Z.ltb_ge in Hr, Hb. f_equal; lia.
  - intros md sz im. simpl. unfold new.
    destruct ((fst sz <? 0) || (snd sz <? 0)); [discriminate |].
    intros H. injection H as <-. auto.
  - intros canvas im xy canvas'. simpl. unfold paste.
    intros H. injection H as <-. auto.
  - intros canvas im x0 y0 canvas' x y. simpl. unfold paste.
    intros H _ _ _. injection H as <-. cbn [r_pixel fst snd].
    unfold width, height. cbn [size pillow]. now rewrite paste_region.
  - intros im fmt data H. apply encode_decode in H as (im' & Hd & Hs).
    exists im'. auto.
Qed.

End RasterFacts.

(* ===================================================================== *)
(** ** binary64: what the operations compute *)
(* ===================================================================== *)

(** digits *)
Lemma digits2_pos_bounds p :
  2 ^ (Zpos (digits2_pos p) - 1) <= Zpos p < 2 ^ Zpos (digits2_pos p).
Proof.
  induction p as [p IH | p IH |]; cbn [digits2_pos].
  - rewrite Pos2Z.inj_succ.
    replace (Z.succ (Zpos (digits2_pos p)) - 1) with (Z.succ (Zpos (digits2_pos p) - 1)) by lia.
    rewrite !Z.pow_succ_r by lia. lia.
  - rewrite Pos2Z.inj_succ.
    replace (Z.succ (Zpos (digits2_pos p)) - 1) with (Z.succ (Zpos (digits2_pos p) - 1)) by lia.
    rewrite !Z.pow_succ_r by lia. lia.
  - simpl. lia.
Qed.

Lemma Zdigits2_bounds x :
  0 < x -> 2 ^ (Zdigits2 x - 1) <= x < 2 ^ Zdigits2 x.
Proof.
  destruct x as [| p | p]; try lia. intros _. apply digits2_pos_bounds.
Qed.

Lemma Zdigits2_pos x : 0 < x -> 0 < Zdigits2 x.
Proof. destruct x; simpl; lia. Qed.

(** the number of digits is the least [d] with [x < 2 ^ d] *)
Lemma Zdigits2_unique x d :
  0 < x -> 2 ^ (d - 1) <= x < 2 ^ d -> Zdigits2 x = d.
Proof.
  intros Hx [Hlo Hhi]. pose proof (Zdigits2_bounds x Hx) as [Hl Hh].
  pose proof (Zdigits2_pos x Hx).
  assert (0 < d).
  { destruct (Z.lt_trichotomy d 0) as [Hd | [Hd | Hd]]; try lia.
    - rewrite Z.pow_neg_r in Hhi by lia. lia.
    - subst. simpl in Hhi. lia. }
  destruct (Z.lt_trichotomy (Zdigits2 x) d) as [Hc | [Hc | Hc]]; [| assumption |].
  - assert (2 ^ Zdigits2 x <= 2 ^ (d - 1)) by (apply Z.pow_le_mono_r; lia). lia.
  - assert (2 ^ d <= 2 ^ (Zdigits2 x - 1)) by (apply Z.pow_le_mono_r; lia). lia.
Qed.

Lemma Zdigits2_le x y : 0 < x -> x <= y -> Zdigits2 x <= Zdigits2 y.
Proof.
  intros Hx Hxy.
  pose proof (Zdigits2_bounds x Hx) as [Hl Hh].
  pose proof (Zdigits2_bounds y ltac:(lia)) as [Hl' Hh'].
  destruct (Z.le_gt_cases (Zdigits2 x) (Zdigits2 y)) as [Hc | Hc]; [assumption |].
  assert (2 ^ Zdigits2 y <= 2 ^ (Zdigits2 x - 1)) by (apply Z.pow_le_mono_r; lia). lia.
Qed.

Lemma Zdigits2_shift x j :
  0 < x -> 0 <= j -> Zdigits2 (x * 2 ^ j) = Zdigits2 x + j.
Proof.
  intros Hx Hj. pose proof (Zdigits2_bounds x Hx) as [Hl Hh].
  pose proof (Zdigits2_pos x Hx).
  assert (0 < 2 ^ j) by (apply Z.pow_pos_nonneg; lia).
  apply Zdigits2_unique; [nia |].
  replace (Zdigits2 x + j - 1) with ((Zdigits2 x - 1) + j) by lia.
  rewrite !Z.pow_add_r by lia. nia.
Qed.

(** shifting *)
Lemma iter_pos_nat {A : Type} (f : A -> A) p : forall x,
  iter_pos f p x = Nat.iter (Pos.to_nat p) f x.
Proof.
  assert (Hswap : forall n x, Nat.iter n f (f x) = f (Nat.iter n f x)).
  { induction n as [| n IH]; intros x; simpl; [reflexivity | now rewrite IH]. }
  assert (Hadd : forall n k x, Nat.iter (n + k) f x = Nat.iter n f (Nat.iter k f x)).
  { induction n as [| n IH]; intros k x; simpl; [reflexivity | now rewrite IH]. }
  induction p as [p IH | p IH |]; intros x; cbn [iter_pos].
  - rewrite !IH, Pos2Nat.inj_xI.
    replace (S (2 * Pos.to_nat p)) with (Pos.to_nat p + (Pos.to_nat p + 1))%nat by lia.
    rewrite !Hadd. simpl. reflexivity.
  - rewrite !IH, Pos2Nat.inj_xO.
    replace (2 * Pos.to_nat p)%nat with (Pos.to_nat p + Pos.to_nat p)%nat by lia.
    now rewrite Hadd.
  - reflexivity.
Qed.

Lemma shr_1_spec m r s :
  0 <= m ->
  shr_1 (Build_shr_record m r s) = Build_shr_record (m / 2) (Z.odd m) (r || s).
Proof.
  intros Hm. destruct m as [| p | p]; [reflexivity | | lia].
  destruct p as [p | p |]; cbn [shr_1].
  - f_equal. rewrite Pos2Z.inj_xI.
    rewrite Z.add_comm, Z.mul_comm, Z.div_add by lia. reflexivity.
  - f_equal. rewrite Pos2Z.inj_xO, Z.mul_comm, Z.div_mul by lia. reflexivity.
  - reflexivity.
Qed.


Lemma low_bits_zero m n :
  0 <= n ->
  negb (m mod 2 ^ (n + 1) =? 0)
  = Z.testbit m n || negb (m mod 2 ^ n =? 0).
Proof.
  intros Hn.
  assert (Hp : 0 < 2 ^ n) by (apply Z.pow_pos_nonneg; lia).
  rewrite Z.pow_add_r, Z.pow_1_r by lia.
  rewrite Z.rem_mul_r by lia.
  pose proof (Z.mod_pos_bound m (2 ^ n) Hp) as Hr.
  pose proof (Z.mod_pos_bound (m / 2 ^ n) 2 ltac:(lia)) as Hb.
  destruct (Z.testbit m n) eqn:Ht.
  - apply Z.testbit_true in Ht; [| lia]. rewrite Ht. simpl.
    apply negb_true_iff, Z.eqb_neq. nia.
  - apply Z.testbit_false in Ht; [| lia]. rewrite Ht. simpl.
    now rewrite Z.mul_0_r, Z.add_0_r.
Qed.

Lemma iter_shr_1 m r s :
  0 <= m ->
  forall n, Nat.iter (S n) shr_1 (Build_shr_record m r s)
            = shifted (Z.of_nat (S n)) m r s.
Proof.
  intros Hm. induction n as [| n IH].
  - cbn [Nat.iter nat_rect]. rewrite shr_1_spec by assumption. unfold shifted.
    change (Z.of_nat 1) with 1. change (1 - 1) with 0.
    change (2 ^ 0) with 1. change (2 ^ 1) with 2.
    rewrite Z.bit0_odd, Z.mod_1_r. simpl. now rewrite orb_false_r.
  - change (Nat.iter (S (S n)) shr_1 (Build_shr_record m r s))
      with (shr_1 (Nat.iter (S n) shr_1 (Build_shr_record m r s))).
    rewrite IH. unfold shifted.
    assert (Hq : 0 <= m / 2 ^ Z.of_nat (S n))
      by (apply Z.div_pos; [lia | apply Z.pow_pos_nonneg; lia]).
    rewrite shr_1_spec by assumption.
    replace (Z.of_nat (S (S n))) with (Z.of_nat (S n) + 1) by lia.
    f_equal.
    + rewrite Z.pow_add_r, Z.pow_1_r by lia.
      rewrite Z.div_div; [reflexivity | | lia].
      apply Z.pow_nonzero; lia.
    + rewrite <- Z.bit0_odd, Z.div_pow2_bits by lia. f_equal. lia.
    + replace (Z.of_nat (S n) + 1 - 1) with ((Z.of_nat (S n) - 1) + 1) by lia.
      rewrite low_bits_zero by lia.
      destruct r, s, (Z.testbit m (Z.of_nat (S n) - 1)),
        (negb (m mod 2 ^ (Z.of_nat (S n) - 1) =? 0)); reflexivity.
Qed.

Lemma shr_pos m r s e k :
  0 <= m -> 0 < k ->
  shr (Build_shr_record m r s) e k = (shifted k m r s, e + k).
Proof.
  intros Hm Hk. destruct k as [| p | p]; try lia. cbn [shr].
  rewrite iter_pos_nat.
  destruct (Pos.to_nat p) as [| n] eqn:Hn; [lia |].
  rewrite iter_shr_1 by assumption. do 2 f_equal. lia.
Qed.

Lemma shr_nonpos mrs e k : k <= 0 -> shr mrs e k = (mrs, e).
Proof. intros Hk. destruct k; try lia; reflexivity. Qed.

(** rounding on scaled integers *)



Lemma rne_bounds X k : X / 2 ^ k <= rne X k <= X / 2 ^ k + 1.
Proof. unfold rne. destruct (_ || _); lia. Qed.

Lemma rne_exact q k : 0 <= k -> rne (q * 2 ^ k) k = q.
Proof.
  intros Hk. assert (Hp : 0 < 2 ^ k) by (apply Z.pow_pos_nonneg; lia).
  unfold rne. rewrite Z.mod_mul, Z.div_mul by lia.
  replace (2 ^ k <? 2 * 0) with false by (symmetry; apply Z.ltb_ge; lia).
  replace (2 ^ k =? 2 * 0) with false by (symmetry; apply Z.eqb_neq; lia).
  reflexivity.
Qed.

Lemma rne_mono X1 X2 k : 0 <= k -> X1 <= X2 -> rne X1 k <= rne X2 k.
Proof.
  intros Hk HX. assert (Hp : 0 < 2 ^ k) by (apply Z.pow_pos_nonneg; lia).
  assert (Hq : X1 / 2 ^ k <= X2 / 2 ^ k) by (apply Z.div_le_mono; lia).
  destruct (Z.eq_dec (X1 / 2 ^ k) (X2 / 2 ^ k)) as [Heq | Hne].
  - assert (Hr : X1 mod 2 ^ k <= X2 mod 2 ^ k).
    { pose proof (Z.div_mod X1 (2 ^ k) ltac:(lia)).
      pose proof (Z.div_mod X2 (2 ^ k) ltac:(lia)). nia. }
    unfold rne. rewrite Heq.
    destruct (Z.ltb_spec (2 ^ k) (2 * (X1 mod 2 ^ k)));
    destruct (Z.ltb_spec (2 ^ k) (2 * (X2 mod 2 ^ k)));
    destruct (Z.eqb_spec (2 ^ k) (2 * (X1 mod 2 ^ k)));
    destruct (Z.eqb_spec (2 ^ k) (2 * (X2 mod 2 ^ k)));
    destruct (Z.odd (X2 / 2 ^ k)); simpl; lia.
  - pose proof (rne_bounds X1 k). pose proof (rne_bounds X2 k). lia.
Qed.

Lemma rne_scale m j k :
  0 <= j -> 0 <= k -> rne (m * 2 ^ j) (k + j) = rne m k.
Proof.
  intros Hj Hk.
  assert (Hpj : 0 < 2 ^ j) by (apply Z.pow_pos_nonneg; lia).
  assert (Hpk : 0 < 2 ^ k) by (apply Z.pow_pos_nonneg; lia).
  unfold rne. rewrite Z.pow_add_r by lia.
  rewrite (Z.mul_comm (2 ^ k) (2 ^ j)).
  rewrite (Z.mul_comm m (2 ^ j)).
  rewrite Z.div_mul_cancel_l by lia.
  rewrite Z.mul_mod_distr_l by lia.
  replace (2 ^ j * 2 ^ k <? 2 * (2 ^ j * (m mod 2 ^ k)))
    with (2 ^ k <? 2 * (m mod 2 ^ k)).
  2:{ destruct (Z.ltb_spec (2 ^ k) (2 * (m mod 2 ^ k)));
      destruct (Z.ltb_spec (2 ^ j * 2 ^ k) (2 * (2 ^ j * (m mod 2 ^ k)))); nia. }
  replace (2 ^ j * 2 ^ k =? 2 * (2 ^ j * (m mod 2 ^ k)))
    with (2 ^ k =? 2 * (m mod 2 ^ k)).
  2:{ destruct (Z.eqb_spec (2 ^ k) (2 * (m mod 2 ^ k)));
      destruct (Z.eqb_spec (2 ^ j * 2 ^ k) (2 * (2 ^ j * (m mod 2 ^ k)))); nia. }
  reflexivity.
Qed.

Lemma cexp_mono kmin X1 X2 : 0 < X1 -> X1 <= X2 -> cexp kmin X1 <= cexp kmin X2.
Proof.
  intros H1 H12. unfold cexp. pose proof (Zdigits2_le X1 X2 H1 H12). lia.
Qed.

Lemma round_0 kmin : 0 <= kmin -> round kmin 0 = 0.
Proof.
  intros Hk. unfold round, cexp. simpl Zdigits2.
  replace (0 * 1) with 0 by lia. unfold rne.
  rewrite Z.div_0_l, Z.mod_0_l by (apply Z.pow_nonzero; unfold prec; lia).
  assert (0 < 2 ^ Z.max (0 - prec) kmin) by (apply Z.pow_pos_nonneg; lia).
  replace (_ <? 2 * 0) with false by (symmetry; apply Z.ltb_ge; lia).
  replace (_ =? 2 * 0) with false by (symmetry; apply Z.eqb_neq; lia).
  simpl. lia.
Qed.

Lemma round_nonneg kmin X : 0 <= kmin -> 0 <= X -> 0 <= round kmin X.
Proof.
  intros Hk HX. unfold round.
  assert (0 <= cexp kmin X) by (unfold cexp; lia).
  assert (0 < 2 ^ cexp kmin X) by (apply Z.pow_pos_nonneg; lia).
  pose proof (rne_bounds X (cexp kmin X)).
  assert (0 <= X / 2 ^ cexp kmin X) by (apply Z.div_pos; lia). nia.
Qed.

Lemma round_exact kmin X q :
  0 <= kmin -> X = q * 2 ^ cexp kmin X -> round kmin X = X.
Proof.
  intros Hk HX. unfold round.
  assert (0 <= cexp kmin X) by (unfold cexp; lia).
  rewrite HX at 2. rewrite rne_exact by lia. lia.
Qed.

Lemma round_mono kmin X1 X2 :
  0 <= kmin -> 0 <= X1 -> X1 <= X2 -> round kmin X1 <= round kmin X2.
Proof.
  intros Hk H1 H12.
  destruct (Z.eq_dec X1 0) as [-> | Hne].
  { rewrite round_0 by lia. apply round_nonneg; lia. }
  assert (Hpos : 0 < X1) by lia.
  pose proof (cexp_mono kmin X1 X2 Hpos H12) as Hc.
  assert (Hk1 : 0 <= cexp kmin X1) by (unfold cexp; lia).
  unfold round.
  destruct (Z.eq_dec (cexp kmin X1) (cexp kmin X2)) as [Heq | Hlt].
  - rewrite <- Heq.
    assert (0 < 2 ^ cexp kmin X1) by (apply Z.pow_pos_nonneg; lia).
    pose proof (rne_mono X1 X2 (cexp kmin X1) Hk1 H12). nia.
  - (* a different binade: a power of two lies between *)
    set (k1 := cexp kmin X1) in *. set (k2 := cexp kmin X2) in *.
    assert (Hd2 : Zdigits2 X2 = k2 + prec) by (unfold k2, cexp in *; lia).
    assert (Hd1 : Zdigits2 X1 <= k1 + prec) by (unfold k1, cexp; lia).
    pose proof (Zdigits2_bounds X1 Hpos) as [_ Hu1].
    pose proof (Zdigits2_bounds X2 ltac:(lia)) as [Hl2 _].
    assert (Hp1 : 0 < 2 ^ k1) by (apply Z.pow_pos_nonneg; lia).
    assert (Hp2 : 0 < 2 ^ k2) by (apply Z.pow_pos_nonneg; lia).
    assert (Hup : 2 ^ k1 * rne X1 k1 <= 2 ^ (k1 + prec)).
    { pose proof (rne_bounds X1 k1) as [_ Hr].
      assert (X1 < 2 ^ (k1 + prec)).
      { eapply Z.lt_le_trans; [exact Hu1 |]. apply Z.pow_le_mono_r; lia. }
      assert (X1 / 2 ^ k1 < 2 ^ prec).
      { apply Z.div_lt_upper_bound; [lia |].
        rewrite <- Z.pow_add_r by (unfold prec; lia). assumption. }
      rewrite Z.pow_add_r by (unfold prec; lia). nia. }
    assert (Hlo : 2 ^ (k2 + prec - 1) <= 2 ^ k2 * rne X2 k2).
    { pose proof (rne_bounds X2 k2) as [Hr _].
      rewrite Hd2 in Hl2.
      assert (2 ^ (prec - 1) <= X2 / 2 ^ k2).
      { apply Z.div_le_lower_bound; [lia |].
        rewrite <- Z.pow_add_r by (unfold prec; lia).
        replace (k2 + (prec - 1)) with (k2 + prec - 1) by lia. assumption. }
      replace (k2 + prec - 1) with (k2 + (prec - 1)) by lia.
      rewrite Z.pow_add_r by (unfold prec; lia). nia. }
    assert (2 ^ (k1 + prec) <= 2 ^ (k2 + prec - 1))
      by (apply Z.pow_le_mono_r; lia).
    lia.
Qed.

Lemma round_pow2 kmin j : 0 <= kmin -> kmin <= j -> round kmin (2 ^ j) = 2 ^ j.
Proof.
  intros Hk Hj.
  assert (Hd : Zdigits2 (2 ^ j) = j + 1).
  { apply Zdigits2_unique.
    - apply Z.pow_pos_nonneg; lia.
    - replace (j + 1 - 1) with j by lia. split; [lia |].
      apply Z.pow_lt_mono_r; lia. }
  apply round_exact with (q := 2 ^ (j - cexp kmin (2 ^ j))); [assumption |].
  unfold cexp. rewrite Hd. unfold prec.
  rewrite <- Z.pow_add_r by lia. f_equal. lia.
Qed.

Lemma round_le_pow2 kmin X j :
  0 <= kmin -> kmin <= j -> 0 <= X <= 2 ^ j -> round kmin X <= 2 ^ j.
Proof.
  intros Hk Hj HX. rewrite <- (round_pow2 kmin j) by assumption.
  apply round_mono; lia.
Qed.

(** what binary_round_aux computes on an exact input *)
Lemma rne_0 m : rne m 0 = m.
Proof.
  replace m with (m * 2 ^ 0) at 1 by (simpl; lia). apply rne_exact. lia.
Qed.

Lemma rne_shifted m k :
  0 <= m -> 0 < k ->
  round_nearest_even (shr_m (shifted k m false false))
                     (loc_of_shr_record (shifted k m false false))
  = rne m k.
Proof.
  intros Hm Hk. unfold shifted, rne. cbn [shr_m loc_of_shr_record orb].
  assert (Hp : 0 < 2 ^ (k - 1)) by (apply Z.pow_pos_nonneg; lia).
  assert (Hk2 : 2 ^ k = 2 ^ (k - 1) * 2).
  { replace k with ((k - 1) + 1) at 1 by lia.
    rewrite Z.pow_add_r, Z.pow_1_r by lia. reflexivity. }
  assert (Hrem : m mod 2 ^ k
                 = m mod 2 ^ (k - 1) + 2 ^ (k - 1) * ((m / 2 ^ (k - 1)) mod 2)).
  { rewrite Hk2. apply Z.rem_mul_r; lia. }
  pose proof (Z.mod_pos_bound m (2 ^ (k - 1)) Hp) as Hlow.
  rewrite Hrem.
  destruct (Z.testbit m (k - 1)) eqn:Ht.
  - apply Z.testbit_true in Ht; [| lia]. rewrite Ht.
    destruct (Z.eqb_spec (m mod 2 ^ (k - 1)) 0) as [H0 | H0]; cbn [negb].
    + rewrite H0, Hk2.
      replace (2 ^ (k - 1) * 2 <? 2 * (0 + 2 ^ (k - 1) * 1)) with false
        by (symmetry; apply Z.ltb_ge; lia).
      replace (2 ^ (k - 1) * 2 =? 2 * (0 + 2 ^ (k - 1) * 1)) with true
        by (symmetry; apply Z.eqb_eq; lia).
      cbn [round_nearest_even orb andb].
      rewrite <- Z.negb_odd.
      rewrite <- Hk2. destruct (Z.odd (m / 2 ^ k)); reflexivity.
    + rewrite Hk2.
      replace (2 ^ (k - 1) * 2 <? 2 * (m mod 2 ^ (k - 1) + 2 ^ (k - 1) * 1))
        with true by (symmetry; apply Z.ltb_lt; lia).
      rewrite <- Hk2. reflexivity.
  - apply Z.testbit_false in Ht; [| lia]. rewrite Ht. rewrite Hk2.
    replace (2 ^ (k - 1) * 2 <? 2 * (m mod 2 ^ (k - 1) + 2 ^ (k - 1) * 0))
      with false by (symmetry; apply Z.ltb_ge; lia).
    replace (2 ^ (k - 1) * 2 =? 2 * (m mod 2 ^ (k - 1) + 2 ^ (k - 1) * 0))
      with false by (symmetry; apply Z.eqb_neq; lia).
    rewrite <- Hk2.
    destruct (negb (m mod 2 ^ (k - 1) =? 0)); reflexivity.
Qed.


Lemma fexp_eq e : fexp prec emax e = fexp64 e.
Proof. reflexivity. Qed.

Lemma shr_fexp_exact m e :
  0 <= m ->
  let k := Z.max 0 (fexp64 (Zdigits2 m + e) - e) in
  exists mrs,
    shr_fexp prec emax m e loc_Exact = (mrs, e + k) /\
    shr_m mrs = m / 2 ^ k /\
    round_nearest_even (shr_m mrs) (loc_of_shr_record mrs) = rne m k.
Proof.
  intros Hm k. unfold shr_fexp. rewrite fexp_eq. cbn [shr_record_of_loc].
  destruct (Z.le_gt_cases (fexp64 (Zdigits2 m + e) - e) 0) as [Hle | Hgt].
  - rewrite shr_nonpos by assumption.
    replace k with 0 by (unfold k; lia).
    eexists. split; [now rewrite Z.add_0_r |].
    cbn [shr_m loc_of_shr_record round_nearest_even].
    rewrite rne_0. split; [| reflexivity]. simpl. now rewrite Z.div_1_r.
  - rewrite shr_pos by lia.
    replace k with (fexp64 (Zdigits2 m + e) - e) by (unfold k; lia).
    eexists. split; [reflexivity |]. split; [reflexivity |].
    apply rne_shifted; lia.
Qed.

Lemma binary_round_aux_exact s m e :
  0 < m ->
  let k := Z.max 0 (fexp64 (Zdigits2 m + e) - e) in
  let m1 := rne m k in
  let e1 := e + k in
  let k2 := Z.max 0 (fexp64 (Zdigits2 m1 + e1) - e1) in
  binary_round_aux prec emax s m e loc_Exact
  = match m1 / 2 ^ k2 with
    | Z0 => S754_zero s
    | Zpos p => if e1 + k2 <=? 971 then S754_finite s p (e1 + k2)
                else S754_infinity s
    | Zneg _ => S754_nan
    end.
Proof.
  intros Hm k m1 e1 k2. unfold binary_round_aux.
  destruct (shr_fexp_exact m e ltac:(lia)) as (mrs & -> & _ & Hr).
  fold k in Hr |- *. rewrite Hr. fold m1. fold e1.
  assert (Hm1 : 0 <= m1).
  { pose proof (rne_bounds m k).
    assert (0 <= m / 2 ^ k) by (apply Z.div_pos; [lia | apply Z.pow_pos_nonneg; unfold k; lia]).
    unfold m1. lia. }
  destruct (shr_fexp_exact m1 e1 Hm1) as (mrs2 & -> & Hm2 & _).
  fold k2 in Hm2 |- *. rewrite Hm2. reflexivity.
Qed.

(** the value of the rounded result, scaled by [2 ^ (- E0)] *)
Lemma pow2_lt_inv a b : 0 <= b -> 2 ^ a < 2 ^ b -> a < b.
Proof. intros Hb H. apply (Z.pow_lt_mono_r_iff 2); lia. Qed.

Lemma Zdigits2_le_of_lt x d : 0 < x -> 0 <= d -> x < 2 ^ d -> Zdigits2 x <= d.
Proof.
  intros Hx Hd H. pose proof (Zdigits2_bounds x Hx) as [Hl _].
  pose proof (Zdigits2_pos x Hx).
  assert (2 ^ (Zdigits2 x - 1) < 2 ^ d) by lia.
  apply pow2_lt_inv in H1; lia.
Qed.

Lemma scaled_round m e E0 :
  0 < m -> E0 <= e -> E0 <= -1074 ->
  let k := Z.max 0 (fexp64 (Zdigits2 m + e) - e) in
  rne m k * 2 ^ (e + k - E0) = round (-1074 - E0) (m * 2 ^ (e - E0)).
Proof.
  intros Hm He HE k.
  assert (Hc : cexp (-1074 - E0) (m * 2 ^ (e - E0))
               = fexp64 (Zdigits2 m + e) - E0).
  { unfold cexp, fexp64, prec. rewrite Zdigits2_shift by lia. lia. }
  unfold round. rewrite Hc.
  set (c := fexp64 (Zdigits2 m + e)) in *.
  assert (Hcmin : -1074 <= c) by (unfold c, fexp64; lia).
  destruct (Z.le_gt_cases c e) as [Hle | Hgt].
  - replace k with 0 by (unfold k; lia). rewrite rne_0, Z.add_0_r.
    replace (m * 2 ^ (e - E0)) with ((m * 2 ^ (e - c)) * 2 ^ (c - E0)).
    2:{ rewrite <- Z.mul_assoc, <- Z.pow_add_r by lia. do 2 f_equal. lia. }
    rewrite rne_exact by lia. lia.
  - replace k with (c - e) by (unfold k; lia).
    rewrite <- (rne_scale m (e - E0) (c - e)) by lia.
    replace (c - e + (e - E0)) with (c - E0) by lia.
    replace (e + (c - e) - E0) with (c - E0) by lia. lia.
Qed.

Lemma binary_round_aux_value s m e E0 :
  0 < m -> E0 <= e -> E0 <= -1074 -> e <= 971 ->
  round (-1074 - E0) (m * 2 ^ (e - E0)) < 2 ^ (1024 - E0) ->
  (binary_round_aux prec emax s m e loc_Exact = S754_zero s /\
   round (-1074 - E0) (m * 2 ^ (e - E0)) = 0) \/
  (exists p e',
     binary_round_aux prec emax s m e loc_Exact = S754_finite s p e' /\
     -1074 <= e' <= 971 /\
     Zpos p * 2 ^ (e' - E0) = round (-1074 - E0) (m * 2 ^ (e - E0))).
Proof.
  intros Hm He HE He971 Hfin.
  rewrite binary_round_aux_exact by assumption.
  rewrite <- (scaled_round m e E0) in * by assumption.
  set (c := fexp64 (Zdigits2 m + e)) in *.
  set (k := Z.max 0 (c - e)) in *.
  set (m1 := rne m k) in *.
  assert (Hcmin : -1074 <= c) by (unfold c, fexp64; lia).
  assert (Hk : 0 <= k) by (unfold k; lia).
  assert (Hpk : 0 < 2 ^ k) by (apply Z.pow_pos_nonneg; lia).
  pose proof (Zdigits2_bounds m Hm) as [Hml Hmu].
  pose proof (Zdigits2_pos m Hm) as Hd.
  pose proof (rne_bounds m k) as [Hr1 Hr2]. fold m1 in Hr1, Hr2.
  assert (Hq0 : 0 <= m / 2 ^ k) by (apply Z.div_pos; lia).
  assert (He1 : -1074 <= e + k) by (unfold k; lia).
  destruct (Z.eq_dec m1 0) as [H0 | Hne].
  { (* rounds to zero *)
    left. rewrite H0. simpl Zdigits2.
    replace (Z.max 0 (fexp64 (0 + (e + k)) - (e + k))) with 0
      by (unfold fexp64; lia).
    simpl. split; [reflexivity | lia]. }
  right. assert (Hm1 : 0 < m1) by lia.
  destruct (Z.le_gt_cases c e) as [Hle | Hgt].
  - (* no shift: the input is on the grid *)
    assert (Hk0 : k = 0) by (unfold k; lia).
    assert (Hm1m : m1 = m) by (unfold m1; rewrite Hk0; apply rne_0).
    rewrite Hm1m, Hk0, Z.add_0_r.
    fold c. replace (Z.max 0 (c - e)) with 0 by lia.
    rewrite Z.pow_0_r, Z.div_1_r, Z.add_0_r.
    destruct m as [| p | p]; try lia.
    replace (e <=? 971) with true by (symmetry; apply Z.leb_le; lia).
    exists p, e. repeat split; try lia.
  - assert (Hke : e + k = c) by (unfold k; lia).
    rewrite Hke in *.
    assert (Hmk : m < 2 ^ (k + 53)).
    { eapply Z.lt_le_trans; [exact Hmu |].
      apply Z.pow_le_mono_r; [lia |]. unfold c, fexp64 in *. lia. }
    assert (Hq : m / 2 ^ k < 2 ^ 53).
    { apply Z.div_lt_upper_bound; [lia |].
      rewrite <- Z.pow_add_r by lia. assumption. }
    assert (Hpc : 0 < 2 ^ (c - E0)) by (apply Z.pow_pos_nonneg; lia).
    destruct (Z.eq_dec m1 (2 ^ 53)) as [H53 | Hlt53].
    + (* the mantissa overflows into the next binade *)
      assert (Hdig : Zdigits2 m1 = 54).
      { rewrite H53. apply Zdigits2_unique; [reflexivity |].
        split; [reflexivity |]. reflexivity. }
      rewrite Hdig.
      replace (Z.max 0 (fexp64 (54 + c) - c)) with 1 by (unfold fexp64; lia).
      rewrite H53. change (2 ^ 53 / 2 ^ 1) with (Zpos (4503599627370496)).
      assert (Hc970 : c <= 970).
      { rewrite H53 in Hfin. rewrite <- Z.pow_add_r in Hfin by lia.
        apply pow2_lt_inv in Hfin; lia. }
      replace (c + 1 <=? 971) with true by (symmetry; apply Z.leb_le; lia).
      exists 4503599627370496%positive, (c + 1). repeat split; try lia.
      replace (c + 1 - E0) with (1 + (c - E0)) by lia.
      rewrite Z.pow_add_r by lia. change (2 ^ 53) with (4503599627370496 * 2 ^ 1).
      lia.
    + assert (Hm1lt : m1 < 2 ^ 53) by lia.
      assert (Hdig : Zdigits2 m1 <= 53) by (apply Zdigits2_le_of_lt; lia).
      replace (Z.max 0 (fexp64 (Zdigits2 m1 + c) - c)) with 0
        by (unfold fexp64; lia).
      rewrite Z.pow_0_r, Z.div_1_r, Z.add_0_r.
      assert (Hc971 : c <= 971).
      { destruct (Z.eq_dec c (-1074)) as [-> | Hcne]; [lia |].
        assert (Hcd : c = Zdigits2 m + e - 53) by (unfold c, fexp64 in *; lia).
        assert (Hk53 : k = Zdigits2 m - 53) by lia.
        assert (Hq52 : 2 ^ 52 <= m / 2 ^ k).
        { apply Z.div_le_lower_bound; [lia |].
          rewrite <- Z.pow_add_r by lia.
          replace (k + 52) with (Zdigits2 m - 1) by lia. assumption. }
        assert (2 ^ (52 + (c - E0)) < 2 ^ (1024 - E0)).
        { rewrite Z.pow_add_r by lia.
          eapply Z.le_lt_trans; [| exact Hfin]. nia. }
        apply pow2_lt_inv in H; lia. }
      destruct m1 as [| p | p]; try lia.
      replace (c <=? 971) with true by (symmetry; apply Z.leb_le; lia).
      exists p, c. repeat split; lia.
Qed.

(** ** scaled values of floats *)



Lemma sv_nonneg f : 0 <= sv f.
Proof.
  destruct f as [| | | [|] m e]; cbn [sv]; lia.
Qed.

Lemma int_of_float_value f :
  nonneg_finite f -> int_of_float f = inr (sv f / 2 ^ 1074).
Proof.
  destruct f as [s | s | | [|] m e]; cbn [nonneg_finite int_of_float sv];
    try contradiction; intros H.
  - reflexivity.
  - f_equal. destruct e as [| p | p].
    + simpl Z.add. rewrite Z.div_mul; [reflexivity | lia].
    + rewrite Z.shiftl_mul_pow2 by lia.
      rewrite Z.pow_add_r, Z.mul_assoc by lia.
      rewrite Z.div_mul; [reflexivity | lia].
    + rewrite Z.shiftr_div_pow2 by lia.
      replace (2 ^ 1074) with (2 ^ Z.pos p * 2 ^ (Z.neg p + 1074)).
      2:{ rewrite <- Z.pow_add_r by lia. f_equal. lia. }
      rewrite Z.div_mul_cancel_r; [reflexivity | lia |].
      apply Z.pow_nonzero; lia.
Qed.

Lemma fmul_value a b :
  nonneg_finite a -> nonneg_finite b -> small_exponent b ->
  round 1074 (sv a * sv b) < 2 ^ (1024 + 2148) ->
  nonneg_finite (fmul a b) /\
  sv (fmul a b) * 2 ^ 1074 = round 1074 (sv a * sv b).
Proof.
  intros Ha Hb Hsm Hfin.
  destruct a as [sa | sa | | [|] ma ea]; try contradiction;
  destruct b as [sb | sb | | [|] mb eb]; try contradiction;
    cbn [fmul SFmul sv nonneg_finite];
    try (rewrite ?Z.mul_0_l, ?Z.mul_0_r, round_0 by lia; split; [exact I | reflexivity]).
  cbn [nonneg_finite small_exponent] in Ha, Hb, Hsm.
  unfold fmul. cbn [SFmul xorb]. change (SFmul prec emax) with fmul.
  assert (HX : Zpos ma * 2 ^ (ea + 1074) * (Zpos mb * 2 ^ (eb + 1074))
               = Zpos (ma * mb) * 2 ^ (ea + eb - -2148)).
  { rewrite Pos2Z.inj_mul.
    replace (ea + eb - -2148) with ((ea + 1074) + (eb + 1074)) by lia.
    rewrite (Z.pow_add_r 2 (ea + 1074) (eb + 1074)) by lia. ring. }
  cbn [sv] in Hfin. rewrite HX in Hfin |- *.
  pose proof (binary_round_aux_value false (Zpos (ma * mb)) (ea + eb) (-2148))
    as HB.
  change (-1074 - -2148) with 1074 in HB.
  change (1024 - -2148) with (1024 + 2148) in HB.
  destruct HB as [[Hz H0] | (p & e' & Hf & He' & Hv)]; try lia.
  - rewrite Hz. cbn [sv nonneg_finite]. split; [exact I |]. now rewrite H0.
  - rewrite Hf. cbn [sv nonneg_finite]. split; [lia |].
    rewrite <- Hv.
    replace (e' - -2148) with ((e' + 1074) + 1074) by lia.
    rewrite (Z.pow_add_r 2 (e' + 1074) 1074) by lia. ring.
Qed.

Lemma iter_xO m d : Zpos (Pos.iter xO m d) = Zpos m * 2 ^ Zpos d.
Proof.
  pose proof (Zpower.shift_pos_correct d m) as H.
  unfold Zpower.shift_pos in H. rewrite H. rewrite Z.mul_comm. reflexivity.
Qed.

Lemma float_of_int_value r :
  0 <= r ->
  round 0 (r * 2 ^ 1074) < 2 ^ (1024 + 1074) ->
  exists f, float_of_int r = inr f /\ nonneg_finite f /\
            sv f = round 0 (r * 2 ^ 1074).
Proof.
  intros Hr Hfin. destruct r as [| p | p]; [| | lia].
  { exists (S754_zero false). repeat split. }
  unfold float_of_int, binary_normalize, binary_round, shl_align.
  rewrite fexp_eq.
  set (ex' := fexp64 (Zpos (digits2_pos p) + 0)).
  assert (Hex : -52 <= ex').
  { unfold ex', fexp64. pose proof (Pos2Z.is_pos (digits2_pos p)). lia. }
  assert (Hgen : forall mz ez,
            Zpos mz * 2 ^ (ez - -1074) = Zpos p * 2 ^ 1074 ->
            -1074 <= ez <= 0 ->
            exists f,
              match binary_round_aux prec emax false (Zpos mz) ez loc_Exact with
              | S754_infinity _ =>
                  inl (Exc "OverflowError" "int too large to convert to float")
              | f => inr f
              end = inr f /\ nonneg_finite f /\
              sv f = round 0 (Zpos p * 2 ^ 1074)).
  { intros mz ez HX Hez.
    pose proof (binary_round_aux_value false (Zpos mz) ez (-1074)) as HB.
    change (-1074 - -1074) with 0 in HB.
    change (1024 - -1074) with (1024 + 1074) in HB.
    rewrite HX in HB.
    destruct HB as [[Hz H0] | (q & e' & Hf & He' & Hv)]; try lia.
    - rewrite Hz. exists (S754_zero false). split; [reflexivity |].
      split; [exact I |]. cbn [sv]. now rewrite H0.
    - rewrite Hf. exists (S754_finite false q e'). split; [reflexivity |].
      split; [exact He' |]. cbn [sv]. rewrite <- Hv. reflexivity. }
  destruct (ex' - 0) as [| d | d] eqn:Hd.
  - apply Hgen; [| lia]. reflexivity.
  - apply Hgen; [| lia]. reflexivity.
  - apply Hgen; [| lia]. rewrite iter_xO.
    replace (ex' - -1074) with (1074 - Zpos d) by lia.
    rewrite <- Z.mul_assoc, <- Z.pow_add_r by lia. do 2 f_equal. lia.
Qed.

(** an inexact input: the result is within one unit of the truncation *)
Lemma shr_fexp_any m e l :
  0 <= m ->
  let k := Z.max 0 (fexp64 (Zdigits2 m + e) - e) in
  exists mrs,
    shr_fexp prec emax m e l = (mrs, e + k) /\ shr_m mrs = m / 2 ^ k.
Proof.
  intros Hm k. unfold shr_fexp. rewrite fexp_eq.
  assert (Hrec : exists r s, shr_record_of_loc m l = Build_shr_record m r s).
  { destruct l as [| [| |]]; simpl; eauto. }
  destruct Hrec as (r & s & ->).
  destruct (Z.le_gt_cases (fexp64 (Zdigits2 m + e) - e) 0) as [Hle | Hgt].
  - rewrite shr_nonpos by assumption.
    replace k with 0 by (unfold k; lia).
    eexists. split; [now rewrite Z.add_0_r |]. simpl. now rewrite Z.div_1_r.
  - rewrite shr_pos by lia.
    replace k with (fexp64 (Zdigits2 m + e) - e) by (unfold k; lia).
    eexists. split; reflexivity.
Qed.

Lemma round_nearest_even_bounds mx l :
  mx <= round_nearest_even mx l <= mx + 1.
Proof.
  destruct l as [| [| |]]; simpl; try lia. destruct (Z.even mx); lia.
Qed.

Lemma binary_round_aux_upper m e l :
  0 <= m -> -1074 <= e ->
  let e1 := Z.max e (fexp64 (Zdigits2 m + e)) in
  e1 <= 970 ->
  binary_round_aux prec emax false m e l = S754_zero false \/
  exists p e'',
    binary_round_aux prec emax false m e l = S754_finite false p e'' /\
    e1 <= e'' <= e1 + 1 /\
    Zpos p * 2 ^ (e'' + 1074) <= m * 2 ^ (e + 1074) + 2 ^ (e1 + 1074).
Proof.
  intros Hm He e1 He1. unfold binary_round_aux.
  destruct (shr_fexp_any m e l Hm) as (mrs & -> & Hq).
  set (k := Z.max 0 (fexp64 (Zdigits2 m + e) - e)) in *.
  assert (Hek : e + k = e1) by (unfold k, e1; lia).
  assert (Hk : 0 <= k) by (unfold k; lia).
  assert (Hpk : 0 < 2 ^ k) by (apply Z.pow_pos_nonneg; lia).
  pose proof (round_nearest_even_bounds (shr_m mrs) (loc_of_shr_record mrs))
    as [Hm1l Hm1u].
  set (m1 := round_nearest_even (shr_m mrs) (loc_of_shr_record mrs)) in *.
  rewrite Hq in Hm1l, Hm1u.
  assert (Hq0 : 0 <= m / 2 ^ k) by (apply Z.div_pos; lia).
  assert (Hq53 : m / 2 ^ k < 2 ^ 53).
  { destruct (Z.eq_dec m 0) as [-> | Hne].
    - rewrite Z.div_0_l by lia. reflexivity.
    - pose proof (Zdigits2_bounds m ltac:(lia)) as [_ Hu].
      apply Z.div_lt_upper_bound; [lia |].
      rewrite <- Z.pow_add_r by lia.
      eapply Z.lt_le_trans; [exact Hu |].
      apply Z.pow_le_mono_r; [lia |]. unfold k, fexp64. lia. }
  destruct (shr_fexp_exact m1 (e + k) ltac:(lia)) as (mrs2 & -> & Hm2 & _).
  rewrite Hek in *.
  set (k2 := Z.max 0 (fexp64 (Zdigits2 m1 + e1) - e1)) in *.
  assert (He1min : -1074 <= e1) by (unfold e1; lia).
  assert (Hk2 : 0 <= k2 <= 1).
  { split; [unfold k2; lia |].
    destruct (Z.eq_dec m1 0) as [H0 | Hne].
    - unfold k2. rewrite H0. simpl Zdigits2. unfold fexp64. lia.
    - assert (Hd : Zdigits2 m1 <= 54).
      { apply Zdigits2_le_of_lt; [lia | lia |].
        change (2 ^ 54) with (2 * 2 ^ 53). lia. }
      unfold k2, fexp64. lia. }
  assert (Hp2 : 0 < 2 ^ k2) by (apply Z.pow_pos_nonneg; lia).
  rewrite Hm2.
  assert (Hm2pos : 0 <= m1 / 2 ^ k2) by (apply Z.div_pos; lia).
  destruct (m1 / 2 ^ k2) as [| p | p] eqn:Hdiv; [now left | | lia].
  right.
  replace (e1 + k2 <=? emax - prec) with true
    by (symmetry; apply Z.leb_le; unfold emax, prec; lia).
  exists p, (e1 + k2). split; [reflexivity |]. split; [lia |].
  (* the value *)
  assert (Hv1 : Zpos p * 2 ^ k2 <= m1).
  { rewrite <- Hdiv. pose proof (Z.mul_div_le m1 (2 ^ k2) Hp2). lia. }
  assert (Hv2 : (m / 2 ^ k) * 2 ^ k <= m).
  { pose proof (Z.mul_div_le m (2 ^ k) Hpk). lia. }
  replace (e1 + k2 + 1074) with (k2 + (e1 + 1074)) by lia.
  rewrite Z.pow_add_r by lia.
  assert (Hpe : 0 < 2 ^ (e1 + 1074)) by (apply Z.pow_pos_nonneg; lia).
  assert (Hsplit : 2 ^ (e1 + 1074) = 2 ^ k * 2 ^ (e + 1074)).
  { rewrite <- Z.pow_add_r by lia. f_equal. lia. }
  assert (Hpe0 : 0 < 2 ^ (e + 1074)) by (apply Z.pow_pos_nonneg; lia).
  assert (Zpos p * (2 ^ k2 * 2 ^ (e1 + 1074)) <= m1 * 2 ^ (e1 + 1074)) by nia.
  assert (m1 * 2 ^ (e1 + 1074)
          <= (m / 2 ^ k) * 2 ^ (e1 + 1074) + 2 ^ (e1 + 1074)) by nia.
  assert ((m / 2 ^ k) * 2 ^ (e1 + 1074) <= m * 2 ^ (e + 1074)).
  { rewrite Hsplit. nia. }
  lia.
Qed.


(** the quotient of two ints *)
Lemma div_core_bounds H n :
  0 < H < 2 ^ 31 -> 0 < n ->
  let e' := Z.min (fexp64 (Zdigits2 H - Zdigits2 n)) 0 in
  let q := (H * 2 ^ (- e')) / n in
  let e1 := Z.max e' (fexp64 (Zdigits2 q + e')) in
  -1074 <= e' <= 0 /\ 0 <= q /\ e1 <= -22 /\
  n * (q * 2 ^ (e' + 1074) + 2 ^ (e1 + 1074)) <= H * 2 ^ 1074 + 2 ^ 1053 + n.
Proof.
  intros HH Hn e' q e1.
  pose proof (Zdigits2_bounds H ltac:(lia)) as [Hl1 Hu1].
  pose proof (Zdigits2_bounds n Hn) as [Hl2 Hu2].
  pose proof (Zdigits2_pos H ltac:(lia)) as Hd1.
  pose proof (Zdigits2_pos n Hn) as Hd2.
  assert (Hd31 : Zdigits2 H <= 31) by (apply Zdigits2_le_of_lt; lia).
  set (d1 := Zdigits2 H) in *. set (d2 := Zdigits2 n) in *.
  assert (He' : e' = Z.max (d1 - d2 - 53) (-1074)) by (unfold e', fexp64; lia).
  assert (Hps : 0 < 2 ^ (- e')) by (apply Z.pow_pos_nonneg; lia).
  assert (Hq0 : 0 <= q) by (apply Z.div_pos; nia).
  assert (Hqn : q * n <= H * 2 ^ (- e')).
  { unfold q. rewrite Z.mul_comm. apply Z.mul_div_le. lia. }
  set (B := Z.max (d1 - d2 - 52) (-1074)).
  assert (He1 : e1 <= B).
  { unfold e1. apply Z.max_lub; [unfold B; lia |].
    destruct (Z.eq_dec q 0) as [-> | Hq].
    - simpl Zdigits2. unfold fexp64, B. lia.
    - assert (Hqlt : q < 2 ^ (d1 - e' - d2 + 1)).
      { assert (Hx : q * 2 ^ (d2 - 1) < 2 ^ d1 * 2 ^ (- e')).
        { assert (0 < 2 ^ (d2 - 1)) by (apply Z.pow_pos_nonneg; lia). nia. }
        rewrite <- Z.pow_add_r in Hx by lia.
        destruct (Z.le_gt_cases 0 (d1 - e' - d2 + 1)) as [Hge | Hneg].
        - replace (d1 + - e') with ((d1 - e' - d2 + 1) + (d2 - 1)) in Hx by lia.
          rewrite Z.pow_add_r in Hx by lia.
          assert (0 < 2 ^ (d2 - 1)) by (apply Z.pow_pos_nonneg; lia). nia.
        - exfalso.
          assert (2 ^ (d1 + - e') <= 2 ^ (d2 - 1))
            by (apply Z.pow_le_mono_r; lia).
          assert (0 < 2 ^ (d2 - 1)) by (apply Z.pow_pos_nonneg; lia). nia. }
      assert (Hdq : Zdigits2 q <= d1 - e' - d2 + 1).
      { destruct (Z.le_gt_cases 0 (d1 - e' - d2 + 1)).
        - apply Zdigits2_le_of_lt; lia.
        - rewrite Z.pow_neg_r in Hqlt by lia. lia. }
      unfold fexp64, B. lia. }
  split; [lia |]. split; [assumption |]. split; [unfold B in He1; lia |].
  - assert (Hpe : 0 < 2 ^ (e' + 1074)) by (apply Z.pow_pos_nonneg; lia).
    assert (H1 : n * (q * 2 ^ (e' + 1074)) <= H * 2 ^ 1074).
    { replace (2 ^ 1074) with (2 ^ (- e') * 2 ^ (e' + 1074)).
      2:{ rewrite <- Z.pow_add_r by lia. f_equal. lia. }
      nia. }
    assert (H2 : n * 2 ^ (e1 + 1074) <= 2 ^ 1053 + n).
    { assert (Hmono : 2 ^ (e1 + 1074) <= 2 ^ (B + 1074))
        by (apply Z.pow_le_mono_r; unfold e1, B in *; lia).
      assert (HB : n * 2 ^ (B + 1074) <= 2 ^ 1053 + n).
      { destruct (Z.le_gt_cases (d1 - d2 - 52) (-1074)) as [Hsub | Hnorm].
        - replace B with (-1074) by (unfold B; lia).
          change (-1074 + 1074) with 0. rewrite Z.pow_0_r.
          assert (0 < 2 ^ 1053) by (apply Z.pow_pos_nonneg; lia). lia.
        - replace B with (d1 - d2 - 52) by (unfold B; lia).
          assert (n * 2 ^ (d1 - d2 - 52 + 1074) < 2 ^ d2 * 2 ^ (d1 - d2 - 52 + 1074)).
          { assert (0 < 2 ^ (d1 - d2 - 52 + 1074))
              by (apply Z.pow_pos_nonneg; lia). nia. }
          rewrite <- Z.pow_add_r in H0 by lia.
          assert (2 ^ (d2 + (d1 - d2 - 52 + 1074)) <= 2 ^ 1053)
            by (apply Z.pow_le_mono_r; lia).
          lia. }
      nia. }
    lia.
Qed.

Lemma int_truediv_value H n :
  0 < H < 2 ^ 31 -> 0 < n ->
  exists ph,
    int_truediv H n = inr ph /\ nonneg_finite ph /\ small_exponent ph /\
    n * sv ph <= H * 2 ^ 1074 + 2 ^ 1053 + n.
Proof.
  intros HH Hn.
  destruct (div_core_bounds H n HH Hn) as (He' & Hq0 & He1 & Hbound).
  unfold int_truediv.
  replace (n =? 0) with false by (symmetry; apply Z.eqb_neq; lia).
  destruct H as [| hp | hp]; try lia. destruct n as [| np | np]; try lia.
  cbn [Z.abs Z.to_pos Z.ltb Z.compare xorb SFdiv].
  unfold SFdiv_core_binary. rewrite fexp_eq.
  rewrite !Z.add_0_r, !Z.sub_0_r in *. change (0 - 0) with 0.
  set (e' := Z.min (fexp64 (Zdigits2 (Zpos hp) - Zdigits2 (Zpos np))) 0) in *.
  rewrite Z.sub_0_l.
  assert (Hm' : match - e' with
                | 0 => Zpos hp
                | Zpos _ => Z.shiftl (Zpos hp) (- e')
                | Zneg _ => 0
                end = Zpos hp * 2 ^ (- e')).
  { assert (Hs : 0 <= - e') by lia. revert Hs.
    generalize (- e'). intros s Hs. destruct s as [| s | s]; try lia.
    rewrite Z.shiftl_mul_pow2 by lia. reflexivity. }
  rewrite Hm'.
  set (q := Zpos hp * 2 ^ (- e') / Zpos np) in *.
  assert (Hdiv : Z.div_eucl (Zpos hp * 2 ^ (- e')) (Zpos np)
                 = (q, (Zpos hp * 2 ^ (- e')) mod Zpos np)).
  { unfold q, Z.div, Z.modulo.
    destruct (Z.div_eucl (Zpos hp * 2 ^ (- e')) (Zpos np)). reflexivity. }
  rewrite Hdiv.
  destruct (binary_round_aux_upper q e'
              (new_location (Zpos np) ((Zpos hp * 2 ^ (- e')) mod Zpos np)))
    as [Hz | (p & e'' & Hf & He'' & Hv)]; try lia.
  - rewrite Hz. exists (S754_zero false). cbn [sv nonneg_finite small_exponent].
    repeat split; lia.
  - rewrite Hf. exists (S754_finite false p e'').
    cbn [sv nonneg_finite small_exponent].
    split; [reflexivity |]. split; [lia |]. split; [lia |].
    eapply Z.le_trans; [| exact Hbound].
    apply Z.mul_le_mono_nonneg_l; lia.
Qed.

(* ===================================================================== *)
(** ** The strip boundaries *)
(* ===================================================================== *)

(** relative error of rounding an integer *)
Lemma rne_half X k : 0 <= k -> 2 * (2 ^ k * rne X k) <= 2 * X + 2 ^ k.
Proof.
  intros Hk. assert (Hp : 0 < 2 ^ k) by (apply Z.pow_pos_nonneg; lia).
  pose proof (Z.div_mod X (2 ^ k) ltac:(lia)) as Hdm.
  pose proof (Z.mod_pos_bound X (2 ^ k) Hp) as Hr.
  unfold rne.
  destruct (Z.ltb_spec (2 ^ k) (2 * (X mod 2 ^ k)));
  destruct (Z.eqb_spec (2 ^ k) (2 * (X mod 2 ^ k)));
  destruct (Z.odd (X / 2 ^ k)); cbn [orb andb]; nia.
Qed.

Lemma round_relative X :
  0 <= X -> round 0 X * 2 ^ 53 <= X * (2 ^ 53 + 1).
Proof.
  intros HX. unfold round.
  destruct (Z.le_gt_cases (Zdigits2 X - prec) 0) as [Hle | Hgt].
  - replace (cexp 0 X) with 0 by (unfold cexp; lia).
    rewrite rne_0. simpl (2 ^ 0). nia.
  - assert (Hc : cexp 0 X = Zdigits2 X - 53) by (unfold cexp, prec in *; lia).
    rewrite Hc. unfold prec in Hgt.
    assert (0 < X) by (destruct X; simpl in *; lia).
    pose proof (Zdigits2_bounds X H) as [Hl _].
    pose proof (rne_half X (Zdigits2 X - 53) ltac:(lia)) as Hh.
    assert (Hp : 0 < 2 ^ (Zdigits2 X - 53)) by (apply Z.pow_pos_nonneg; lia).
    assert (Hs : 2 ^ (Zdigits2 X - 1) = 2 ^ (Zdigits2 X - 53) * 2 ^ 52).
    { rewrite <- Z.pow_add_r by lia. f_equal. lia. }
    rewrite Hs in Hl.
    change (2 ^ 53) with (2 * 2 ^ 52).
    set (u := 2 ^ (Zdigits2 X - 53)) in *.
    set (v := rne X (Zdigits2 X - 53)) in *.
    assert (0 < 2 ^ 52) by reflexivity.
    nia.
Qed.

(** [product_bound] below, in units of [U = 2 ^ 1053] *)
Lemma product_bound_scaled H n P A U :
  0 <= H < 2147483648 -> 0 < n <= U ->
  0 <= P -> n * P <= H * (2097152 * U) + U + n ->
  0 <= A ->
  A * 9007199254740992 <= n * (2097152 * U) * (9007199254740992 + 1) ->
  A * P <= (2 * H + 1) * (2199023255552 * (U * U)).
Proof.
  intros HH Hn HP HnP HA HA53.
  assert (HU : 0 < U) by lia.
  assert (HHU : 0 <= H * U <= 2147483647 * U) by nia.
  (* the two factors multiplied *)
  assert (Hprod : (A * 9007199254740992) * (n * P)
                  <= (n * (2097152 * U) * (9007199254740992 + 1))
                     * (H * (2097152 * U) + U + n)).
  { apply Z.mul_le_mono_nonneg; nia. }
  assert (HK : (9007199254740992 + 1) * (H * (2097152 * U) + U + n)
               <= 9007199254740992 * ((2 * H + 1) * (2199023255552 * U))).
  { nia. }
  (* cancel [n * 2 ^ 53] *)
  apply (Z.mul_le_mono_pos_l _ _ (n * 9007199254740992)); [lia |].
  eapply Z.le_trans.
  { replace (n * 9007199254740992 * (A * P))
      with ((A * 9007199254740992) * (n * P)) by ring. exact Hprod. }
  replace (n * (2097152 * U) * (9007199254740992 + 1)
           * (H * (2097152 * U) + U + n))
    with ((n * (2097152 * U))
          * ((9007199254740992 + 1) * (H * (2097152 * U) + U + n))) by ring.
  replace (n * 9007199254740992 * ((2 * H + 1) * (2199023255552 * (U * U))))
    with ((n * (2097152 * U))
          * (4294967296 * ((2 * H + 1) * (2199023255552 * U)))) by ring.
  apply Z.mul_le_mono_nonneg_l; [nia |].
  nia.
Qed.

(** the product of a rounded index and the rounded row height stays below
    [H + 1/2] *)
Lemma product_bound H n P A :
  0 <= H < 2 ^ 31 -> 0 < n < 2 ^ 1024 ->
  0 <= P -> n * P <= H * 2 ^ 1074 + 2 ^ 1053 + n ->
  0 <= A -> A * 2 ^ 53 <= n * 2 ^ 1074 * (2 ^ 53 + 1) ->
  A * P <= (2 * H + 1) * 2 ^ 2147.
Proof.
  intros HH Hn HP HnP HA HA53.
  assert (E1 : 2 ^ 1074 = 2 ^ 21 * 2 ^ 1053)
    by (rewrite <- Z.pow_add_r by lia; reflexivity).
  assert (E2 : 2 ^ 2147 = 2 ^ 41 * (2 ^ 1053 * 2 ^ 1053))
    by (rewrite <- !Z.pow_add_r by lia; reflexivity).
  assert (E3 : 2 ^ 1024 <= 2 ^ 1053) by (apply Z.pow_le_mono_r; lia).
  rewrite E1 in HnP, HA53. rewrite E2.
  apply (product_bound_scaled H n P A (2 ^ 1053)); try assumption.
  lia.
Qed.


Lemma float_of_int_below_limit r :
  0 <= r < float_int_limit -> round 0 (r * 2 ^ 1074) < 2 ^ (1024 + 1074).
Proof.
  intros Hr.
  assert (Hmax : round 0 ((float_int_limit - 1) * 2 ^ 1074) < 2 ^ (1024 + 1074))
    by (apply Z.ltb_lt; vm_compute; reflexivity).
  eapply Z.le_lt_trans; [| exact Hmax].
  apply round_mono; [lia | |].
  - assert (0 < 2 ^ 1074) by (apply Z.pow_pos_nonneg; lia). nia.
  - apply Z.mul_le_mono_nonneg_r; [| lia].
    apply Z.pow_nonneg. lia.
Qed.

(** [int(r * part_height)], as a number *)

Lemma round_half_integer H :
  0 <= H < 2 ^ 31 ->
  round 1074 ((2 * H + 1) * 2 ^ 2147) = (2 * H + 1) * 2 ^ 2147.
Proof.
  intros HH.
  assert (Hd : Zdigits2 ((2 * H + 1) * 2 ^ 2147) = Zdigits2 (2 * H + 1) + 2147)
    by (apply Zdigits2_shift; lia).
  assert (Hd32 : Zdigits2 (2 * H + 1) <= 32).
  { apply Zdigits2_le_of_lt; [lia | lia |].
    change (2 ^ 32) with (2 * 2 ^ 31). lia. }
  pose proof (Zdigits2_pos (2 * H + 1) ltac:(lia)) as Hdp.
  set (c := cexp 1074 ((2 * H + 1) * 2 ^ 2147)).
  assert (Hc : 1074 <= c <= 2147) by (unfold c, cexp, prec; rewrite Hd; lia).
  apply round_exact with (q := (2 * H + 1) * 2 ^ (2147 - c)); [lia |].
  fold c. rewrite <- Z.mul_assoc, <- Z.pow_add_r by lia.
  do 2 f_equal. lia.
Qed.

Section RowHeight.

Variables (H n : Z) (ph : float).
Hypothesis HH : 0 <= H < 2 ^ 31.
Hypothesis Hn : 0 < n < float_int_limit.
Hypothesis Hfin : nonneg_finite ph.
Hypothesis Hsmall : small_exponent ph.
Hypothesis Hph : n * sv ph <= H * 2 ^ 1074 + 2 ^ 1053 + n.

Lemma limit_lt : float_int_limit < 2 ^ 1024.
Proof. apply Z.ltb_lt. vm_compute. reflexivity. Qed.

Lemma rounded_product_bound r :
  0 <= r <= n ->
  round 1074 (round 0 (r * 2 ^ 1074) * sv ph) <= (2 * H + 1) * 2 ^ 2147.
Proof.
  intros Hr. pose proof limit_lt as Hl. pose proof (sv_nonneg ph) as HP.
  assert (Hp : 0 < 2 ^ 1074) by (apply Z.pow_pos_nonneg; lia).
  assert (HA : 0 <= round 0 (r * 2 ^ 1074)) by (apply round_nonneg; nia).
  rewrite <- round_half_integer by assumption.
  apply round_mono; [lia | nia |].
  apply product_bound with (n := n); try lia.
  eapply Z.le_trans; [apply round_relative; nia |].
  apply Z.mul_le_mono_nonneg_r; [lia |].
  apply Z.mul_le_mono_nonneg_r; lia.
Qed.

Lemma int_of_product_value r :
  0 <= r <= n ->
  int_of_product r ph = inr (truncated_product (sv ph) r) /\
  0 <= truncated_product (sv ph) r <= H.
Proof.
  intros Hr. pose proof (rounded_product_bound r Hr) as Hb.
  pose proof (sv_nonneg ph) as HP.
  assert (Hp : 0 < 2 ^ 1074) by (apply Z.pow_pos_nonneg; lia).
  assert (HA0 : 0 <= round 0 (r * 2 ^ 1074)) by (apply round_nonneg; nia).
  assert (HR0 : 0 <= round 1074 (round 0 (r * 2 ^ 1074) * sv ph))
    by (apply round_nonneg; nia).
  split.
  - unfold int_of_product, int_mul_float.
    destruct (float_of_int_value r (proj1 Hr)) as (f & -> & Hf & Hsv).
    { apply float_of_int_below_limit. lia. }
    cbn [bindR].
    destruct (fmul_value f ph Hf Hfin Hsmall) as [Hnf Hv].
    { rewrite Hsv. eapply Z.le_lt_trans; [exact Hb |].
      assert (2 * H + 1 < 2 ^ 32) by (change (2 ^ 32) with (2 * 2 ^ 31); lia).
      assert (0 < 2 ^ 2147) by (apply Z.pow_pos_nonneg; lia).
      assert ((2 * H + 1) * 2 ^ 2147 < 2 ^ 32 * 2 ^ 2147) by nia.
      rewrite <- Z.pow_add_r in H2 by lia.
      eapply Z.lt_le_trans; [exact H2 |]. apply Z.pow_le_mono_r; lia. }
    rewrite int_of_float_value by assumption.
    unfold truncated_product. rewrite <- Hsv, <- Hv.
    rewrite Z.div_mul by lia. reflexivity.
  - unfold truncated_product. split.
    + apply Z.div_pos; [| lia]. apply Z.div_pos; lia.
    + rewrite Z.div_div by lia.
      assert (Hq : (2 * H + 1) * 2 ^ 2147 / (2 ^ 1074 * 2 ^ 1074) = H).
      { rewrite <- Z.pow_add_r by lia. change (1074 + 1074) with (1 + 2147).
        rewrite Z.pow_add_r by lia.
        rewrite Z.div_mul_cancel_r; [| lia | apply Z.pow_nonzero; lia].
        change (2 ^ 1) with 2. symmetry. apply Z.div_unique with (r := 1); lia. }
      eapply Z.le_trans; [apply Z.div_le_mono; [nia | exact Hb] |].
      rewrite Hq. lia.
Qed.

Lemma truncated_product_mono r r' :
  0 <= r <= r' ->
  truncated_product (sv ph) r <= truncated_product (sv ph) r'.
Proof.
  intros Hr. pose proof (sv_nonneg ph) as HP.
  assert (Hp : 0 < 2 ^ 1074) by (apply Z.pow_pos_nonneg; lia).
  unfold truncated_product.
  apply Z.div_le_mono; [lia |]. apply Z.div_le_mono; [lia |].
  assert (HA : 0 <= round 0 (r * 2 ^ 1074)) by (apply round_nonneg; nia).
  apply round_mono; [lia | nia |].
  apply Z.mul_le_mono_nonneg_r; [lia |].
  apply round_mono; [lia | nia | nia].
Qed.

Lemma truncated_product_0 : truncated_product (sv ph) 0 = 0.
Proof.
  unfold truncated_product. rewrite Z.mul_0_l.
  rewrite round_0 by lia.
  rewrite !Z.div_0_l by (apply Z.pow_nonzero; lia). reflexivity.
Qed.

End RowHeight.

(** ** the boxes *)


Lemma tiles_from_heights width bs : forall top bottom,
  tiles_from top width bs bottom ->
  fold_right Z.add 0 (map strip_height bs) = bottom - top.
Proof.
  induction bs as [| [[[l t] r] b] bs IH]; intros top bottom Ht; simpl in *.
  - lia.
  - destruct Ht as (_ & _ & -> & _ & Ht). rewrite (IH _ _ Ht). lia.
Qed.

Lemma int_truediv_row_height H n :
  0 <= H < 2 ^ 31 -> 0 < n ->
  exists ph,
    int_truediv H n = inr ph /\ nonneg_finite ph /\ small_exponent ph /\
    n * sv ph <= H * 2 ^ 1074 + 2 ^ 1053 + n.
Proof.
  intros HH Hn. destruct (Z.eq_dec H 0) as [-> | Hne].
  - exists (S754_zero false). unfold int_truediv.
    replace (n =? 0) with false by (symmetry; apply Z.eqb_neq; lia).
    replace (n <? 0) with false by (symmetry; apply Z.ltb_ge; lia).
    cbn [sv nonneg_finite small_exponent].
    assert (0 < 2 ^ 1053) by (apply Z.pow_pos_nonneg; lia).
    repeat split; lia.
  - apply int_truediv_value; lia.
Qed.

Section Boxes.

Variables (W H n : Z) (ph : float).
Hypothesis HH : 0 <= H < 2 ^ 31.
Hypothesis Hn : 0 < n < float_int_limit.
Hypothesis Hfin : nonneg_finite ph.
Hypothesis Hsmall : small_exponent ph.
Hypothesis Hph : n * sv ph <= H * 2 ^ 1074 + 2 ^ 1053 + n.

Lemma strip_box_value r :
  0 <= r < n -> strip_box W H n ph r = inr (box_of W H n (sv ph) r).
Proof.
  intros Hr. unfold strip_box, box_of.
  destruct (int_of_product_value H n ph HH Hn Hfin Hsmall Hph r ltac:(lia))
    as [-> _].
  destruct (int_of_product_value H n ph HH Hn Hfin Hsmall Hph (r + 1) ltac:(lia))
    as [-> _].
  reflexivity.
Qed.

Lemma strip_boxes_from_value k : forall r,
  0 <= r -> r + Z.of_nat k <= n ->
  strip_boxes_from k r W H n ph = inr (boxes_from W H n (sv ph) k r).
Proof.
  induction k as [| k IH]; intros r Hr Hk; cbn [strip_boxes_from boxes_from].
  - reflexivity.
  - rewrite strip_box_value by lia. cbn [bindR].
    rewrite IH by lia. reflexivity.
Qed.

Lemma length_boxes_from P k : forall r,
  List.length (boxes_from W H n P k r) = k.
Proof. induction k as [| k IH]; intros r; simpl; [reflexivity | now rewrite IH]. Qed.

Lemma nth_boxes_from P k : forall r i d,
  (i < k)%nat ->
  nth i (boxes_from W H n P k r) d = box_of W H n P (r + Z.of_nat i).
Proof.
  induction k as [| k IH]; intros r i d Hi; [lia |].
  destruct i as [| i]; cbn [boxes_from nth].
  - f_equal. lia.
  - rewrite IH by lia. f_equal. lia.
Qed.

Lemma boxes_tile k : forall r,
  0 <= r -> r + Z.of_nat (S k) = n ->
  tiles_from (truncated_product (sv ph) r) W
    (boxes_from W H n (sv ph) (S k) r) H.
Proof.
  induction k as [| k IH]; intros r Hr Hk.
  - cbn [boxes_from tiles_from box_of].
    replace (r =? n - 1) with true by (symmetry; apply Z.eqb_eq; lia).
    destruct (int_of_product_value H n ph HH Hn Hfin Hsmall Hph r ltac:(lia))
      as [_ Hb].
    repeat split; lia.
  - change (boxes_from W H n (sv ph) (S (S k)) r)
      with (box_of W H n (sv ph) r :: boxes_from W H n (sv ph) (S k) (r + 1)).
    cbn [tiles_from box_of].
    replace (r =? n - 1) with false by (symmetry; apply Z.eqb_neq; lia).
    split; [reflexivity |]. split; [reflexivity |]. split; [reflexivity |].
    split.
    + apply truncated_product_mono; lia.
    + apply IH; lia.
Qed.

End Boxes.

(** ** factors in their domains *)
Lemma valid_float_between f lo hi ml el mh eh :
  lo = S754_finite false ml el ->
  hi = S754_finite false mh eh ->
  valid_binary prec emax f = true ->
  fleb lo f = true -> fleb f hi = true ->
  nonneg_finite f /\
  (match f with S754_finite _ _ e => e <= eh | _ => True end) /\
  sv f < 2 ^ (53 + eh + 1074).
Proof.
  intros -> -> Hv Hlo Hhi.
  destruct f as [s | s | | s m e]; try discriminate.
  - destruct s; discriminate.
  - destruct s; [discriminate |].
    cbn [valid_binary] in Hv. unfold bounded, canonical_mantissa in Hv.
    apply andb_prop in Hv as [Hc He]. apply Z.eqb_eq in Hc. apply Z.leb_le in He.
    rewrite fexp_eq in Hc. unfold emax, prec in He.
    pose proof (digits2_pos_bounds m) as [_ Hm].
    pose proof (Pos2Z.is_pos (digits2_pos m)) as Hd.
    assert (Hd53 : Zpos (digits2_pos m) <= 53) by (unfold fexp64 in Hc; lia).
    assert (Hemin : -1074 <= e) by (unfold fexp64 in Hc; lia).
    assert (Heh : e <= eh).
    { unfold fleb, SFleb, SFcompare in Hhi.
      destruct (Z.compare_spec e eh); [lia | lia | discriminate]. }
    cbn [nonneg_finite sv]. repeat split; try lia.
    assert (Hm53 : Zpos m < 2 ^ 53).
    { eapply Z.lt_le_trans; [exact Hm |]. apply Z.pow_le_mono_r; lia. }
    assert (Hp : 0 < 2 ^ (e + 1074)) by (apply Z.pow_pos_nonneg; lia).
    assert (Hmono : 2 ^ (e + 1074) <= 2 ^ (eh + 1074))
      by (apply Z.pow_le_mono_r; lia).
    replace (53 + eh + 1074) with (53 + (eh + 1074)) by lia.
    rewrite (Z.pow_add_r 2 53 (eh + 1074)) by lia. nia.
Qed.

Lemma stretch_factor_bounds sf :
  valid_binary prec emax sf = true -> in_domain f1_0 f3_0 sf = true ->
  nonneg_finite sf /\ small_exponent sf /\ sv sf < 2 ^ 1077.
Proof.
  intros Hv Hd. unfold in_domain in Hd. apply andb_prop in Hd as [Hlo Hhi].
  destruct (valid_float_between sf f1_0 f3_0 _ _ _ _ eq_refl eq_refl Hv Hlo Hhi)
    as (Hn & He & Hs).
  split; [assumption |]. split.
  - destruct sf; cbn [small_exponent] in *; try exact I. lia.
  - eapply Z.lt_le_trans; [exact Hs |]. apply Z.pow_le_mono_r; lia.
Qed.

Lemma output_scale_factor_bounds osf :
  valid_binary prec emax osf = true -> in_domain f0_5 f4_0 osf = true ->
  nonneg_finite osf /\ small_exponent osf /\ sv osf < 2 ^ 1077.
Proof.
  intros Hv Hd. unfold in_domain in Hd. apply andb_prop in Hd as [Hlo Hhi].
  destruct (valid_float_between osf f0_5 f4_0 _ _ _ _ eq_refl eq_refl Hv Hlo Hhi)
    as (Hn & He & Hs).
  split; [assumption |]. split.
  - destruct osf; cbn [small_exponent] in *; try exact I. lia.
  - exact Hs.
Qed.

(** [int(z * f)] for a size and a factor *)
Lemma int_of_product_small z f :
  0 <= z < 2 ^ 40 ->
  nonneg_finite f -> small_exponent f -> sv f < 2 ^ 1077 ->
  int_of_product z f = inr (truncated_product (sv f) z) /\
  0 <= truncated_product (sv f) z.
Proof.
  intros Hz Hf Hs Hsv. pose proof (sv_nonneg f) as HP.
  assert (Hp : 0 < 2 ^ 1074) by (apply Z.pow_pos_nonneg; lia).
  assert (HA : 0 <= round 0 (z * 2 ^ 1074) <= 2 ^ 1114).
  { split; [apply round_nonneg; nia |].
    apply round_le_pow2; [lia | lia |]. split; [nia |].
    change 1114 with (40 + 1074). rewrite Z.pow_add_r by lia. nia. }
  assert (HR : 0 <= round 1074 (round 0 (z * 2 ^ 1074) * sv f) <= 2 ^ 2191).
  { split; [apply round_nonneg; nia |].
    apply round_le_pow2; [lia | lia |]. split; [nia |].
    change 2191 with (1114 + 1077). rewrite Z.pow_add_r by lia.
    apply Z.mul_le_mono_nonneg; lia. }
  split.
  - unfold int_of_product, int_mul_float.
    destruct (float_of_int_value z (proj1 Hz)) as (x & -> & Hx & Hsvx).
    { eapply Z.le_lt_trans; [apply HA |]. apply Z.pow_lt_mono_r; lia. }
    cbn [bindR].
    destruct (fmul_value x f Hx Hf Hs) as [Hnf Hv].
    { rewrite Hsvx. eapply Z.le_lt_trans; [apply HR |].
      apply Z.pow_lt_mono_r; lia. }
    rewrite int_of_float_value by assumption.
    unfold truncated_product. rewrite <- Hsvx, <- Hv.
    rewrite Z.div_mul by lia. reflexivity.
  - unfold truncated_product.
    apply Z.div_pos; [| lia]. apply Z.div_pos; lia.
Qed.

Lemma tiles_from_Forall width bs : forall top bottom,
  0 <= width ->
  tiles_from top width bs bottom ->
  Forall (fun b => strip_width b = width /\ 0 <= strip_width b /\
                   0 <= strip_height b) bs.
Proof.
  induction bs as [| [[[l t] r] b] bs IH]; intros top bottom Hw Ht.
  - constructor.
  - cbn [tiles_from] in Ht. destruct Ht as (-> & -> & -> & Hle & Ht).
    constructor; [| eapply IH; eauto].
    cbn [strip_width strip_height]. lia.
Qed.

(** All boxes of the loop, and what they are. *)
Lemma strip_boxes_value W H n :
  0 <= H < 2 ^ 31 -> 0 < n < float_int_limit ->
  exists ph,
    int_truediv H n = inr ph /\
    strip_boxes W H n = inr (boxes_from W H n (sv ph) (Z.to_nat n) 0) /\
    tiles_from 0 W (boxes_from W H n (sv ph) (Z.to_nat n) 0) H /\
    (forall r, 0 <= r < n ->
       strip_box W H n ph r
       = inr (nth (Z.to_nat r) (boxes_from W H n (sv ph) (Z.to_nat n) 0)
                (0, 0, 0, 0))).
Proof.
  intros HH Hn.
  destruct (int_truediv_row_height H n HH ltac:(lia))
    as (ph & Hdiv & Hfin & Hsmall & Hph).
  exists ph. split; [assumption |]. split; [| split].
  - unfold strip_boxes. rewrite Hdiv. cbn [bindR].
    apply strip_boxes_from_value; auto; lia.
  - destruct (Z.to_nat n) as [| k] eqn:Hk; [lia |].
    pose proof (boxes_tile W H n ph HH Hn Hfin Hsmall Hph k 0) as Ht.
    rewrite truncated_product_0 in Ht. apply Ht; lia.
  - intros r Hr. rewrite nth_boxes_from by lia.
    rewrite Z.add_0_l, Z2Nat.id by lia.
    apply strip_box_value; auto.
Qed.

(* ===================================================================== *)
(** ** The claims *)
(* ===================================================================== *)

(** *** Validation (C2) *)

(** The order of the three checks: a later one is looked at only when the
    earlier ones passed. *)
Lemma first_failing_check_order rows sf osf :
  (rows <= 0 ->
   first_failing_check rows sf osf
   = Some "Error: Rows must be a positive integer."%string) /\
  (0 < rows -> in_domain f1_0 f3_0 sf = false ->
   first_failing_check rows sf osf
   = Some "Error: Stretch factor must be between 1.0 and 3.0."%string) /\
  (0 < rows -> in_domain f1_0 f3_0 sf = true ->
   in_domain f0_5 f4_0 osf = false ->
   first_failing_check rows sf osf
   = Some "Error: Output scale factor must be between 0.5 and 4.0."%string).
Proof.
  unfold first_failing_check. repeat split.
  - intros H. apply Z.leb_le in H. now rewrite H.
  - intros H Hs. apply Z.leb_gt in H. now rewrite H, Hs.
  - intros H Hs Ho. apply Z.leb_gt in H. now rewrite H, Hs, Ho.
Qed.

Lemma first_failing_check_some rows sf osf :
  rows <= 0 \/ in_domain f1_0 f3_0 sf = false \/ in_domain f0_5 f4_0 osf = false ->
  exists msg, first_failing_check rows sf osf = Some msg.
Proof.
  unfold first_failing_check. intros H.
  destruct (rows <=? 0) eqn:Hr; [eauto |].
  destruct (in_domain f1_0 f3_0 sf) eqn:Hs; [| simpl; eauto].
  destruct (in_domain f0_5 f4_0 osf) eqn:Ho; [| simpl; eauto].
  apply Z.leb_gt in Hr. destruct H as [H | [H | H]]; [lia | discriminate ..].
Qed.

(** The run of a call that fails a check: the decoding, then one message;
    the message of the handler when the bytes do not decode, the message of
    the first failing check when they do. *)
Lemma rejected_run (pil : PIL) image_bytes rows sf osf msg :
  first_failing_check rows sf osf = Some msg ->
  biggify_image_run image_bytes rows sf osf
  = match Image_open image_bytes with
    | inl e =>
        ([Call_open image_bytes;
          Printed ("Error processing image in biggify_image: " ++ str_exn e)],
         inr [])
    | inr _ => ([Call_open image_bytes; Printed msg], inr [])
    end.
Proof.
  intros Hmsg. unfold biggify_image_run, biggify_image_try.
  destruct (Image_open image_bytes) as [e | orig] eqn:Ho; [reflexivity |].
  unfold call, bind at 1.
  destruct (size orig) as [ow oh].
  revert Hmsg. unfold first_failing_check, in_domain.
  destruct (rows <=? 0).
  { intros Hm. inversion Hm. reflexivity. }
  destruct (negb (fleb f1_0 sf && fleb sf f3_0)).
  { intros Hm. inversion Hm. reflexivity. }
  destruct (negb (fleb f0_5 osf && fleb osf f4_0)).
  { intros Hm. inversion Hm. reflexivity. }
  discriminate.
Qed.

Lemma rejected_result (pil : PIL) image_bytes rows sf osf :
  rows <= 0 \/ in_domain f1_0 f3_0 sf = false \/ in_domain f0_5 f4_0 osf = false ->
  biggify_image image_bytes rows sf osf = [].
Proof.
  intros H. destruct (first_failing_check_some rows sf osf H) as [msg Hmsg].
  unfold biggify_image. rewrite (rejected_run pil image_bytes rows sf osf msg Hmsg).
  now destruct (Image_open image_bytes).
Qed.

(** C2.  If [rows <= 0], or the stretch factor is outside [1.0, 3.0], or
    the output scale factor is outside [0.5, 4.0], then [biggify_image]
    returns the empty list whatever the image bytes are; the run makes no
    call into Pillow other than the decoding; and for a decodable image the
    run is the decoding followed by the one message of the first failing
    check, the checks being tried in the order rows, stretch factor, output
    scale factor. *)
Theorem validation_rejects_before_transform :
  forall (pil : PIL) (image_bytes : list byte) (rows : Z)
         (stretch_factor output_scale_factor : float),
    rows <= 0 \/
    in_domain f1_0 f3_0 stretch_factor = false \/
    in_domain f0_5 f4_0 output_scale_factor = false ->
    biggify_image image_bytes rows stretch_factor output_scale_factor = [] /\
    Forall (fun ev => is_transform ev = false)
      (fst (biggify_image_run image_bytes rows stretch_factor output_scale_factor)) /\
    (forall orig, Image_open image_bytes = inr orig ->
     exists msg,
       first_failing_check rows stretch_factor output_scale_factor = Some msg /\
       biggify_image_run image_bytes rows stretch_factor output_scale_factor
       = ([Call_open image_bytes; Printed msg], inr [])).
Proof.
  intros pil image_bytes rows sf osf H.
  destruct (first_failing_check_some rows sf osf H) as [msg Hmsg].
  pose proof (rejected_run pil image_bytes rows sf osf msg Hmsg) as Hrun.
  unfold biggify_image. rewrite Hrun.
  destruct (Image_open image_bytes) as [e | orig] eqn:Ho; simpl.
  - split; [reflexivity |]. split; [repeat constructor | intros; discriminate].
  - split; [reflexivity |]. split; [repeat constructor |].
    intros orig' Ho'. inversion Ho'. subst orig'. exists msg. auto.
Qed.

Lemma validation_rejects_before_transform_witness :
  biggify_image (pil := Raster.pillow) Sample.photo_png 0 f1_5 f2_0 = [] /\
  Forall (fun ev => is_transform ev = false)
    (fst (biggify_image_run (pil := Raster.pillow) Sample.photo_png 0 f1_5 f2_0)) /\
  (forall orig, Image_open (PIL := Raster.pillow) Sample.photo_png = inr orig ->
   exists msg,
     first_failing_check 0 f1_5 f2_0 = Some msg /\
     biggify_image_run (pil := Raster.pillow) Sample.photo_png 0 f1_5 f2_0
     = ([Call_open Sample.photo_png; Printed msg], inr [])).
Proof.
  apply (validation_rejects_before_transform Raster.pillow Sample.photo_png
           0 f1_5 f2_0).
  left. lia.
Defined.

(** The five rejected calls the specification lists: the result is empty
    for any image bytes and any other arguments. *)
Lemma rejected_examples (pil : PIL) (image_bytes : list byte) :
  (forall sf osf, biggify_image image_bytes 0 sf osf = []) /\
  (forall sf osf, biggify_image image_bytes (-1) sf osf = []) /\
  (forall rows osf, biggify_image image_bytes rows f0_5 osf = []) /\
  (forall rows osf, biggify_image image_bytes rows f5_0 osf = []) /\
  (forall rows sf, biggify_image image_bytes rows sf f0_1 = []).
Proof.
  repeat split; intros; apply rejected_result; auto; left; lia.
Qed.

(** *** Failure policy (C5) *)

(** C5.  Neither function lets an exception escape: each run ends with a
    returned value.  When the body of the [try] raises (in decoding,
    resizing, cropping, pasting, encoding or a conversion), [biggify_image]
    returns the empty list and [merge_images] returns [None].  No partial
    output: [biggify_image] returns either nothing or one buffer for every
    row.  In particular bytes that do not decode give the failure signal of
    either function. *)
Theorem exceptions_collapse_to_failure_signal :
  forall (pil : PIL),
    (forall image_bytes rows sf osf,
       exists log v, biggify_image_run image_bytes rows sf osf = (log, inr v)) /\
    (forall l, exists log v, merge_images_run l = (log, inr v)) /\
    (forall image_bytes rows sf osf e,
       snd (biggify_image_try image_bytes rows sf osf) = inl e ->
       biggify_image image_bytes rows sf osf = []) /\
    (forall l e, snd (merge_images_try l) = inl e -> merge_images l = None) /\
    (forall image_bytes rows sf osf,
       biggify_image image_bytes rows sf osf = [] \/
       List.length (biggify_image image_bytes rows sf osf) = Z.to_nat rows) /\
    (forall image_bytes rows sf osf e,
       Image_open image_bytes = inl e ->
       biggify_image image_bytes rows sf osf = []) /\
    (forall l image_bytes e,
       In image_bytes l -> Image_open image_bytes = inl e ->
       merge_images l = None).
Proof.
  intros pil. repeat split.
  - intros. unfold biggify_image_run. apply try_except_returns.
    intros e. unfold print, ret, bind. eauto.
  - intros [| b l]; unfold merge_images_run.
    + unfold print, ret, bind. eauto.
    + apply try_except_returns. intros e. unfold print, ret, bind. eauto.
  - intros. now apply biggify_image_raised with (e := e).
  - intros. now apply merge_images_raised with (e := e).
  - intros image_bytes rows sf osf.
    destruct (biggify_image_cases image_bytes rows sf osf)
      as [H | (log & l & Ht & Hl)]; [now left |].
    rewrite Hl. apply biggify_image_try_value in Ht
      as (orig & _ & [(msg & _ & -> & _) | (_ & Hlen & _)]); auto.
  - intros image_bytes rows sf osf e He.
    apply biggify_image_raised with (e := e).
    unfold biggify_image_try. rewrite He. reflexivity.
  - intros l image_bytes e Hin He.
    destruct (open_all_raises l [] image_bytes e Hin He) as (log & e' & Hr).
    apply merge_images_raised with (e := e').
    unfold merge_images_try. rewrite Hr. reflexivity.
Qed.

(** *** Empty merge (C8) *)

(** C8.  On the empty list [merge_images] returns [None] at once: the run
    prints its message and makes no call into Pillow. *)
Theorem merge_images_empty_list :
  forall (pil : PIL),
    merge_images [] = None /\
    merge_images_run []
    = ([Printed "Error: No images provided for merging."], inr None).
Proof. intros pil. split; reflexivity. Qed.

(** *** Encoding format (C7) *)

Lemma biggify_image_buffers (pil : PIL) image_bytes rows sf osf buf :
  In buf (biggify_image image_bytes rows sf osf) ->
  exists orig,
    Image_open image_bytes = inr orig /\
    holds_encoding (save_format orig) buf.
Proof.
  intros Hin.
  destruct (biggify_image_cases image_bytes rows sf osf)
    as [H | (log & l & Ht & Hl)].
  - rewrite H in Hin. destruct Hin.
  - rewrite Hl in Hin. apply biggify_image_try_value in Ht
      as (orig & Ho & [(msg & _ & -> & _) | (_ & _ & Hall)]); [destruct Hin |].
    exists orig. split; [assumption |].
    rewrite Forall_forall in Hall. auto.
Qed.

Lemma merge_images_buffer (pil : PIL) l buf :
  merge_images l = Some buf -> holds_encoding "PNG" buf.
Proof.
  intros H. apply merge_images_some in H as [log H].
  apply merge_images_try_value in H
    as (images & first & c0 & plog & c & data & _ & _ & _ & _ & Hs & -> & _).
  split; [reflexivity | now exists c].
Qed.

(** Every [save] call of a [biggify_image] run names the same format. *)
Lemma biggify_image_save_events (pil : PIL) image_bytes rows sf osf :
  Forall (fun ev =>
            match ev with
            | Call_save _ fmt =>
                exists orig, Image_open image_bytes = inr orig /\ fmt = save_format orig
            | _ => True
            end)
    (fst (biggify_image_run image_bytes rows sf osf)).
Proof.
  unfold biggify_image_run. apply try_except_events.
  2:{ intros e. simpl. repeat constructor. }
  unfold biggify_image_try.
  apply bind_events; [apply call_events; exact I |].
  intros orig Ho. simpl in Ho.
  destruct (size orig) as [ow oh].
  destruct (rows <=? 0); [simpl; repeat constructor |].
  destruct (negb _); [simpl; repeat constructor |].
  destruct (negb _); [simpl; repeat constructor |].
  apply bind_events; [apply lift_events |]. intros sw _.
  apply bind_events; [apply call_events; exact I |]. intros st _.
  destruct (size st) as [cw ch].
  apply bind_events; [apply lift_events |]. intros ph _.
  apply for_range_events. intros r acc. unfold strip_iteration.
  apply bind_events; [apply lift_events |]. intros bx _.
  apply bind_events; [apply call_events; exact I |]. intros strip _.
  apply bind_events.
  { unfold scale_strip. destruct (negb _); [| apply ret_events].
    apply bind_events; [apply lift_events |]. intros w _.
    apply bind_events; [apply lift_events |]. intros h _.
    apply call_events. exact I. }
  intros strip' _.
  apply bind_events; [apply call_events; eauto |]. intros data _.
  apply ret_events.
Qed.

(** C7.  Every buffer [biggify_image] returns holds what [save] wrote for
    a strip in the format [save_format] of the decoded image, and every
    [save] call of the run names that format; [save_format] is the
    image's own format when it is known and "PNG" when it is not.  The
    buffer [merge_images] returns holds what [save] wrote in the format
    "PNG", whatever the formats of the inputs. *)
Theorem strips_keep_format_merge_writes_png :
  forall (pil : PIL),
    (forall image_bytes rows sf osf buf,
       In buf (biggify_image image_bytes rows sf osf) ->
       exists orig strip,
         Image_open image_bytes = inr orig /\
         save strip (save_format orig) = inr (getvalue buf)) /\
    (forall image_bytes rows sf osf im fmt,
       In (Call_save im fmt) (fst (biggify_image_run image_bytes rows sf osf)) ->
       exists orig, Image_open image_bytes = inr orig /\ fmt = save_format orig) /\
    (forall orig f,
       format orig = Some f -> f <> ""%string -> save_format orig = f) /\
    (forall orig, format orig = None -> save_format orig = "PNG"%string) /\
    (forall l buf,
       merge_images l = Some buf ->
       exists canvas, save canvas "PNG" = inr (getvalue buf)).
Proof.
  intros pil. repeat split.
  - intros image_bytes rows sf osf buf Hin.
    apply biggify_image_buffers in Hin as (orig & Ho & _ & strip & Hs).
    eauto.
  - intros image_bytes rows sf osf im fmt Hin.
    pose proof (biggify_image_save_events pil image_bytes rows sf osf) as H.
    rewrite Forall_forall in H. exact (H _ Hin).
  - intros orig f Hf Hne. unfold save_format. rewrite Hf.
    destruct f; [congruence | reflexivity].
  - intros orig Hf. unfold save_format. now rewrite Hf.
  - intros l buf H. apply merge_images_buffer in H as [_ H]. exact H.
Qed.

(** *** Rewound buffers (C10) *)

(** C10.  Every buffer returned by [biggify_image] and the buffer returned
    by [merge_images] stands at position 0, so that reading it gives all
    the bytes of the encoded image. *)
Theorem returned_buffers_are_rewound :
  forall (pil : PIL),
    (forall image_bytes rows sf osf buf,
       In buf (biggify_image image_bytes rows sf osf) ->
       tell buf = 0%nat /\ read buf = getvalue buf /\
       exists im fmt, save im fmt = inr (read buf)) /\
    (forall l buf,
       merge_images l = Some buf ->
       tell buf = 0%nat /\ read buf = getvalue buf /\
       exists im, save im "PNG" = inr (read buf)).
Proof.
  intros pil. split.
  - intros image_bytes rows sf osf buf Hin.
    apply biggify_image_buffers in Hin as (orig & _ & Ht & strip & Hs).
    unfold read. rewrite Ht. simpl. eauto.
  - intros l buf H. apply merge_images_buffer in H as (Ht & canvas & Hs).
    unfold read. rewrite Ht. simpl. eauto.
Qed.

(** *** Vertical merge (C3, C9) *)

(** C3.  For a non-empty list of images that decode, on a run whose
    [Image.new], [paste] and [save] calls return: [merge_images] returns the
    rewound buffer with the PNG encoding of one canvas; the canvas is in
    mode RGB, as wide as the first image and as high as all images
    together; the images are pasted in list order, each at [(0, offset)]
    with [offset] the height of all images before it; and the pixel
    [(x, y)] of image [j] is the pixel [(x, offset_j + y)] of the canvas
    wherever the canvas is wide enough.  Nothing is asked of the widths of
    the other images. *)
Theorem merge_images_stacks_top_to_bottom :
  forall (pil : PIL) (laws : PIL_laws pil)
         (image_bytes_list : list (list byte)) (images : list Image)
         (first canvas0 canvas : Image) (plog : list event) (data : list byte),
    Forall2 opens image_bytes_list images ->
    hd_error images = Some first ->
    Image_new "RGB" (width first, sum_heights images) = inr canvas0 ->
    paste_all images canvas0 0 = (plog, inr canvas) ->
    save canvas "PNG" = inr data ->
    merge_images image_bytes_list = Some (mkBytesIO data 0) /\
    size canvas = (width first, sum_heights images) /\
    mode canvas = "RGB"%string /\
    List.length plog = List.length images /\
    (forall j im, nth_error images j = Some im ->
       exists cj, nth_error plog j
                  = Some (Call_paste cj im (0, sum_heights (firstn j images)))) /\
    (forall j im x y,
       nth_error images j = Some im ->
       0 <= x < width im -> x < width first -> 0 <= y < height im ->
       getpixel canvas (x, sum_heights (firstn j images) + y) = getpixel im (x, y)).
Proof.
  intros pil laws l images first c0 c plog data HF Hf Hn Hp Hs.
  split.
  { apply merge_images_value.
    - intros ->. inversion HF; subst. discriminate.
    - eapply merge_images_try_ok; eauto. }
  destruct (merged_canvas l images first c0 plog c HF Hf Hn Hp)
    as (Hsz & Hmd & Hpix).
  destruct (paste_all_log _ _ _ _ _ Hp) as [Hlen Hlog].
  repeat split; auto.
Qed.

Lemma merge_images_stacks_top_to_bottom_witness :
  merge_images (pil := Raster.pillow) [Sample.strip_a_png; Sample.strip_b_png]
  = Some (mkBytesIO Sample.merged_png 0) /\
  size (PIL := Raster.pillow) Sample.canvas
  = (width (pil := Raster.pillow) Sample.strip_a,
     sum_heights (pil := Raster.pillow) [Sample.strip_a; Sample.strip_b]) /\
  mode (PIL := Raster.pillow) Sample.canvas = "RGB"%string /\
  List.length (fst Sample.pastes) = 2%nat /\
  (forall j im, nth_error [Sample.strip_a; Sample.strip_b] j = Some im ->
     exists cj, nth_error (fst Sample.pastes) j
                = Some (Call_paste (pil := Raster.pillow) cj im
                          (0, sum_heights (pil := Raster.pillow)
                                (firstn j [Sample.strip_a; Sample.strip_b])))) /\
  (forall j im x y,
     nth_error [Sample.strip_a; Sample.strip_b] j = Some im ->
     0 <= x < width (pil := Raster.pillow) im ->
     x < width (pil := Raster.pillow) Sample.strip_a ->
     0 <= y < height (pil := Raster.pillow) im ->
     getpixel (PIL := Raster.pillow) Sample.canvas
       (x, sum_heights (pil := Raster.pillow)
             (firstn j [Sample.strip_a; Sample.strip_b]) + y)
     = getpixel (PIL := Raster.pillow) im (x, y)).
Proof.
  apply (merge_images_stacks_top_to_bottom Raster.pillow RasterFacts.pillow_laws
           [Sample.strip_a_png; Sample.strip_b_png]
           [Sample.strip_a; Sample.strip_b]
           Sample.strip_a Sample.canvas0 Sample.canvas (fst Sample.pastes)
           Sample.merged_png).
  - repeat constructor; vm_compute; reflexivity.
  - reflexivity.
  - vm_compute. reflexivity.
  - vm_compute. reflexivity.
  - vm_compute. reflexivity.
Defined.

(** The example of the specification: heights 50 and 60 give a canvas of
    height 110, the first strip in rows 0-49 and the second in rows
    50-109. *)
Lemma merge_50_60 :
  size (PIL := Raster.pillow) Sample.canvas = (2, 110) /\
  (forall x y, 0 <= x < 2 -> 0 <= y < 50 ->
     getpixel (PIL := Raster.pillow) Sample.canvas (x, y) = Sample.red) /\
  (forall x y, 0 <= x < 2 -> 50 <= y < 110 ->
     getpixel (PIL := Raster.pillow) Sample.canvas (x, y) = Sample.green).
Proof.
  split; [reflexivity |]. split; intros x y Hx Hy.
  - assert (Hc : x = 0 \/ x = 1) by lia.
    assert (Hy' : exists k, (k < 50)%nat /\ y = Z.of_nat k)
      by (exists (Z.to_nat y); lia).
    destruct Hy' as (k & Hk & ->).
    do 50 (destruct k as [| k]; [destruct Hc as [-> | ->]; reflexivity |]). lia.
  - assert (Hc : x = 0 \/ x = 1) by lia.
    assert (Hy' : exists k, (k < 60)%nat /\ y = 50 + Z.of_nat k)
      by (exists (Z.to_nat (y - 50)); lia).
    destruct Hy' as (k & Hk & ->).
    do 60 (destruct k as [| k]; [destruct Hc as [-> | ->]; reflexivity |]). lia.
Qed.

(** Widths are not compared: a strip 2 wide followed by an image 100 wide
    merges, without an error, into a canvas 2 wide. *)
Lemma merge_mismatched_widths :
  match merge_images (pil := Raster.pillow) [Sample.strip_a_png; Sample.photo_png] with
  | Some buf =>
      match Image_open (PIL := Raster.pillow) (getvalue buf) with
      | inr im => Some (size im)
      | inl _ => None
      end
  | None => None
  end = Some (2, 54).
Proof. vm_compute. reflexivity. Qed.

(** C9.  [merge_images] asks for no second image: on a list of one image
    that decodes, and a run whose [Image.new], [paste] and [save] calls
    return, it returns the rewound buffer with the PNG encoding of an RGB
    canvas of the size of that image, holding its pixels. *)
Theorem merge_images_single_image :
  forall (pil : PIL) (laws : PIL_laws pil)
         (image_bytes : list byte) (im canvas0 canvas : Image) (data : list byte),
    Image_open image_bytes = inr im ->
    Image_new "RGB" (size im) = inr canvas0 ->
    paste canvas0 im (0, 0) = inr canvas ->
    save canvas "PNG" = inr data ->
    merge_images [image_bytes] = Some (mkBytesIO data 0) /\
    size canvas = size im /\
    mode canvas = "RGB"%string /\
    (forall x y, 0 <= x < width im -> 0 <= y < height im ->
       getpixel canvas (x, y) = getpixel im (x, y)).
Proof.
  intros pil laws b im c0 c data Ho Hn Hp Hs.
  assert (Hsz : (width im, sum_heights [im]) = size im).
  { unfold width, sum_heights, height. simpl. now destruct (size im). }
  assert (HF : Forall2 opens [b] [im]) by (repeat constructor; exact Ho).
  assert (Hn' : Image_new "RGB" (width im, sum_heights [im]) = inr c0)
    by now rewrite Hsz.
  assert (Hp' : paste_all [im] c0 0 = ([Call_paste c0 im (0, 0)], inr c)).
  { cbn [paste_all]. unfold call, bind. rewrite Hp. reflexivity. }
  split.
  { apply merge_images_value; [discriminate |].
    eapply merge_images_try_ok; eauto. reflexivity. }
  destruct (merged_canvas [b] [im] im c0 _ c HF eq_refl Hn' Hp')
    as (Hsize & Hmd & Hpix).
  split; [congruence |]. split; [assumption |].
  intros x y Hx Hy.
  specialize (Hpix 0%nat im x y eq_refl Hx (proj2 Hx) Hy).
  simpl in Hpix. exact Hpix.
Qed.

Lemma merge_images_single_image_witness :
  merge_images (pil := Raster.pillow) [Sample.strip_a_png]
  = Some (mkBytesIO Sample.single_png 0) /\
  size (PIL := Raster.pillow) Sample.single = size (PIL := Raster.pillow) Sample.strip_a /\
  mode (PIL := Raster.pillow) Sample.single = "RGB"%string /\
  (forall x y,
     0 <= x < width (pil := Raster.pillow) Sample.strip_a ->
     0 <= y < height (pil := Raster.pillow) Sample.strip_a ->
     getpixel (PIL := Raster.pillow) Sample.single (x, y)
     = getpixel (PIL := Raster.pillow) Sample.strip_a (x, y)).
Proof.
  apply (merge_images_single_image Raster.pillow RasterFacts.pillow_laws
           Sample.strip_a_png Sample.strip_a Sample.single0 Sample.single
           Sample.single_png).
  - vm_compute. reflexivity.
  - vm_compute. reflexivity.
  - vm_compute. reflexivity.
  - vm_compute. reflexivity.
Defined.

(** *** One buffer per row (C4) *)

(** The claim as stated fails on an image that is 1 pixel high cut into 2
    rows: the image decodes, the arguments pass validation, the first strip
    is empty, [resize] refuses the empty target, and the result is the
    empty list, not two buffers. *)
Lemma one_buffer_per_row_counterexample :
  Image_open (PIL := Raster.pillow) Sample.thin_png = inr Sample.thin /\
  size (PIL := Raster.pillow) Sample.thin = (4, 1) /\
  0 < 2 /\
  in_domain f1_0 f3_0 f1_5 = true /\
  in_domain f0_5 f4_0 f2_0 = true /\
  biggify_image (pil := Raster.pillow) Sample.thin_png 2 f1_5 f2_0 = [] /\
  List.length (biggify_image (pil := Raster.pillow) Sample.thin_png 2 f1_5 f2_0)
  <> Z.to_nat 2 /\
  snd (biggify_image_try (pil := Raster.pillow) Sample.thin_png 2 f1_5 f2_0)
  = inl (Exc "ValueError" "height and width must be > 0").
Proof.
  repeat split; try (vm_compute; reflexivity); try lia.
  vm_compute. discriminate.
Qed.

(** C4, amended.  For an image that decodes, [rows > 0] and factors in
    their domains: when no call of the run raises, [biggify_image] returns
    exactly [rows] buffers, each of which decodes; when one raises it
    returns the empty list. *)
Theorem one_buffer_per_row_unless_a_call_raises :
  forall (pil : PIL) (laws : PIL_laws pil)
         (image_bytes : list byte) (orig : Image) (rows : Z)
         (stretch_factor output_scale_factor : float),
    Image_open image_bytes = inr orig ->
    0 < rows ->
    in_domain f1_0 f3_0 stretch_factor = true ->
    in_domain f0_5 f4_0 output_scale_factor = true ->
    (forall l,
       snd (biggify_image_try image_bytes rows stretch_factor output_scale_factor)
       = inr l ->
       biggify_image image_bytes rows stretch_factor output_scale_factor = l /\
       Z.of_nat (List.length l) = rows /\
       Forall (fun buf => exists im, Image_open (getvalue buf) = inr im) l) /\
    (forall e,
       snd (biggify_image_try image_bytes rows stretch_factor output_scale_factor)
       = inl e ->
       biggify_image image_bytes rows stretch_factor output_scale_factor = []).
Proof.
  intros pil laws image_bytes orig rows sf osf Ho Hrows Hsf Hosf. split.
  - intros l Hl. split; [now apply biggify_image_value |].
    destruct (biggify_image_try image_bytes rows sf osf) as [log r] eqn:Ht.
    simpl in Hl. subst r.
    apply biggify_image_try_value in Ht
      as (orig' & _ & [(msg & Hmsg & _) | (_ & Hlen & Hall)]).
    + exfalso. revert Hmsg. unfold first_failing_check.
      rewrite Hsf, Hosf.
      replace (rows <=? 0) with false by (symmetry; apply Z.leb_gt; lia).
      discriminate.
    + split; [lia |].
      eapply Forall_impl; [| exact Hall].
      intros buf (_ & im & Hs).
      apply save_decodable in Hs as (im' & Hd & _). eauto.
  - intros e He. now apply biggify_image_raised with (e := e).
Qed.

Lemma one_buffer_per_row_witness :
  (forall l,
     snd (biggify_image_try (pil := Raster.pillow) Sample.photo_png 4 f1_5 f2_0)
     = inr l ->
     biggify_image (pil := Raster.pillow) Sample.photo_png 4 f1_5 f2_0 = l /\
     Z.of_nat (List.length l) = 4 /\
     Forall (fun buf => exists im,
                 Image_open (PIL := Raster.pillow) (getvalue buf) = inr im) l) /\
  (forall e,
     snd (biggify_image_try (pil := Raster.pillow) Sample.photo_png 4 f1_5 f2_0)
     = inl e ->
     biggify_image (pil := Raster.pillow) Sample.photo_png 4 f1_5 f2_0 = []).
Proof.
  apply (one_buffer_per_row_unless_a_call_raises Raster.pillow
           RasterFacts.pillow_laws Sample.photo_png Sample.photo 4 f1_5 f2_0).
  - vm_compute. reflexivity.
  - lia.
  - reflexivity.
  - reflexivity.
Defined.

(** The run of the witness does return its four buffers. *)
Lemma photo_in_four_rows :
  List.length (biggify_image (pil := Raster.pillow) Sample.photo_png 4 f1_5 f2_0)
  = 4%nat.
Proof. vm_compute. reflexivity. Qed.

(** *** Strips (C1) *)

(** C1.  For a stretched image of width [W >= 0] and height [H] (a Pillow
    dimension, below [2 ^ 31]) and [rows] between 1 and the largest int
    that converts to a float, the loop computes [rows] boxes, in the order
    of the strip index; they tile the image from row 0 to row [H]: each
    spans the full width, starts where the one before ended, has no
    negative side, the last ends at [H], and the heights add up to [H].
    Box [r] is the one of lines 60-69 for index [r], with
    [part_height = H / rows] in binary64.  These are the boxes the loop of
    [biggify_image] crops, in this order: all of them when it runs to its
    end, the first ones when a call raises. *)
Theorem strips_tile_the_stretched_image :
  forall (W H rows : Z),
    0 <= W -> 0 <= H < 2 ^ 31 -> 0 < rows < float_int_limit ->
    exists (part_height : float) (bs : list box),
      int_truediv H rows = inr part_height /\
      strip_boxes W H rows = inr bs /\
      Z.of_nat (List.length bs) = rows /\
      tiles_from 0 W bs H /\
      fold_right Z.add 0 (map strip_height bs) = H /\
      Forall (fun b => strip_width b = W /\ 0 <= strip_width b /\
                       0 <= strip_height b) bs /\
      (forall r, 0 <= r < rows ->
         strip_box W H rows part_height r
         = inr (nth (Z.to_nat r) bs (0, 0, 0, 0))) /\
      (forall (pil : PIL) (original_img stretched_img : Image)
              (output_scale_factor : float),
         exists rest,
           bs = cropped_boxes
                  (fst (for_range (Z.to_nat rows) 0
                          (strip_iteration original_img stretched_img W H rows
                             part_height output_scale_factor) []))
                ++ rest /\
           (forall l,
              snd (for_range (Z.to_nat rows) 0
                     (strip_iteration original_img stretched_img W H rows
                        part_height output_scale_factor) []) = inr l ->
              rest = [])).
Proof.
  intros W H rows HW HH Hrows.
  destruct (strip_boxes_value W H rows HH Hrows) as (ph & Hdiv & Hbs & Ht & Hnth).
  exists ph, (boxes_from W H rows (sv ph) (Z.to_nat rows) 0).
  split; [assumption |]. split; [assumption |].
  split; [rewrite length_boxes_from; lia |].
  split; [assumption |].
  split; [rewrite (tiles_from_heights _ _ _ _ Ht); lia |].
  split; [eapply tiles_from_Forall; eauto |].
  split; [assumption |].
  intros pil orig st osf. apply for_range_crops.
  unfold strip_boxes in Hbs. rewrite Hdiv in Hbs. exact Hbs.
Qed.

Lemma strips_tile_the_stretched_image_witness :
  exists (part_height : float) (bs : list box),
    int_truediv 101 4 = inr part_height /\
    strip_boxes 150 101 4 = inr bs /\
    Z.of_nat (List.length bs) = 4 /\
    tiles_from 0 150 bs 101 /\
    fold_right Z.add 0 (map strip_height bs) = 101 /\
    Forall (fun b => strip_width b = 150 /\ 0 <= strip_width b /\
                     0 <= strip_height b) bs /\
    (forall r, 0 <= r < 4 ->
       strip_box 150 101 4 part_height r
       = inr (nth (Z.to_nat r) bs (0, 0, 0, 0))) /\
    (forall (pil : PIL) (original_img stretched_img : Image)
            (output_scale_factor : float),
       exists rest,
         bs = cropped_boxes
                (fst (for_range (Z.to_nat 4) 0
                        (strip_iteration original_img stretched_img 150 101 4
                           part_height output_scale_factor) []))
              ++ rest /\
         (forall l,
            snd (for_range (Z.to_nat 4) 0
                   (strip_iteration original_img stretched_img 150 101 4
                      part_height output_scale_factor) []) = inr l ->
            rest = [])).
Proof.
  apply (strips_tile_the_stretched_image 150 101 4).
  - lia.
  - split; [lia | reflexivity].
  - split; [lia | reflexivity].
Defined.

(** The example of the specification: height 101 in 4 rows gives strips
    of heights 25, 25, 25 and 26. *)
Lemma strips_101_in_4 :
  strip_boxes 150 101 4
  = inr [(0, 0, 150, 25); (0, 25, 150, 50); (0, 50, 150, 75); (0, 75, 150, 101)] /\
  map strip_height
    [(0, 0, 150, 25); (0, 25, 150, 50); (0, 50, 150, 75); (0, 75, 150, 101)]
  = [25; 25; 25; 26].
Proof. split; vm_compute; reflexivity. Qed.

(** The boundaries are computed in binary64: for height 122 in 14 rows,
    strip 7 starts at row 60, where the exact quotient [7 * 122 / 14] is
    61.  The strips tile the image all the same. *)
Lemma binary64_boundary_example :
  (exists ph, int_truediv 122 14 = inr ph /\ int_of_product 7 ph = inr 60) /\
  7 * 122 / 14 = 61.
Proof.
  split; [| reflexivity].
  eexists. split; vm_compute; reflexivity.
Qed.

(** *** Stretched and rescaled sizes (C6) *)

Lemma strip_box_shape cw ch rows ph r bx :
  strip_box cw ch rows ph r = inr bx -> exists t b, bx = (0, t, cw, b).
Proof.
  unfold strip_box.
  destruct (int_of_product r ph) as [e | t]; [discriminate |]. cbn [bindR].
  destruct (int_of_product (r + 1) ph) as [e | b]; [discriminate |]. cbn [bindR].
  intros H. injection H as <-. eauto.
Qed.

(** One turn of the loop appends a buffer holding a strip of the scaled
    width. *)
Lemma strip_iteration_scaled (pil : PIL) (laws : PIL_laws pil)
    orig st sw ch rows ph osf r acc log l :
  0 <= sw ->
  strip_iteration orig st sw ch rows ph osf r acc = (log, inr l) ->
  exists buf,
    l = acc ++ [buf] /\
    exists im, Image_open (getvalue buf) = inr im /\
               scaled_width sw osf (width im).
Proof.
  intros Hsw H. apply strip_iteration_value in H
    as (bx & strip & strip' & data & log' & Hbx & Hc & Hs & Hd & -> & _).
  destruct (strip_box_shape _ _ _ _ _ _ Hbx) as (t & b & ->).
  assert (Hws : width strip = sw).
  { unfold width. rewrite (crop_size _ _ _ _ _ _ Hc). cbn [fst]. lia. }
  exists (mkBytesIO data 0). split; [reflexivity |].
  destruct (save_decodable _ _ _ Hd) as (im & Him & Hsz).
  exists im. split; [exact Him |].
  unfold width at 1. rewrite Hsz. fold (width strip').
  unfold scaled_width.
  apply scale_strip_value in Hs
    as [(Hone & -> & _) | (Hne & w & h & Hw & Hh & Hrs & _)].
  - now rewrite Hone.
  - rewrite Hne. destruct (resize_size _ _ _ _ Hrs) as (Hsz' & _ & _).
    unfold width at 1. rewrite Hsz'. cbn [fst]. now rewrite <- Hws.
Qed.

(** C6.  For a decoded image of width [W], [rows > 0], a stretch factor
    in [1.0, 3.0] and an output scale factor in [0.5, 4.0] (both binary64
    numbers): [int(W * stretch_factor)] is a number [sw >= 0], the product
    taken in binary64 and truncated; the first thing the run asks of
    Pillow after decoding is to resize the image to [sw] columns at its own
    height; every strip is cropped over the full [sw] columns; a strip is
    rescaled to the truncated products of its width and height with the
    output scale factor; a saved strip is [sw] wide when the factor is 1.0
    and [int(sw * output_scale_factor)] wide otherwise; and every returned
    buffer decodes to an image of that width. *)
Theorem stretched_width_is_truncated_product :
  forall (pil : PIL) (laws : PIL_laws pil)
         (image_bytes : list byte) (orig : Image) (rows : Z)
         (stretch_factor output_scale_factor : float),
    Image_open image_bytes = inr orig ->
    0 < rows ->
    valid_binary prec emax stretch_factor = true ->
    in_domain f1_0 f3_0 stretch_factor = true ->
    valid_binary prec emax output_scale_factor = true ->
    in_domain f0_5 f4_0 output_scale_factor = true ->
    exists sw,
      int_of_product (width orig) stretch_factor = inr sw /\
      0 <= sw /\
      (exists rest,
         fst (biggify_image_run image_bytes rows stretch_factor output_scale_factor)
         = Call_open image_bytes
           :: Call_resize orig (sw, height orig) LANCZOS :: rest) /\
      Forall (stretch_event orig sw output_scale_factor)
        (fst (biggify_image_run image_bytes rows stretch_factor output_scale_factor)) /\
      (forall buf,
         In buf (biggify_image image_bytes rows stretch_factor output_scale_factor) ->
         exists im, Image_open (getvalue buf) = inr im /\
                    scaled_width sw output_scale_factor (width im)).
Proof.
  intros pil laws image_bytes orig rows sf osf Ho Hrows Hvs Hsf Hvo Hosf.
  destruct (open_size _ _ Ho) as [HW HHt].
  destruct (stretch_factor_bounds sf Hvs Hsf) as (Hsn & Hss & Hsv).
  destruct (int_of_product_small (width orig) sf) as [Hsw Hsw0]; auto.
  { split; [lia |]. eapply Z.lt_le_trans; [apply HW |].
    apply Z.pow_le_mono_r; lia. }
  set (sw := truncated_product (sv sf) (width orig)) in *.
  exists sw. split; [assumption |]. split; [assumption |].
  assert (Hchecks : (rows <=? 0) = false /\
                    negb (fleb f1_0 sf && fleb sf f3_0) = false /\
                    negb (fleb f0_5 osf && fleb osf f4_0) = false).
  { unfold in_domain in Hsf, Hosf. rewrite Hsf, Hosf.
    repeat split. apply Z.leb_gt. lia. }
  destruct Hchecks as (Hc1 & Hc2 & Hc3).
  assert (Hsize : size orig = (width orig, height orig))
    by (unfold width, height; now destruct (size orig)).
  split; [| split].
  - (* the first two events *)
    unfold biggify_image_run, biggify_image_try.
    rewrite Ho. unfold call at 1. unfold bind at 1.
    rewrite Hsize, Hc1, Hc2, Hc3, Hsw. unfold lift, bind at 1.
    match goal with
    | |- context [bind (call ?ev ?r) ?k] =>
        destruct (bind (call ev r) k) as [l res] eqn:Hb;
        assert (Hl : exists rest, l = ev :: rest)
    end.
    { unfold call, bind in Hb.
      destruct (resize orig (sw, height orig) LANCZOS) as [e | st].
      - injection Hb as <- _. eauto.
      - match type of Hb with
        | (let '(l', r) := ?x in _) = _ => destruct x as [l' r']
        end.
        injection Hb as <- _. eauto. }
    destruct Hl as [rest ->].
    destruct res as [e | v]; cbn [try_except app fst]; [| eauto].
    destruct (print _ ;;; ret _) as [l' r']. cbn [fst]. eauto.
  - (* every event *)
    unfold biggify_image_run. apply try_except_events.
    2:{ intros e. simpl. repeat constructor. }
    unfold biggify_image_try.
    apply bind_events; [apply call_events; exact I |].
    intros orig' Ho'. cbn [call snd] in Ho'. rewrite Ho in Ho'.
    injection Ho' as <-.
    rewrite Hsize, Hc1, Hc2, Hc3, Hsw.
    apply bind_events; [apply lift_events |]. intros sw' Hsw'.
    cbn [lift snd] in Hsw'. injection Hsw' as <-.
    apply bind_events.
    { apply call_events. cbn [stretch_event]. auto. }
    intros st Hst. cbn [call snd] in Hst.
    destruct (resize_size _ _ _ _ Hst) as (Hstsz & _ & _).
    rewrite Hstsz.
    apply bind_events; [apply lift_events |]. intros ph _.
    apply for_range_events. intros r acc. unfold strip_iteration.
    apply bind_events; [apply lift_events |]. intros bx Hbx.
    cbn [lift snd] in Hbx.
    destruct (strip_box_shape _ _ _ _ _ _ Hbx) as (t & b & ->).
    apply bind_events.
    { apply call_events. cbn [stretch_event]. split; [assumption | eauto]. }
    intros strip Hstrip. cbn [call snd] in Hstrip.
    assert (Hws : width strip = sw).
    { unfold width. rewrite (crop_size _ _ _ _ _ _ Hstrip). cbn [fst]. lia. }
    apply bind_events.
    { unfold scale_strip. destruct (negb (feqb osf f1_0)); [| apply ret_events].
      apply bind_events; [apply lift_events |]. intros w Hw.
      apply bind_events; [apply lift_events |]. intros h Hh.
      cbn [lift snd] in Hw, Hh.
      apply call_events. cbn [stretch_event fst snd]. auto. }
    intros strip' Hstrip'.
    apply bind_events; [| intros data _; apply ret_events].
    apply call_events. cbn [stretch_event]. unfold scaled_width.
    destruct (scale_strip strip osf) as [lg res] eqn:Hsc.
    cbn [snd] in Hstrip'. subst res.
    apply scale_strip_value in Hsc
      as [(Hone & -> & _) | (Hne & w & h & Hw & Hh & Hrs & _)].
    + now rewrite Hone.
    + rewrite Hne. destruct (resize_size _ _ _ _ Hrs) as (Hsz' & _ & _).
      unfold width at 1. rewrite Hsz'. cbn [fst]. now rewrite <- Hws.
  - (* the returned buffers *)
    intros buf Hin.
    destruct (biggify_image_cases image_bytes rows sf osf)
      as [Hnil | (log & l & Ht & Hl)].
    { rewrite Hnil in Hin. destruct Hin. }
    rewrite Hl in Hin. unfold biggify_image_try in Ht.
    apply bind_inr_inv in Ht as (l1 & orig' & l2 & Ho' & Ht & _).
    apply call_inr_inv in Ho' as [Ho' _]. rewrite Ho in Ho'.
    injection Ho' as <-.
    rewrite Hsize, Hc1, Hc2, Hc3, Hsw in Ht.
    apply bind_inr_inv in Ht as (l3 & sw' & l4 & Hsw' & Ht & _).
    apply lift_inr_inv in Hsw' as [Hsw' _]. injection Hsw' as <-.
    apply bind_inr_inv in Ht as (l5 & st & l6 & Hst & Ht & _).
    apply call_inr_inv in Hst as [Hst _].
    destruct (resize_size _ _ _ _ Hst) as (Hstsz & _ & _).
    rewrite Hstsz in Ht.
    apply bind_inr_inv in Ht as (l7 & ph & l8 & _ & Ht & _).
    apply for_range_appends
      with (P := fun buf => exists im, Image_open (getvalue buf) = inr im /\
                                       scaled_width sw osf (width im)) in Ht.
    + destruct Ht as (xs & -> & _ & Hall). cbn [app] in Hin.
      rewrite Forall_forall in Hall. auto.
    + intros r acc lg l'. now apply strip_iteration_scaled.
Qed.

Lemma stretched_width_is_truncated_product_witness :
  exists sw,
    int_of_product (width Sample.photo) f1_5 = inr sw /\
    0 <= sw /\
    (exists rest,
       fst (biggify_image_run (pil := Raster.pillow) Sample.photo_png 4 f1_5 f2_0)
       = Call_open Sample.photo_png
         :: Call_resize Sample.photo (sw, height Sample.photo) LANCZOS :: rest) /\
    Forall (stretch_event Sample.photo sw f2_0)
      (fst (biggify_image_run (pil := Raster.pillow) Sample.photo_png 4 f1_5 f2_0)) /\
    (forall buf,
       In buf (biggify_image (pil := Raster.pillow) Sample.photo_png 4 f1_5 f2_0) ->
       exists im, Image_open (getvalue buf) = inr im /\
                  scaled_width sw f2_0 (width im)).
Proof.
  apply (stretched_width_is_truncated_product Raster.pillow RasterFacts.pillow_laws
           Sample.photo_png Sample.photo 4 f1_5 f2_0);
    [vm_compute; reflexivity | lia | reflexivity ..].
Defined.

(** Width 100 stretched by 1.5 is 150; the four strips of the 100 x 4
    sample are cropped 150 wide and, rescaled by 2.0, saved and returned
    300 wide. *)
Lemma stretch_100_by_1_5_scale_2_0 :
  int_of_product 100 f1_5 = inr 150 /\
  int_of_product 150 f2_0 = inr 300 /\
  cropped_boxes
    (fst (biggify_image_run (pil := Raster.pillow) Sample.photo_png 4 f1_5 f2_0))
  = [(0, 0, 150, 1); (0, 1, 150, 2); (0, 2, 150, 3); (0, 3, 150, 4)] /\
  saved_sizes
    (fst (biggify_image_run (pil := Raster.pillow) Sample.photo_png 4 f1_5 f2_0))
  = [(300, 2); (300, 2); (300, 2); (300, 2)] /\
  map (fun buf => match Image_open (PIL := Raster.pillow) (getvalue buf) with
                  | inr im => Some (size im)
                  | inl _ => None
                  end)
    (biggify_image (pil := Raster.pillow) Sample.photo_png 4 f1_5 f2_0)
  = [Some (300, 2); Some (300, 2); Some (300, 2); Some (300, 2)].
Proof. repeat split; vm_compute; reflexivity. Qed.

(** The product is taken in binary64 before it is truncated: three times
    the float nearest to 4/3 rounds to 4.0, where the exact product of the
    two numbers is below 4. *)
Lemma binary64_product_example :
  valid_binary prec emax (S754_finite false 6004799503160661 (-52)) = true /\
  in_domain f1_0 f3_0 (S754_finite false 6004799503160661 (-52)) = true /\
  int_of_product 3 (S754_finite false 6004799503160661 (-52)) = inr 4 /\
  3 * 6004799503160661 / 2 ^ 52 = 3.
Proof. repeat split; vm_compute; reflexivity. Qed.
(* ===================================================================== *)
(** ** Further properties of the two image functions *)
(* ===================================================================== *)

Section MergeFailure.

Context {pil : PIL}.

(** The decoding loop stops at the first element that does not decode. *)
Lemma open_all_stops pre : forall ims acc b e post,
  Forall2 opens pre ims -> Image_open b = inl e ->
  open_all (pre ++ b :: post) acc = (map Call_open pre ++ [Call_open b], inl e).
Proof.
  induction pre as [| p pre IH]; intros ims acc b e post HF Hb;
    inversion HF as [| ? im ? ims' Ho HF']; subst; cbn [app open_all map].
  - unfold call, bind. now rewrite Hb.
  - unfold opens in Ho. rewrite Ho. unfold call, bind at 1.
    rewrite (IH ims' (acc ++ [im]) b e post HF' Hb). reflexivity.
Qed.

End MergeFailure.

(** X1.  When an element of the list does not decode, [merge_images]
    decodes the elements before it, tries this one, prints the message of
    the exception and returns [None]: the elements after it are not
    looked at, and no canvas is allocated, pasted on or saved. *)
Theorem merge_images_stops_at_first_undecodable :
  forall (pil : PIL) (pre : list (list byte)) (images : list Image)
         (b : list byte) (e : exn) (post : list (list byte)),
    Forall2 opens pre images ->
    Image_open b = inl e ->
    merge_images_run (pre ++ b :: post)
    = (map Call_open pre
       ++ [Call_open b; Printed ("Error merging images: " ++ str_exn e)],
       inr None) /\
    merge_images (pre ++ b :: post) = None.
Proof.
  intros pil pre images b e post HF Hb.
  assert (Hrun : merge_images_run (pre ++ b :: post)
                 = (map Call_open pre
                    ++ [Call_open b; Printed ("Error merging images: " ++ str_exn e)],
                    inr None)).
  { unfold merge_images_run.
    destruct (pre ++ b :: post) as [| x xs] eqn:Hl.
    { destruct pre; discriminate. }
    rewrite <- Hl. unfold merge_images_try.
    rewrite (open_all_stops pre images [] b e post HF Hb).
    cbn [bind try_except print ret]. rewrite <- app_assoc. reflexivity. }
  split; [exact Hrun |]. unfold merge_images. now rewrite Hrun.
Qed.

Lemma merge_images_stops_at_first_undecodable_witness :
  merge_images_run (pil := Raster.pillow)
    ([Sample.strip_a_png] ++ [] :: [Sample.strip_b_png])
  = (map Call_open [Sample.strip_a_png]
     ++ [Call_open [];
         Printed ("Error merging images: "
                  ++ str_exn (Exc "UnidentifiedImageError"
                                "cannot identify image file"))],
     inr None) /\
  merge_images (pil := Raster.pillow)
    ([Sample.strip_a_png] ++ [] :: [Sample.strip_b_png]) = None.
Proof.
  apply (merge_images_stops_at_first_undecodable Raster.pillow
           [Sample.strip_a_png] [Sample.strip_a] []
           (Exc "UnidentifiedImageError" "cannot identify image file")
           [Sample.strip_b_png]).
  - repeat constructor; vm_compute; reflexivity.
  - vm_compute. reflexivity.
Defined.

Section MergeResult.

Context {pil : PIL} {laws : PIL_laws pil}.

(** What a returned buffer of [merge_images] tells about the run. *)
Lemma merge_images_some_size l buf :
  merge_images l = Some buf ->
  exists images first im,
    Forall2 opens l images /\
    hd_error images = Some first /\
    Image_open (getvalue buf) = inr im /\
    size im = (width first, sum_heights images).
Proof.
  intros H. apply merge_images_some in H as [log H].
  apply merge_images_try_value in H
    as (images & first & c0 & plog & c & data & HF & Hf & Hn & Hp & Hs & -> & _).
  destruct (merged_canvas l images first c0 plog c HF Hf Hn Hp) as (Hsz & _ & _).
  destruct (save_decodable _ _ _ Hs) as (im & Him & Hsz').
  exists images, first, im. cbn [getvalue].
  repeat split; try assumption. congruence.
Qed.

End MergeResult.

(** X2.  [merge_images] returns a buffer only when every element of the
    list decodes; the buffer then decodes to an image as wide as the first
    input and as high as all inputs together. *)
Theorem merge_images_returns_only_for_decodable_inputs :
  forall (pil : PIL) (laws : PIL_laws pil)
         (image_bytes_list : list (list byte)) (buf : BytesIO),
    merge_images image_bytes_list = Some buf ->
    exists (images : list Image) (first merged : Image),
      Forall2 opens image_bytes_list images /\
      hd_error images = Some first /\
      Image_open (getvalue buf) = inr merged /\
      width merged = width first /\
      height merged = sum_heights images.
Proof.
  intros pil laws l buf H.
  destruct (merge_images_some_size l buf H) as (images & first & im & HF & Hf & Ho & Hsz).
  exists images, first, im. unfold width at 1, height at 1. rewrite Hsz.
  repeat split; assumption.
Qed.

Lemma merge_images_returns_only_for_decodable_inputs_witness :
  exists (images : list Raster.image) (first merged : Raster.image),
    Forall2 (opens (pil := Raster.pillow))
      [Sample.strip_a_png; Sample.strip_b_png] images /\
    hd_error images = Some first /\
    Image_open (PIL := Raster.pillow)
      (getvalue (mkBytesIO Sample.merged_png 0)) = inr merged /\
    width (pil := Raster.pillow) merged = width (pil := Raster.pillow) first /\
    height (pil := Raster.pillow) merged
    = sum_heights (pil := Raster.pillow) images.
Proof.
  apply (merge_images_returns_only_for_decodable_inputs Raster.pillow
           RasterFacts.pillow_laws [Sample.strip_a_png; Sample.strip_b_png]
           (mkBytesIO Sample.merged_png 0)).
  vm_compute. reflexivity.
Defined.

(* ===================================================================== *)
(** ** Exact products *)
(* ===================================================================== *)

(** a number of at most 53 bits, scaled, is its own rounding *)
Lemma round_mantissa kmin z k :
  0 <= kmin -> kmin <= k -> 0 <= z < 2 ^ 53 ->
  round kmin (z * 2 ^ k) = z * 2 ^ k.
Proof.
  intros Hk Hkk Hz. destruct (Z.eq_dec z 0) as [-> | Hne].
  { rewrite Z.mul_0_l. now apply round_0. }
  assert (Hd : Zdigits2 z <= 53) by (apply Zdigits2_le_of_lt; lia).
  pose proof (Zdigits2_pos z ltac:(lia)) as Hd0.
  assert (Hc : cexp kmin (z * 2 ^ k) <= k).
  { unfold cexp, prec. rewrite Zdigits2_shift by lia. lia. }
  assert (Hc0 : kmin <= cexp kmin (z * 2 ^ k)) by (unfold cexp; lia).
  apply round_exact with (q := z * 2 ^ (k - cexp kmin (z * 2 ^ k)));
    [assumption |].
  rewrite <- Z.mul_assoc, <- Z.pow_add_r by lia. do 2 f_equal. lia.
Qed.

(** [int(z * 2.0)] is [2 * z] *)
Lemma int_of_product_double z :
  0 <= z < 2 ^ 40 -> int_of_product z f2_0 = inr (2 * z).
Proof.
  intros Hz.
  assert (Hsv : sv f2_0 = 2 ^ 52 * 2 ^ 1023) by reflexivity.
  destruct (int_of_product_small z f2_0) as [Hv _]; try assumption.
  - cbn. lia.
  - cbn. lia.
  - rewrite Hsv, <- Z.pow_add_r by lia. apply Z.pow_lt_mono_r; lia.
  - rewrite Hv. f_equal. unfold truncated_product.
    assert (Hz53 : 0 <= z < 2 ^ 53).
    { split; [lia |]. eapply Z.lt_le_trans; [apply Hz |].
      apply Z.pow_le_mono_r; lia. }
    rewrite (round_mantissa 0 z 1074) by lia.
    rewrite Hsv, <- Z.pow_add_r, <- Z.mul_assoc, <- Z.pow_add_r by lia.
    rewrite (round_mantissa 1074 z (1074 + (52 + 1023))) by lia.
    replace (1074 + (52 + 1023)) with (1 + 1074 + 1074) by lia.
    rewrite !Z.pow_add_r, !Z.mul_assoc by lia.
    rewrite !Z.div_mul by (apply Z.pow_nonzero; lia).
    change (2 ^ 1) with 2. lia.
Qed.

(** [int(0 * f)], when it is a number, is 0 *)
Lemma int_of_product_zero f h : int_of_product 0 f = inr h -> h = 0.
Proof.
  unfold int_of_product, int_mul_float.
  change (float_of_int 0) with (@inr exn float (S754_zero false)).
  cbn [bindR]. unfold fmul.
  destruct f as [s | s | | s m e]; cbn [SFmul int_of_float];
    intros H; try discriminate; now injection H as <-.
Qed.

(** a row height below one pixel: [H / n] for [H < n] stays away from 1 *)
Lemma row_height_below_one H n P U :
  0 < U ->
  1 <= H < 2147483648 -> H < n -> 0 <= P ->
  n * P <= H * (8589934592 * U) + 4096 * U + n ->
  P <= 8589934592 * U - U.
Proof.
  intros HU HH Hn HP Hb.
  destruct (Z.le_gt_cases P (8589934592 * U - U)) as [Hle | Hgt]; [assumption |].
  exfalso.
  assert (H1 : n * (8589934592 * U - U + 1) <= n * P)
    by (apply Z.mul_le_mono_nonneg_l; lia).
  assert (H2 : H * (8589934592 * U) <= (n - 1) * (8589934592 * U))
    by (apply Z.mul_le_mono_nonneg_r; lia).
  destruct (Z.le_gt_cases n 4294967296) as [Hs | Hl].
  - assert (n * U <= 4294967296 * U) by (apply Z.mul_le_mono_nonneg_r; lia).
    nia.
  - assert (H3 : H * (8589934592 * U) <= 2147483647 * (8589934592 * U))
      by (apply Z.mul_le_mono_nonneg_r; lia).
    assert (H4 : 4294967297 * (8589934592 * U - U) <= n * (8589934592 * U - U))
      by (apply Z.mul_le_mono_nonneg_r; lia).
    nia.
Qed.

(** [int(1 * f)] is 0 for such a row height *)
Lemma truncated_product_below_one P :
  0 <= P <= 2 ^ 1074 - 2 ^ 1041 -> truncated_product P 1 = 0.
Proof.
  intros HP. unfold truncated_product.
  rewrite Z.mul_1_l, round_pow2 by lia.
  assert (Hp : 0 < 2 ^ 1074) by (apply Z.pow_pos_nonneg; lia).
  assert (Hq : 0 < 2 ^ 1041) by (apply Z.pow_pos_nonneg; lia).
  assert (E : 2 ^ 1074 = 2 ^ 33 * 2 ^ 1041)
    by (rewrite <- Z.pow_add_r by lia; reflexivity).
  assert (HB : round 1074 (2 ^ 1074 * (2 ^ 1074 - 2 ^ 1041))
               = (2 ^ 33 - 1) * 2 ^ (1041 + 1074)).
  { replace (2 ^ 1074 * (2 ^ 1074 - 2 ^ 1041))
      with ((2 ^ 33 - 1) * 2 ^ (1041 + 1074)).
    - apply round_mantissa; [lia | lia |].
      change (2 ^ 33 - 1) with 8589934591. split; [lia | reflexivity].
    - rewrite Z.pow_add_r by lia. rewrite E at 2. ring. }
  assert (Hr : 0 <= round 1074 (2 ^ 1074 * P) <= (2 ^ 33 - 1) * 2 ^ (1041 + 1074)).
  { split; [apply round_nonneg; nia |].
    rewrite <- HB. apply round_mono; [lia | nia |].
    apply Z.mul_le_mono_nonneg_l; lia. }
  rewrite Z.div_div by lia.
  apply Z.div_small. split; [lia |].
  eapply Z.le_lt_trans; [apply Hr |].
  rewrite Z.pow_add_r by lia. rewrite E at 3.
  assert (0 < 2 ^ 1041 * 2 ^ 1074) by nia.
  change (2 ^ 33 - 1) with 8589934591. change (2 ^ 33) with 8589934592. nia.
Qed.

(* ===================================================================== *)
(** ** More rows than pixel rows *)
(* ===================================================================== *)

Section ShortImage.

Context {pil : PIL} {laws : PIL_laws pil}.

(** The first strip of an image with fewer pixel rows than [rows] is
    empty. *)
Lemma first_strip_empty cw H rows ph :
  1 <= H < 2 ^ 31 -> H < rows ->
  int_truediv H rows = inr ph ->
  strip_box cw H rows ph 0 = inr (0, 0, cw, 0).
Proof.
  intros HH Hrows Hdiv.
  destruct (int_truediv_value H rows) as (ph' & Hdiv' & Hfin & Hsmall & Hb);
    [lia | lia |].
  rewrite Hdiv in Hdiv'. injection Hdiv' as <-.
  pose proof (sv_nonneg ph) as HP.
  assert (HU : 0 < 2 ^ 1041) by (apply Z.pow_pos_nonneg; lia).
  assert (E1 : 2 ^ 1074 = 8589934592 * 2 ^ 1041)
    by (change 8589934592 with (2 ^ 33); rewrite <- Z.pow_add_r by lia; reflexivity).
  assert (E2 : 2 ^ 1053 = 4096 * 2 ^ 1041)
    by (change 4096 with (2 ^ 12); rewrite <- Z.pow_add_r by lia; reflexivity).
  assert (Hle : sv ph <= 2 ^ 1074 - 2 ^ 1041).
  { rewrite E1. rewrite E1, E2 in Hb.
    apply (row_height_below_one H rows (sv ph) (2 ^ 1041)); try assumption; lia. }
  assert (Hlt : sv ph < 2 ^ 1077).
  { assert (2 ^ 1074 <= 2 ^ 1077) by (apply Z.pow_le_mono_r; lia). lia. }
  destruct (int_of_product_small 0 ph) as [H0 _]; try assumption.
  { split; [lia | reflexivity]. }
  destruct (int_of_product_small 1 ph) as [H1 _]; try assumption.
  { split; [lia | reflexivity]. }
  rewrite truncated_product_0 in H0.
  rewrite truncated_product_below_one in H1 by lia.
  unfold strip_box. change (0 + 1) with 1. rewrite H0, H1. cbn [bindR].
  replace (0 =? rows - 1) with false by (symmetry; apply Z.eqb_neq; lia).
  reflexivity.
Qed.

(** When the body of the [try] returns although the image has fewer pixel
    rows than [rows] and strips are rescaled, it returned at a failed
    check. *)
Lemma short_image_returns_nothing image_bytes orig rows sf osf log l :
  Image_open image_bytes = inr orig ->
  height orig < rows ->
  feqb osf f1_0 = false ->
  biggify_image_try image_bytes rows sf osf = (log, inr l) ->
  l = [].
Proof.
  intros Ho Hrows Hne Ht.
  destruct (open_size _ _ Ho) as [_ HH].
  unfold biggify_image_try in Ht.
  apply bind_inr_inv in Ht as (l1 & orig' & l2 & Ho' & Ht & _).
  apply call_inr_inv in Ho' as [Ho' _]. rewrite Ho in Ho'. injection Ho' as <-.
  assert (Hsize : size orig = (width orig, height orig))
    by (unfold width, height; now destruct (size orig)).
  rewrite Hsize in Ht.
  destruct (rows <=? 0); [now apply bind_inr_inv in Ht
                            as (? & ? & ? & _ & Hr & _); apply ret_inr_inv in Hr |].
  destruct (negb _); [now apply bind_inr_inv in Ht
                        as (? & ? & ? & _ & Hr & _); apply ret_inr_inv in Hr |].
  destruct (negb _); [now apply bind_inr_inv in Ht
                        as (? & ? & ? & _ & Hr & _); apply ret_inr_inv in Hr |].
  exfalso.
  apply bind_inr_inv in Ht as (l3 & sw & l4 & _ & Ht & _).
  apply bind_inr_inv in Ht as (l5 & st & l6 & Hst & Ht & _).
  apply call_inr_inv in Hst as [Hst _].
  destruct (resize_size _ _ _ _ Hst) as (Hstsz & _ & Hh1).
  cbn [snd] in Hh1. rewrite Hstsz in Ht.
  apply bind_inr_inv in Ht as (l7 & ph & l8 & Hph & Ht & _).
  apply lift_inr_inv in Hph as [Hph _].
  destruct (Z.to_nat rows) as [| n] eqn:Hn; [lia |].
  cbn [for_range] in Ht.
  apply bind_inr_inv in Ht as (l9 & acc & l10 & Hit & _ & _).
  apply strip_iteration_value in Hit
    as (bx & strip & strip' & data & lg & Hbx & Hc & Hs & _).
  rewrite (first_strip_empty sw (height orig) rows ph) in Hbx by (assumption || lia).
  injection Hbx as <-.
  apply crop_size in Hc.
  apply scale_strip_value in Hs
    as [(Hone & _) | (_ & w & h & _ & Hh & Hrs & _)]; [congruence |].
  unfold height in Hh. rewrite Hc in Hh. cbn [snd] in Hh.
  change (Z.max 0 (0 - 0)) with 0 in Hh.
  apply int_of_product_zero in Hh. subst h.
  destruct (resize_size _ _ _ _ Hrs) as (_ & _ & Hbad). cbn [snd] in Hbad. lia.
Qed.

Lemma short_image_result image_bytes orig rows sf osf :
  Image_open image_bytes = inr orig ->
  height orig < rows ->
  feqb osf f1_0 = false ->
  biggify_image image_bytes rows sf osf = [].
Proof.
  intros Ho Hrows Hne.
  destruct (biggify_image_cases image_bytes rows sf osf)
    as [Hnil | (log & l & Ht & Hl)]; [assumption |].
  rewrite Hl. eapply short_image_returns_nothing; eauto.
Qed.

End ShortImage.



(* ===================================================================== *)
(** ** Cutting, then merging *)
(* ===================================================================== *)

Section RoundTrip.

Context {pil : PIL} {laws : PIL_laws pil}.

(** The strip a turn of the loop leaves in its buffer: what decodes from
    the buffer has the size of the box, scaled. *)
Lemma strip_iteration_size orig st cw ch rows ph osf r acc log l bx :
  strip_box cw ch rows ph r = inr bx ->
  strip_iteration orig st cw ch rows ph osf r acc = (log, inr l) ->
  exists buf im,
    l = acc ++ [buf] /\ tell buf = 0%nat /\
    Image_open (getvalue buf) = inr im /\
    scaled_size osf (Z.max 0 (strip_width bx), Z.max 0 (strip_height bx)) (size im).
Proof.
  intros Hbx H. apply strip_iteration_value in H
    as (bx' & strip & strip' & data & lg & Hbx' & Hc & Hs & Hd & -> & _).
  rewrite Hbx in Hbx'. injection Hbx' as <-.
  destruct bx as [[[x0 t] x1] b].
  apply crop_size in Hc. cbn [strip_width strip_height].
  destruct (save_decodable _ _ _ Hd) as (im & Him & Hsz).
  exists (mkBytesIO data 0), im. cbn [getvalue tell].
  split; [reflexivity |]. split; [reflexivity |]. split; [assumption |].
  unfold scaled_size. rewrite Hsz.
  apply scale_strip_value in Hs
    as [(Hone & -> & _) | (Hne & w & h & Hw & Hh & Hrs & _)].
  - now rewrite Hone.
  - rewrite Hne. destruct (resize_size _ _ _ _ Hrs) as (-> & _ & _).
    unfold width in Hw. unfold height in Hh. rewrite Hc in Hw, Hh.
    cbn [fst snd] in *. auto.
Qed.

Lemma for_range_sizes orig st cw ch rows ph osf : forall n r acc bs log l,
  strip_boxes_from n r cw ch rows ph = inr bs ->
  for_range n r (strip_iteration orig st cw ch rows ph osf) acc = (log, inr l) ->
  exists xs,
    l = acc ++ xs /\
    Forall2 (fun bx buf =>
               tell buf = 0%nat /\
               exists im, Image_open (getvalue buf) = inr im /\
                 scaled_size osf
                   (Z.max 0 (strip_width bx), Z.max 0 (strip_height bx)) (size im))
      bs xs.
Proof.
  induction n as [| n IH]; intros r acc bs log l Hbs H;
    cbn [strip_boxes_from for_range] in *.
  - injection Hbs as <-. apply ret_inr_inv in H as [-> _].
    exists []. rewrite app_nil_r. split; [reflexivity | constructor].
  - destruct (strip_box cw ch rows ph r) as [e | bx] eqn:Hbx; [discriminate |].
    cbn [bindR] in Hbs.
    destruct (strip_boxes_from n (r + 1) cw ch rows ph) as [e | bs'] eqn:Hbs';
      [discriminate |].
    cbn [bindR] in Hbs. injection Hbs as <-.
    apply bind_inr_inv in H as (l1 & acc' & l2 & Hit & Hrest & _).
    destruct (strip_iteration_size _ _ _ _ _ _ _ _ _ _ _ _ Hbx Hit)
      as (buf & im & -> & Ht & Him & Hsz).
    destruct (IH _ _ _ _ _ Hbs' Hrest) as (xs & -> & HF).
    exists (buf :: xs). rewrite <- app_assoc. split; [reflexivity |].
    constructor; [eauto | assumption].
Qed.

(** Sizes of scaled strips add up. *)
Lemma sum_heights_scaled (k : Z) bs : forall images,
  Forall2 (fun bx im => height im = k * strip_height bx) bs images ->
  sum_heights images = k * fold_right Z.add 0 (map strip_height bs).
Proof.
  induction bs as [| bx bs IH]; intros images HF;
    inversion HF as [| ? im ? images' Hh HF']; subst.
  - cbn. lia.
  - rewrite sum_heights_cons, (IH _ HF'), Hh. cbn [map fold_right]. lia.
Qed.

(** What merging the strips of a cut gives: the strips decode to the
    boxes of the loop, scaled, and the merged image is as wide as the
    first and as high as all of them. *)
Lemma biggify_then_merge image_bytes orig rows sf osf buf :
  Image_open image_bytes = inr orig ->
  rows < float_int_limit ->
  merge_images (map read (biggify_image image_bytes rows sf osf)) = Some buf ->
  exists sw bs images first merged,
    first_failing_check rows sf osf = None /\
    int_of_product (width orig) sf = inr sw /\ 1 <= sw /\
    tiles_from 0 sw bs (height orig) /\
    Forall2 (fun bx im => scaled_size osf (sw, strip_height bx) (size im))
      bs images /\
    hd_error images = Some first /\
    Image_open (getvalue buf) = inr merged /\
    size merged = (width first, sum_heights images).
Proof.
  intros Ho Hlim Hm.
  destruct (open_size _ _ Ho) as [_ HH].
  destruct (biggify_image_cases image_bytes rows sf osf)
    as [Hnil | (log & l & Ht & Hl)].
  { rewrite Hnil in Hm. discriminate. }
  rewrite Hl in Hm.
  assert (Hl0 : l <> []) by (intros ->; discriminate).
  pose proof Ht as Hv. apply biggify_image_try_value in Hv
    as (orig' & _ & [(msg & _ & -> & _) | (Hchecks & Hlen & Hall)]);
    [congruence |].
  assert (Hrows : 0 < rows) by (destruct l; [congruence | cbn in Hlen; lia]).
  unfold biggify_image_try in Ht.
  apply bind_inr_inv in Ht as (l1 & orig'' & l2 & Ho' & Ht & _).
  apply call_inr_inv in Ho' as [Ho' _]. rewrite Ho in Ho'. injection Ho' as <-.
  assert (Hsize : size orig = (width orig, height orig))
    by (unfold width, height; now destruct (size orig)).
  rewrite Hsize in Ht.
  revert Hchecks Ht. unfold first_failing_check, in_domain.
  destruct (rows <=? 0); [discriminate |].
  destruct (negb _); [discriminate |]. destruct (negb _); [discriminate |].
  intros Hchecks Ht.
  apply bind_inr_inv in Ht as (l3 & sw & l4 & Hsw & Ht & _).
  apply lift_inr_inv in Hsw as [Hsw _].
  apply bind_inr_inv in Ht as (l5 & st & l6 & Hst & Ht & _).
  apply call_inr_inv in Hst as [Hst _].
  destruct (resize_size _ _ _ _ Hst) as (Hstsz & Hsw1 & _).
  cbn [fst] in Hsw1. rewrite Hstsz in Ht.
  apply bind_inr_inv in Ht as (l7 & ph & l8 & Hph & Ht & _).
  apply lift_inr_inv in Hph as [Hph _].
  destruct (strip_boxes_value sw (height orig) rows HH ltac:(lia))
    as (ph' & Hdiv & Hbs & Htiles & _).
  rewrite Hph in Hdiv. injection Hdiv as <-.
  unfold strip_boxes in Hbs. rewrite Hph in Hbs. cbn [bindR] in Hbs.
  destruct (for_range_sizes _ _ _ _ _ _ _ _ _ _ _ _ _ Hbs Ht)
    as (xs & -> & HF).
  cbn [app] in *.
  set (bs := boxes_from sw (height orig) rows (sv ph) (Z.to_nat rows) 0) in *.
  pose proof (tiles_from_Forall sw _ _ _ ltac:(lia) Htiles) as Hdims.
  (* the strips are read from the start *)
  assert (Hread : map read xs = map getvalue xs).
  { apply map_ext_in. intros b Hb. rewrite Forall_forall in Hall.
    destruct (Hall b Hb) as [Htell _]. unfold read. now rewrite Htell. }
  rewrite Hread in Hm.
  destruct (merge_images_some_size _ _ Hm)
    as (images & first & merged & HFo & Hf & Hmo & Hmsz).
  exists sw, bs, images, first, merged.
  repeat split; try assumption; try reflexivity.
  (* the decoded strips against the boxes *)
  clear - HF HFo Hdims.
  revert images HFo Hdims. induction HF as [| bx b bs' xs' Hb HF IH];
    intros images HFo Hdims; inversion HFo as [| ? im ? ims Hop HFo']; subst;
    constructor.
  - destruct Hb as (_ & im' & Him' & Hsz). unfold opens in Hop.
    rewrite Him' in Hop. injection Hop as <-.
    inversion Hdims as [| ? ? Hd _]; subst. destruct Hd as (Hw & Hw0 & Hh0).
    rewrite Z.max_r in Hsz by lia. rewrite Z.max_r in Hsz by lia.
    rewrite Hw in Hsz. exact Hsz.
  - apply IH; [assumption | now inversion Hdims].
Qed.

End RoundTrip.

Lemma tiles_from_le width bs : forall top bottom,
  tiles_from top width bs bottom ->
  top <= bottom /\ Forall (fun b => strip_height b <= bottom - top) bs.
Proof.
  induction bs as [| [[[l t] r] b] bs IH]; intros top bottom Ht;
    cbn [tiles_from] in Ht.
  - subst. split; [lia | constructor].
  - destruct Ht as (_ & _ & -> & Hle & Ht).
    destruct (IH _ _ Ht) as [Hb HF]. split; [lia |].
    constructor; [cbn [strip_height]; lia |].
    eapply Forall_impl; [| exact HF]. intros bx Hbx. cbn beta in Hbx. lia.
Qed.

(** [int(W * f)] for a width and a factor up to 4.0 stays small *)
Lemma truncated_product_lt P z :
  0 <= z < 2 ^ 31 -> 0 <= P < 2 ^ 1077 -> truncated_product P z < 2 ^ 40.
Proof.
  intros Hz HP.
  assert (Hp : 0 < 2 ^ 1074) by (apply Z.pow_pos_nonneg; lia).
  assert (HA : 0 <= round 0 (z * 2 ^ 1074) <= 2 ^ (31 + 1074)).
  { split; [apply round_nonneg; nia |].
    apply round_le_pow2; [lia | lia |]. split; [nia |].
    rewrite Z.pow_add_r by lia. nia. }
  assert (HR : round 1074 (round 0 (z * 2 ^ 1074) * P) <= 2 ^ (34 + (1074 + 1074))).
  { apply round_le_pow2; [lia | lia |]. split; [nia |].
    replace (34 + (1074 + 1074)) with ((31 + 1074) + 1077) by lia.
    rewrite (Z.pow_add_r 2 (31 + 1074) 1077) by lia.
    apply Z.mul_le_mono_nonneg; lia. }
  unfold truncated_product. rewrite Z.div_div by lia.
  rewrite <- Z.pow_add_r by lia.
  apply Z.le_lt_trans with (2 ^ 34); [| reflexivity].
  eapply Z.le_trans; [apply Z.div_le_mono; [| exact HR] |].
  - apply Z.pow_pos_nonneg; lia.
  - rewrite (Z.pow_add_r 2 34 (1074 + 1074)) by lia.
    rewrite Z.div_mul; [lia | apply Z.pow_nonzero; lia].
Qed.

(** X4.  Cut without rescaling (output scale factor 1.0) and then merged,
    the strips give back an image of exactly the stretched size:
    [int(W * stretch_factor)] wide and as high as the original.  The
    strips are the buffers [biggify_image] returned, read as returned. *)
Theorem merged_unscaled_strips_have_the_stretched_size :
  forall (pil : PIL) (laws : PIL_laws pil)
         (image_bytes : list byte) (orig : Image) (rows : Z)
         (stretch_factor output_scale_factor : float) (buf : BytesIO),
    Image_open image_bytes = inr orig ->
    rows < float_int_limit ->
    feqb output_scale_factor f1_0 = true ->
    merge_images
      (map read (biggify_image image_bytes rows stretch_factor output_scale_factor))
    = Some buf ->
    exists (sw : Z) (merged : Image),
      int_of_product (width orig) stretch_factor = inr sw /\
      Image_open (getvalue buf) = inr merged /\
      size merged = (sw, height orig).
Proof.
  intros pil laws image_bytes orig rows sf osf buf Ho Hlim Hone Hm.
  destruct (biggify_then_merge _ _ _ _ _ _ Ho Hlim Hm)
    as (sw & bs & images & first & merged & _ & Hsw & Hsw1 & Ht & HF & Hf & Hmo & Hsz).
  exists sw, merged. split; [assumption |]. split; [assumption |].
  rewrite Hsz.
  assert (HF' : Forall2 (fun bx im => size im = (sw, strip_height bx)) bs images).
  { eapply Forall2_impl; [| exact HF]. intros bx im H.
    unfold scaled_size in H. now rewrite Hone in H. }
  f_equal.
  - destruct HF' as [| bx im bs' images' Hb _]; [discriminate |].
    injection Hf as <-. unfold width. now rewrite Hb.
  - rewrite (sum_heights_scaled 1 bs).
    + rewrite (tiles_from_heights _ _ _ _ Ht). lia.
    + eapply Forall2_impl; [| exact HF']. intros bx im H.
      unfold height. rewrite H. cbn [snd]. lia.
Qed.

Lemma merged_unscaled_strips_have_the_stretched_size_witness :
  exists (sw : Z) (merged : Raster.image),
    int_of_product (width (pil := Raster.pillow) Sample.photo) f1_5 = inr sw /\
    Image_open (PIL := Raster.pillow) (getvalue Merged.unscaled) = inr merged /\
    size (PIL := Raster.pillow) merged
    = (sw, height (pil := Raster.pillow) Sample.photo).
Proof.
  apply (merged_unscaled_strips_have_the_stretched_size Raster.pillow
           RasterFacts.pillow_laws Sample.photo_png Sample.photo 4 f1_5 f1_0
           Merged.unscaled).
  - vm_compute. reflexivity.
  - reflexivity.
  - reflexivity.
  - vm_compute. reflexivity.
Defined.

(** X5.  Cut at the output scale factor 2.0, the default of the bot, and
    then merged, the strips give an image of twice the stretched size:
    [2 * int(W * stretch_factor)] wide and twice as high as the
    original. *)
Theorem merged_doubled_strips_have_twice_the_stretched_size :
  forall (pil : PIL) (laws : PIL_laws pil)
         (image_bytes : list byte) (orig : Image) (rows : Z)
         (stretch_factor : float) (buf : BytesIO),
    Image_open image_bytes = inr orig ->
    rows < float_int_limit ->
    valid_binary prec emax stretch_factor = true ->
    merge_images (map read (biggify_image image_bytes rows stretch_factor f2_0))
    = Some buf ->
    exists (sw : Z) (merged : Image),
      int_of_product (width orig) stretch_factor = inr sw /\
      Image_open (getvalue buf) = inr merged /\
      size merged = (2 * sw, 2 * height orig).
Proof.
  intros pil laws image_bytes orig rows sf buf Ho Hlim Hv Hm.
  destruct (open_size _ _ Ho) as [HW HH].
  destruct (biggify_then_merge _ _ _ _ _ _ Ho Hlim Hm)
    as (sw & bs & images & first & merged & Hchecks & Hsw & Hsw1 & Ht & HF & Hf
        & Hmo & Hsz).
  exists sw, merged. split; [assumption |]. split; [assumption |].
  rewrite Hsz.
  (* the stretched width is small enough to be doubled exactly *)
  assert (Hdom : in_domain f1_0 f3_0 sf = true).
  { revert Hchecks. unfold first_failing_check.
    destruct (rows <=? 0); [discriminate |].
    destruct (in_domain f1_0 f3_0 sf); [reflexivity | discriminate]. }
  destruct (stretch_factor_bounds sf Hv Hdom) as (Hsn & Hss & Hsv).
  destruct (int_of_product_small (width orig) sf) as [Hsw' _]; try assumption.
  { split; [lia |]. eapply Z.lt_le_trans; [apply HW |].
    apply Z.pow_le_mono_r; lia. }
  rewrite Hsw in Hsw'. injection Hsw' as Hsw'.
  pose proof (truncated_product_lt (sv sf) (width orig) HW
                (conj (sv_nonneg sf) Hsv)) as Hsw40.
  rewrite <- Hsw' in Hsw40.
  destruct (tiles_from_le _ _ _ _ Ht) as [_ Hle].
  pose proof (tiles_from_Forall sw _ _ _ ltac:(lia) Ht) as Hdims.
  assert (HF' : Forall2 (fun bx im => size im = (2 * sw, 2 * strip_height bx))
                  bs images).
  { clear - HF Hle Hdims Hsw40 Hsw1 HH.
    induction HF as [| bx im bs' images' Hb HF IH]; constructor.
    - inversion Hle as [| ? ? Hh _]; subst.
      inversion Hdims as [| ? ? Hd _]; subst. destruct Hd as (_ & _ & Hh0).
      unfold scaled_size in Hb. change (feqb f2_0 f1_0) with false in Hb.
      cbn [fst snd] in Hb. destruct Hb as [Hbw Hbh].
      rewrite int_of_product_double in Hbw by lia.
      rewrite int_of_product_double in Hbh.
      2:{ split; [lia |]. apply Z.le_lt_trans with (height orig); [lia |].
          eapply Z.lt_le_trans; [apply HH |]. apply Z.pow_le_mono_r; lia. }
      injection Hbw as Hbw. injection Hbh as Hbh.
      destruct (size im) as [w h]. cbn [fst snd] in *. now subst.
    - apply IH; [now inversion Hle | now inversion Hdims]. }
  f_equal.
  - destruct HF' as [| bx im bs' images' Hb _]; [discriminate |].
    injection Hf as <-. unfold width. now rewrite Hb.
  - rewrite (sum_heights_scaled 2 bs).
    + rewrite (tiles_from_heights _ _ _ _ Ht). lia.
    + eapply Forall2_impl; [| exact HF']. intros bx im H.
      unfold height. rewrite H. reflexivity.
Qed.

Lemma merged_doubled_strips_have_twice_the_stretched_size_witness :
  exists (sw : Z) (merged : Raster.image),
    int_of_product (width (pil := Raster.pillow) Sample.photo) f1_5 = inr sw /\
    Image_open (PIL := Raster.pillow) (getvalue Merged.doubled) = inr merged /\
    size (PIL := Raster.pillow) merged
    = (2 * sw, 2 * height (pil := Raster.pillow) Sample.photo).
Proof.
  apply (merged_doubled_strips_have_twice_the_stretched_size Raster.pillow
           RasterFacts.pillow_laws Sample.photo_png Sample.photo 4 f1_5
           Merged.doubled).
  - vm_compute. reflexivity.
  - reflexivity.
  - reflexivity.
  - vm_compute. reflexivity.
Defined.

(** The merged samples are 150 x 4 and 300 x 8. *)
Lemma merged_samples :
  match Raster.decode (getvalue Merged.unscaled) with
  | inr im => Some (Raster.r_size im)
  | inl _ => None
  end = Some (150, 4) /\
  match Raster.decode (getvalue Merged.doubled) with
  | inr im => Some (Raster.r_size im)
  | inl _ => None
  end = Some (300, 8).
Proof.
  split; vm_compute; reflexivity.
Qed.

(* ===================================================================== *)
(** ** The handlers: the shape of a run *)
(* ===================================================================== *)

Section BotRuns.

Context {pil : PIL} {discord : Discord}.

Lemma await_run {A : Type} ev (f : World -> result A * World) w :
  await ev f w = (([ev], fst (f w)), snd (f w)).
Proof. unfold await. now destruct (f w). Qed.

Lemma bbind_trace_inr {A B : Type} (m : Bot A) (k : A -> Bot B) w l a w' :
  m w = ((l, inr a), w') -> trace (bbind m k) w = l ++ trace (k a) w'.
Proof.
  intros H. unfold trace, bbind. rewrite H. now destruct (k a w') as [[l' r] w''].
Qed.

Lemma bbind_outcome_inr {A B : Type} (m : Bot A) (k : A -> Bot B) w l a w' :
  m w = ((l, inr a), w') -> outcome (bbind m k) w = outcome (k a) w'.
Proof.
  intros H. unfold outcome, bbind. rewrite H. now destruct (k a w') as [[l' r] w''].
Qed.

Lemma bbind_run_inl {A B : Type} (m : Bot A) (k : A -> Bot B) w l e w' :
  m w = ((l, inl e), w') ->
  trace (bbind m k) w = l /\ outcome (bbind m k) w = inl e.
Proof. intros H. unfold trace, outcome, bbind. rewrite H. auto. Qed.

Lemma try_else_trace_inr {A B : Type} (m : Bot A) h (k : A -> Bot B) w l a w' :
  m w = ((l, inr a), w') -> trace (try_else m h k) w = l ++ trace (k a) w'.
Proof.
  intros H. unfold trace, try_else. rewrite H. now destruct (k a w') as [[l' r] w''].
Qed.

Lemma try_else_outcome_inr {A B : Type} (m : Bot A) h (k : A -> Bot B) w l a w' :
  m w = ((l, inr a), w') -> outcome (try_else m h k) w = outcome (k a) w'.
Proof.
  intros H. unfold outcome, try_else. rewrite H.
  now destruct (k a w') as [[l' r] w''].
Qed.

Lemma try_else_trace_inl {A B : Type} (m : Bot A) (h : exn -> Bot B) k w l e w' :
  m w = ((l, inl e), w') -> trace (try_else m h k) w = l ++ trace (h e) w'.
Proof.
  intros H. unfold trace, try_else. rewrite H. now destruct (h e w') as [[l' r] w''].
Qed.

Lemma try_else_outcome_inl {A B : Type} (m : Bot A) (h : exn -> Bot B) k w l e w' :
  m w = ((l, inl e), w') -> outcome (try_else m h k) w = outcome (h e) w'.
Proof.
  intros H. unfold outcome, try_else. rewrite H.
  now destruct (h e w') as [[l' r] w''].
Qed.

(** the run of a handler, in its three parts *)
Lemma run_parts {A : Type} (m : Bot A) w :
  m w = ((trace m w, outcome m w), snd (m w)).
Proof. unfold trace, outcome. now destruct (m w) as [[l r] w']. Qed.

Lemma defer_run w :
  fst (response_defer true true w) = inr tt ->
  await (Call_defer true true) (response_defer true true) w
  = (([Call_defer true true], inr tt), snd (response_defer true true w)).
Proof. intros H. now rewrite await_run, H. Qed.

Lemma reply_run content w :
  trace (reply content) w = [Call_followup content true] /\
  outcome (reply content) w = fst (followup_send content true w).
Proof. unfold trace, outcome, reply. now rewrite await_run. Qed.

(** *** Handlers that return *)

Lemma returns_bret {A : Type} (a : A) : returns (bret a).
Proof. intros w. now exists a. Qed.

Lemma returns_bot_print line : returns (bot_print line).
Proof. intros w. now exists tt. Qed.

Lemma returns_await {A : Type} ev (f : World -> result A * World) :
  (forall w, exists a, fst (f w) = inr a) -> returns (await ev f).
Proof.
  intros H w. destruct (H w) as [a Ha]. exists a.
  unfold outcome. now rewrite await_run.
Qed.

Lemma returns_bbind {A B : Type} (m : Bot A) (k : A -> Bot B) :
  returns m -> (forall a, returns (k a)) -> returns (bbind m k).
Proof.
  intros Hm Hk w. destruct (Hm w) as [a Ha].
  pose proof (run_parts m w) as Hr. rewrite Ha in Hr.
  rewrite (bbind_outcome_inr m k _ _ _ _ Hr). apply Hk.
Qed.

Lemma returns_try_else {A B : Type} (m : Bot A) (h : exn -> Bot B) k :
  (forall e, returns (h e)) -> (forall a, returns (k a)) ->
  returns (try_else m h k).
Proof.
  intros Hh Hk w. pose proof (run_parts m w) as Hr.
  destruct (outcome m w) as [e | a].
  - rewrite (try_else_outcome_inl m h k _ _ _ _ Hr). apply Hh.
  - rewrite (try_else_outcome_inr m h k _ _ _ _ Hr). apply Hk.
Qed.

Lemma returns_core {A : Type} (m : M A) a : snd m = inr a -> returns (core m).
Proof. intros H w. exists a. exact H. Qed.

Lemma returns_reply content : replies_go_through -> returns (reply content).
Proof.
  intros [_ Hf]. apply returns_await. intros w. exists tt. apply Hf.
Qed.

Lemma returns_send_parts l : forall i,
  replies_go_through -> returns (send_parts i l).
Proof.
  induction l as [| b l IH]; intros i Hr; cbn [send_parts].
  - apply returns_bret.
  - apply returns_bbind; [| intros _; now apply IH].
    apply returns_try_else; [| intros; apply returns_bret].
    intros e. apply returns_bbind; [apply returns_bot_print |].
    intros _. now apply returns_reply.
Qed.

Lemma returns_download_all valid : forall acc rest,
  replies_go_through -> (forall l, returns (rest l)) ->
  returns (download_all valid acc rest).
Proof.
  induction valid as [| a valid IH]; intros acc rest Hr Hrest; cbn [download_all].
  - apply Hrest.
  - apply returns_try_else; [| intros data; now apply IH].
    intros e. destruct (is_HTTPException e);
      (apply returns_bbind; [apply returns_bot_print |]);
      intros _; now apply returns_reply.
Qed.

Lemma biggify_image_run_returns image_bytes rows sf osf :
  snd (biggify_image_run image_bytes rows sf osf)
  = inr (biggify_image image_bytes rows sf osf).
Proof.
  unfold biggify_image, returned, biggify_image_run.
  destruct (try_except_returns
              (biggify_image_try image_bytes rows sf osf)
              (fun e => print ("Error processing image in biggify_image: "
                               ++ str_exn e) ;;; ret []))
    as (log & v & H).
  { intros e. eexists. eexists. reflexivity. }
  now rewrite H.
Qed.

(** *** What holds of every event of a run *)

Section BotInvariants.

Variable Q : bot_event -> Prop.

Lemma always_bret {A : Type} (a : A) : always Q (bret a).
Proof. intros w. constructor. Qed.

Lemma always_blift {A : Type} (r : result A) : always Q (blift r).
Proof. intros w. constructor. Qed.

Lemma always_bot_print line : Q (Bot_printed line) -> always Q (bot_print line).
Proof. intros H w. repeat constructor. exact H. Qed.

Lemma always_await {A : Type} ev (f : World -> result A * World) :
  Q ev -> always Q (await ev f).
Proof.
  intros H w. unfold trace. rewrite await_run. repeat constructor. exact H.
Qed.

Lemma always_core {A : Type} (m : M A) :
  Forall (fun ev => Q (Core ev)) (fst m) -> always Q (core m).
Proof.
  intros H w. unfold trace, core. cbn [fst]. now apply Forall_map.
Qed.

Lemma always_bbind {A B : Type} (m : Bot A) (k : A -> Bot B) :
  always Q m -> (forall a, always Q (k a)) -> always Q (bbind m k).
Proof.
  intros Hm Hk w. pose proof (run_parts m w) as Hr. specialize (Hm w).
  destruct (outcome m w) as [e | a].
  - destruct (bbind_run_inl m k _ _ _ _ Hr) as [-> _]. exact Hm.
  - rewrite (bbind_trace_inr m k _ _ _ _ Hr). apply Forall_app. split; [exact Hm |].
    apply Hk.
Qed.

Lemma always_try_else {A B : Type} (m : Bot A) (h : exn -> Bot B) k :
  always Q m -> (forall e, always Q (h e)) -> (forall a, always Q (k a)) ->
  always Q (try_else m h k).
Proof.
  intros Hm Hh Hk w. pose proof (run_parts m w) as Hr. specialize (Hm w).
  destruct (outcome m w) as [e | a].
  - rewrite (try_else_trace_inl m h k _ _ _ _ Hr). apply Forall_app.
    split; [exact Hm | apply Hh].
  - rewrite (try_else_trace_inr m h k _ _ _ _ Hr). apply Forall_app.
    split; [exact Hm | apply Hk].
Qed.

Lemma always_reply content : Q (Call_followup content true) -> always Q (reply content).
Proof. intros H. now apply always_await. Qed.

End BotInvariants.

End BotRuns.

(* ===================================================================== *)
(** ** The /biggify command *)
(* ===================================================================== *)

Section BiggifyHandler.

Context {pil : PIL} {discord : Discord}.

Lemma merge_images_run_returns l :
  snd (merge_images_run l) = inr (merge_images l).
Proof.
  unfold merge_images, returned, merge_images_run.
  destruct l as [| b l]; [reflexivity |].
  destruct (merge_images_try (b :: l)) as [log [e | v]]; reflexivity.
Qed.

Lemma rows_check rows :
  negb ((1 <=? rows) && (rows <=? 10)) = (rows <? 1) || (10 <? rows).
Proof.
  destruct (Z.leb_spec 1 rows), (Z.leb_spec rows 10),
    (Z.ltb_spec rows 1), (Z.ltb_spec 10 rows); cbn; reflexivity || lia.
Qed.

(** A run of [biggify] after the defer: the reply of the first failing
    check, the [AttributeError] of a missing content type, or the download
    and what follows it. *)
Lemma biggify_run image rows sf w :
  fst (response_defer true true w) = inr tt ->
  match biggify_rejection image rows sf with
  | Some msg =>
      trace (biggify image rows sf) w
      = [Call_defer true true; Call_followup msg true] /\
      outcome (biggify image rows sf) w
      = fst (followup_send msg true (snd (response_defer true true w)))
  | None =>
      match image with
      | Some img =>
          match content_type img with
          | None =>
              trace (biggify image rows sf) w = [Call_defer true true] /\
              outcome (biggify image rows sf) w
              = inl (Exc "AttributeError"
                       "'NoneType' object has no attribute 'startswith'")
          | Some ct =>
              prefix "image/" ct = true /\ 1 <= rows <= 10 /\
              in_domain f1_0 f3_0 sf = true /\
              trace (biggify image rows sf) w
              = Call_defer true true
                :: trace (download_and_send img rows sf)
                     (snd (response_defer true true w)) /\
              outcome (biggify image rows sf) w
              = outcome (download_and_send img rows sf)
                  (snd (response_defer true true w))
          end
      | None => False
      end
  end.
Proof.
  intros Hd. unfold biggify.
  rewrite (bbind_trace_inr _ _ _ _ _ _ (defer_run w Hd)).
  rewrite (bbind_outcome_inr _ _ _ _ _ _ (defer_run w Hd)).
  set (w1 := snd (response_defer true true w)).
  destruct image as [img |]; cbn [biggify_rejection].
  2:{ destruct (reply_run "Please attach a valid image to the command!" w1)
        as [-> ->]. auto. }
  unfold content_type_startswith_image.
  destruct (content_type img) as [ct |].
  2:{ unfold trace, outcome, bbind, blift. auto. }
  assert (Hl : blift (@inr exn bool (prefix "image/" ct)) w1
               = (([], inr (prefix "image/" ct)), w1)) by reflexivity.
  rewrite (bbind_trace_inr _ _ _ _ _ _ Hl), (bbind_outcome_inr _ _ _ _ _ _ Hl).
  cbn [app]. rewrite rows_check. fold (in_domain f1_0 f3_0 sf).
  destruct (prefix "image/" ct); cbn [negb].
  2:{ destruct (reply_run "Please attach a valid image to the command!" w1)
        as [-> ->]. auto. }
  destruct ((rows <? 1) || (10 <? rows)) eqn:Hr.
  { destruct (reply_run "Rows must be between 1 and 10 (inclusive)." w1)
      as [-> ->]. auto. }
  destruct (in_domain f1_0 f3_0 sf); cbn [negb].
  2:{ destruct (reply_run "Stretch factor must be between 1.0 and 3.0 (e.g., 1.5). Larger values mean more stretch." w1)
        as [-> ->]. auto. }
  apply orb_false_elim in Hr as [H1 H2].
  apply Z.ltb_ge in H1, H2. repeat split; auto.
Qed.

(** A run of lines 69-104: the download fails and is reported, or the
    image is cut and the strips, if any, are sent. *)
Lemma download_and_send_run img rows sf w :
  match fst (attachment_read img w) with
  | inl e =>
      trace (download_and_send img rows sf) w
      = [Call_read img;
         Bot_printed (if is_HTTPException e
                      then "HTTP Error downloading image: " ++ str_exn e
                      else "Unexpected error downloading image: " ++ str_exn e);
         Call_followup
           (if is_HTTPException e
            then "Could not download the image. Please try again. Error: "
                 ++ str_exn e
            else "An unexpected error occurred while downloading the image. Error: "
                 ++ str_exn e) true]
  | inr image_bytes =>
      trace (download_and_send img rows sf) w
      = Call_read img
        :: map Core (fst (biggify_image_run image_bytes rows sf f2_0))
        ++ trace (match biggify_image image_bytes rows sf f2_0 with
                  | [] =>
                      reply "An error occurred while processing the image. Please try again with a different image or settings."
                  | _ :: _ =>
                      bbind
                        (send_parts 0 (biggify_image image_bytes rows sf f2_0))
                        (fun _ => reply "Image biggified and sent!")
                  end) (snd (attachment_read img w)) /\
      outcome (download_and_send img rows sf) w
      = outcome (match biggify_image image_bytes rows sf f2_0 with
                 | [] =>
                     reply "An error occurred while processing the image. Please try again with a different image or settings."
                 | _ :: _ =>
                     bbind
                       (send_parts 0 (biggify_image image_bytes rows sf f2_0))
                       (fun _ => reply "Image biggified and sent!")
                 end) (snd (attachment_read img w))
  end.
Proof.
  unfold download_and_send.
  pose proof (await_run (Call_read img) (attachment_read img) w) as Hr.
  destruct (fst (attachment_read img w)) as [e | image_bytes].
  - rewrite (try_else_trace_inl _ _ _ _ _ _ _ Hr).
    destruct (is_HTTPException e); unfold trace, bbind, bot_print, reply;
      rewrite await_run; reflexivity.
  - rewrite (try_else_trace_inr _ _ _ _ _ _ _ Hr).
    rewrite (try_else_outcome_inr _ _ _ _ _ _ _ Hr).
    set (w1 := snd (attachment_read img w)).
    assert (Hc : core (biggify_image_run image_bytes rows sf f2_0) w1
                 = ((map Core (fst (biggify_image_run image_bytes rows sf f2_0)),
                     inr (biggify_image image_bytes rows sf f2_0)), w1)).
    { unfold core. now rewrite biggify_image_run_returns. }
    rewrite (bbind_trace_inr _ _ _ _ _ _ Hc), (bbind_outcome_inr _ _ _ _ _ _ Hc).
    cbn [app]. split; reflexivity.
Qed.

Lemma sent_files_app l1 l2 :
  sent_files (l1 ++ l2) = sent_files l1 ++ sent_files l2.
Proof. apply flat_map_app. Qed.

Lemma sent_files_core (l : list event) : sent_files (map Core l) = [].
Proof. induction l; [reflexivity | assumption]. Qed.

(** The loop of lines 93-101 tries every strip once, in order, under the
    name of its part, whether the strips before it could be sent or not. *)
Lemma send_parts_run l : forall i w,
  replies_go_through ->
  sent_files (trace (send_parts i l) w) = numbered_parts i l /\
  outcome (send_parts i l) w = inr tt.
Proof.
  induction l as [| b l IH]; intros i w Hr; cbn [send_parts numbered_parts].
  - split; reflexivity.
  - set (name := ("biggified_part_" ++ str_int (i + 1) ++ ".png")%string).
    pose proof (await_run (Call_channel_send b name) (channel_send b name) w) as Hs.
    set (w1 := snd (channel_send b name w)) in *.
    destruct Hr as [Hd Hf].
    assert (Hstep : exists l1 w2,
               try_else
                 (await (Call_channel_send b name) (channel_send b name))
                 (fun e =>
                    bbind (bot_print ("Error sending individual file "
                                      ++ str_int (i + 1) ++ ": " ++ str_exn e))
                      (fun _ => reply ("Could not send part " ++ str_int (i + 1)
                                       ++ " due to an error.")))
                 (fun _ => bret tt) w
               = ((Call_channel_send b name :: l1, inr tt), w2) /\
               sent_files l1 = []).
    { unfold try_else. rewrite Hs.
      destruct (fst (channel_send b name w)) as [e | []].
      - unfold bbind, bot_print, reply. rewrite await_run, Hf.
        eexists _, _. split; reflexivity.
      - eexists _, _. split; reflexivity. }
    destruct Hstep as (l1 & w2 & Hstep & Hl1).
    rewrite (bbind_trace_inr _ _ _ _ _ _ Hstep), (bbind_outcome_inr _ _ _ _ _ _ Hstep).
    destruct (IH (i + 1) w2 (conj Hd Hf)) as [Ht Ho].
    split; [| exact Ho].
    change (Call_channel_send b name :: l1)
      with ([Call_channel_send b name] ++ l1).
    rewrite !sent_files_app, Hl1, Ht. reflexivity.
Qed.

End BiggifyHandler.

(** X6.  [biggify] checks its arguments before it downloads anything.
    After the defer, a run with a failing check is the one reply of the
    first check that fails (attachment, rows in 1..10, stretch factor in
    [1.0, 3.0]) and nothing else; a run whose checks pass goes on to
    download the attachment. *)
Theorem biggify_checks_before_downloading :
  forall (pil : PIL) (discord : Discord)
         (image : option Attachment) (rows : Z) (stretch_factor : float)
         (w : World),
    fst (response_defer true true w) = inr tt ->
    (forall msg,
       biggify_rejection image rows stretch_factor = Some msg ->
       trace (biggify image rows stretch_factor) w
       = [Call_defer true true; Call_followup msg true]) /\
    (forall img ct,
       image = Some img -> content_type img = Some ct ->
       biggify_rejection image rows stretch_factor = None ->
       exists rest,
         trace (biggify image rows stretch_factor) w
         = Call_defer true true :: Call_read img :: rest).
Proof.
  intros pil discord image rows sf w Hd.
  pose proof (biggify_run image rows sf w Hd) as H. split.
  - intros msg Hmsg. rewrite Hmsg in H. apply H.
  - intros img ct -> Hct Hnone. rewrite Hnone, Hct in H.
    destruct H as (_ & _ & _ & -> & _).
    pose proof (download_and_send_run img rows sf
                  (snd (response_defer true true w))) as Hr.
    destruct (fst (attachment_read img (snd (response_defer true true w))))
      as [e | image_bytes].
    + rewrite Hr. eauto.
    + destruct Hr as [-> _]. eauto.
Qed.

Lemma biggify_checks_before_downloading_witness :
  (forall msg,
     biggify_rejection (Some (Scripted.png 1)) 11 f1_5 = Some msg ->
     trace (biggify (pil := Raster.pillow) (discord := Scripted.discord)
              (Some (Scripted.png 1)) 11 f1_5) []
     = [Call_defer true true; Call_followup msg true]) /\
  (forall img ct,
     Some (Scripted.png 1) = Some img -> content_type img = Some ct ->
     biggify_rejection (Some (Scripted.png 1)) 11 f1_5 = None ->
     exists rest,
       trace (biggify (pil := Raster.pillow) (discord := Scripted.discord)
                (Some (Scripted.png 1)) 11 f1_5) []
       = Call_defer true true :: Call_read img :: rest).
Proof.
  apply (biggify_checks_before_downloading Raster.pillow Scripted.discord
           (Some (Scripted.png 1)) 11 f1_5 []).
  reflexivity.
Defined.

(** The replies of the three checks on the scripted Discord: a text
    attachment, 11 rows, a stretch factor of 5.0; and a run that passes
    them. *)
Lemma biggify_rejections :
  replies (trace (biggify (pil := Raster.pillow) (discord := Scripted.discord)
                    (Some (Scripted.text 1)) 4 f1_5) [])
  = ["Please attach a valid image to the command!"%string] /\
  replies (trace (biggify (pil := Raster.pillow) (discord := Scripted.discord)
                    (Some (Scripted.png 1)) 11 f1_5) [])
  = ["Rows must be between 1 and 10 (inclusive)."%string] /\
  replies (trace (biggify (pil := Raster.pillow) (discord := Scripted.discord)
                    (Some (Scripted.png 1)) 4 f5_0) [])
  = ["Stretch factor must be between 1.0 and 3.0 (e.g., 1.5). Larger values mean more stretch."%string] /\
  replies (trace (biggify (pil := Raster.pillow) (discord := Scripted.discord)
                    (Some (Scripted.png 1)) 4 f1_5) [])
  = ["Image biggified and sent!"%string].
Proof. repeat split; vm_compute; reflexivity. Qed.

Section CoreFromBot.

Context {pil : PIL} {discord : Discord}.

(** With arguments that pass the three checks, the only line
    [biggify_image] prints is the one of its [except] clause. *)
Lemma biggify_image_run_prints image_bytes rows sf osf :
  first_failing_check rows sf osf = None ->
  Forall (fun ev => match ev with
                    | Printed line =>
                        exists e, line = ("Error processing image in biggify_image: "
                                          ++ str_exn e)%string
                    | _ => True
                    end)
    (fst (biggify_image_run image_bytes rows sf osf)).
Proof.
  intros Hc. unfold biggify_image_run. apply try_except_events.
  2:{ intros e. cbn. repeat constructor. now exists e. }
  unfold biggify_image_try.
  apply bind_events; [apply call_events; exact I |].
  intros orig _.
  destruct (size orig) as [ow oh].
  revert Hc. unfold first_failing_check, in_domain.
  destruct (rows <=? 0); [discriminate |].
  destruct (negb _); [discriminate |]. destruct (negb _); [discriminate |].
  intros _.
  apply bind_events; [apply lift_events |]. intros sw _.
  apply bind_events; [apply call_events; exact I |]. intros st _.
  destruct (size st) as [cw ch].
  apply bind_events; [apply lift_events |]. intros ph _.
  apply for_range_events. intros r acc. unfold strip_iteration.
  apply bind_events; [apply lift_events |]. intros bx _.
  apply bind_events; [apply call_events; exact I |]. intros strip _.
  apply bind_events.
  { unfold scale_strip. destruct (negb _); [| apply ret_events].
    apply bind_events; [apply lift_events |]. intros w' _.
    apply bind_events; [apply lift_events |]. intros h' _.
    apply call_events. exact I. }
  intros strip' _.
  apply bind_events; [apply call_events; exact I |]. intros data _.
  apply ret_events.
Qed.

Lemma always_send_parts (Q : bot_event -> Prop) l : forall i,
  (forall fp name, Q (Call_channel_send fp name)) ->
  (forall line, Q (Bot_printed line)) ->
  (forall content, Q (Call_followup content true)) ->
  always Q (send_parts i l).
Proof.
  induction l as [| b l IH]; intros i Hs Hp Hf; cbn [send_parts].
  - apply always_bret.
  - apply always_bbind; [| intros _; now apply IH].
    apply always_try_else.
    + apply always_await. apply Hs.
    + intros e. apply always_bbind; [apply always_bot_print, Hp |].
      intros _. apply always_reply, Hf.
    + intros _. apply always_bret.
Qed.

End CoreFromBot.

(** X7.  The checks of [biggify] are at least as strict as those of
    [biggify_image]: whenever a run of the command gets to the image
    function, the arguments pass its three checks, so that none of its
    three validation messages is ever printed in a run of the bot; the only
    line it can print there is the one of its [except] clause. *)
Theorem biggify_never_fails_the_core_checks :
  forall (pil : PIL) (discord : Discord)
         (image : option Attachment) (rows : Z) (stretch_factor : float)
         (w : World),
    Forall (fun ev =>
              match ev with
              | Core e =>
                  first_failing_check rows stretch_factor f2_0 = None /\
                  match e with
                  | Printed line =>
                      exists x, line = ("Error processing image in biggify_image: "
                                        ++ str_exn x)%string
                  | _ => True
                  end
              | _ => True
              end)
      (trace (biggify image rows stretch_factor) w).
Proof.
  intros pil discord image rows sf.
  set (Q := fun ev : bot_event =>
              match ev with
              | Core e =>
                  first_failing_check rows sf f2_0 = None /\
                  match e with
                  | Printed line =>
                      exists x, line = ("Error processing image in biggify_image: "
                                        ++ str_exn x)%string
                  | _ => True
                  end
              | _ => True
              end).
  change (always Q (biggify image rows sf)).
  unfold biggify. apply always_bbind; [now apply always_await |]. intros _.
  destruct image as [img |]; [| now apply always_reply].
  apply always_bbind; [apply always_blift |]. intros is_image.
  destruct (negb is_image); [now apply always_reply |].
  destruct (negb ((1 <=? rows) && (rows <=? 10))) eqn:Hr;
    [now apply always_reply |].
  destruct (negb (fleb f1_0 sf && fleb sf f3_0)) eqn:Hs;
    [now apply always_reply |].
  assert (Hchecks : first_failing_check rows sf f2_0 = None).
  { unfold first_failing_check, in_domain. rewrite Hs.
    apply negb_false_iff, andb_prop in Hr as [H1 _]. apply Z.leb_le in H1.
    replace (rows <=? 0) with false by (symmetry; apply Z.leb_gt; lia).
    reflexivity. }
  unfold download_and_send. apply always_try_else.
  - now apply always_await.
  - intros e. destruct (is_HTTPException e);
      (apply always_bbind; [now apply always_bot_print |]);
      intros _; now apply always_reply.
  - intros image_bytes. apply always_bbind.
    + apply always_core.
      eapply Forall_impl;
        [| exact (biggify_image_run_prints image_bytes rows sf f2_0 Hchecks)].
      intros ev Hev. split; [exact Hchecks | exact Hev].
    + intros l. destruct l as [| b l]; [now apply always_reply |].
      apply always_bbind; [| intros _; now apply always_reply].
      apply always_send_parts; intros; exact I.
Qed.

(** X8.  When the image is cut into strips, [biggify] tries to send every
    strip exactly once, in order, strip [i] under the name
    [biggified_part_<i+1>.png] whatever format it is encoded in; a strip
    that cannot be sent does not stop the ones after it, so that [rows]
    files are tried in all, and the run ends by returning after the reply
    "Image biggified and sent!".  Nothing is asked of the channel: any of
    its calls may raise. *)
Theorem biggify_sends_every_strip :
  forall (pil : PIL) (discord : Discord)
         (img : Attachment) (ct : string) (rows : Z) (stretch_factor : float)
         (image_bytes : list byte) (w : World),
    content_type img = Some ct ->
    biggify_rejection (Some img) rows stretch_factor = None ->
    replies_go_through ->
    downloads_to img image_bytes ->
    biggify_image image_bytes rows stretch_factor f2_0 <> [] ->
    outcome (biggify (Some img) rows stretch_factor) w = inr tt /\
    downloads (trace (biggify (Some img) rows stretch_factor) w) = [img] /\
    sent_files (trace (biggify (Some img) rows stretch_factor) w)
    = numbered_parts 0 (biggify_image image_bytes rows stretch_factor f2_0) /\
    Z.of_nat (List.length
                (sent_files (trace (biggify (Some img) rows stretch_factor) w)))
    = rows /\
    exists before,
      trace (biggify (Some img) rows stretch_factor) w
      = before ++ [Call_followup "Image biggified and sent!" true].
Proof.
  intros pil discord img ct rows sf image_bytes w Hct Hrej Hr Hdl Hne.
  assert (Hcount : Z.of_nat (List.length (biggify_image image_bytes rows sf f2_0))
                   = rows).
  { destruct (biggify_image_cases image_bytes rows sf f2_0)
      as [Hnil | (log & l0 & Ht0 & Hl0)]; [congruence |].
    rewrite Hl0 in *.
    apply biggify_image_try_value in Ht0
      as (orig & _ & [(msg & _ & -> & _) | (_ & Hlen & _)]); [congruence |].
    destruct l0; [congruence |]. cbn [List.length] in *. lia. }
  assert (Hnum : forall l0 i, List.length (numbered_parts i l0) = List.length l0).
  { induction l0 as [| b0 l0 IH]; intros i; [reflexivity |].
    cbn [numbered_parts List.length]. now rewrite IH. }
  pose proof Hr as [Hd Hf].
  pose proof (biggify_run (Some img) rows sf w (Hd _ _ _)) as H.
  rewrite Hrej, Hct in H. destruct H as (_ & _ & _ & Ht & Ho).
  set (w1 := snd (response_defer true true w)) in *.
  pose proof (download_and_send_run img rows sf w1) as Hrun.
  rewrite Hdl in Hrun.
  set (l := biggify_image image_bytes rows sf f2_0) in *.
  destruct l as [| b l'] eqn:Hl; [congruence |]. rewrite <- Hl in *.
  set (w2 := snd (attachment_read img w1)) in *.
  destruct Hrun as [Ht2 Ho2].
  destruct (send_parts_run l 0 w2 Hr) as [Hsent Hout].
  pose proof (run_parts (send_parts 0 l) w2) as Hp. rewrite Hout in Hp.
  rewrite (bbind_trace_inr _ _ _ _ _ _ Hp) in Ht2.
  rewrite (bbind_outcome_inr _ _ _ _ _ _ Hp) in Ho2.
  destruct (reply_run "Image biggified and sent!" (snd (send_parts 0 l w2)))
    as [Hrt Hro].
  rewrite Hrt in Ht2. rewrite Hro, Hf in Ho2.
  rewrite Ht, Ht2. split; [congruence |].
  assert (Hdown : forall i l0 w0, downloads (trace (send_parts i l0) w0) = []).
  { intros i l0 w0.
    assert (HQ : Forall (fun ev => match ev with Call_read _ => False | _ => True end)
                   (trace (send_parts i l0) w0))
      by (apply always_send_parts; intros; exact I).
    induction HQ as [| ev evs Hev _ IH]; [reflexivity |].
    destruct ev; try contradiction; exact IH. }
  assert (Happ : forall l1 l2, downloads (l1 ++ l2) = downloads l1 ++ downloads l2)
    by (intros; apply flat_map_app).
  assert (Hcore : forall l0 : list event, downloads (map Core l0) = [])
    by (induction l0; [reflexivity | assumption]).
  split; [| split; [| split]].
  - change (Call_defer true true :: Call_read img
            :: map Core (fst (biggify_image_run image_bytes rows sf f2_0))
            ++ trace (send_parts 0 l) w2
            ++ [Call_followup "Image biggified and sent!" true])
      with ([Call_defer true true; Call_read img]
            ++ map Core (fst (biggify_image_run image_bytes rows sf f2_0))
            ++ trace (send_parts 0 l) w2
            ++ [Call_followup "Image biggified and sent!" true]).
    rewrite !Happ, Hcore, Hdown. reflexivity.
  - change (Call_defer true true :: Call_read img
            :: map Core (fst (biggify_image_run image_bytes rows sf f2_0))
            ++ trace (send_parts 0 l) w2
            ++ [Call_followup "Image biggified and sent!" true])
      with ([Call_defer true true; Call_read img]
            ++ map Core (fst (biggify_image_run image_bytes rows sf f2_0))
            ++ trace (send_parts 0 l) w2
            ++ [Call_followup "Image biggified and sent!" true]).
    rewrite !sent_files_app, sent_files_core, Hsent. cbn [sent_files flat_map app].
    now rewrite app_nil_r.
  - change (Call_defer true true :: Call_read img
            :: map Core (fst (biggify_image_run image_bytes rows sf f2_0))
            ++ trace (send_parts 0 l) w2
            ++ [Call_followup "Image biggified and sent!" true])
      with ([Call_defer true true; Call_read img]
            ++ map Core (fst (biggify_image_run image_bytes rows sf f2_0))
            ++ trace (send_parts 0 l) w2
            ++ [Call_followup "Image biggified and sent!" true]).
    rewrite !sent_files_app, sent_files_core, Hsent. cbn [sent_files flat_map app].
    rewrite app_nil_r, Hnum. exact Hcount.
  - exists (Call_defer true true :: Call_read img
            :: map Core (fst (biggify_image_run image_bytes rows sf f2_0))
            ++ trace (send_parts 0 l) w2).
    cbn [app]. now rewrite <- app_assoc.
Qed.

Lemma biggify_sends_every_strip_witness :
  outcome (biggify (pil := Raster.pillow) (discord := Scripted.discord)
             (Some (Scripted.png 1)) 4 f1_5) [true; false; true; true]
  = inr tt /\
  downloads (trace (biggify (pil := Raster.pillow) (discord := Scripted.discord)
                      (Some (Scripted.png 1)) 4 f1_5) [true; false; true; true])
  = [Scripted.png 1] /\
  sent_files (trace (biggify (pil := Raster.pillow) (discord := Scripted.discord)
                       (Some (Scripted.png 1)) 4 f1_5) [true; false; true; true])
  = numbered_parts 0
      (biggify_image (pil := Raster.pillow) Sample.photo_png 4 f1_5 f2_0) /\
  Z.of_nat
    (List.length
       (sent_files (trace (biggify (pil := Raster.pillow)
                             (discord := Scripted.discord)
                             (Some (Scripted.png 1)) 4 f1_5)
                      [true; false; true; true])))
  = 4 /\
  exists before,
    trace (biggify (pil := Raster.pillow) (discord := Scripted.discord)
             (Some (Scripted.png 1)) 4 f1_5) [true; false; true; true]
    = before ++ [Call_followup "Image biggified and sent!" true].
Proof.
  apply (biggify_sends_every_strip Raster.pillow Scripted.discord
           (Scripted.png 1) "image/png" 4 f1_5 Sample.photo_png
           [true; false; true; true]).
  - reflexivity.
  - reflexivity.
  - split; intros; reflexivity.
  - intros w. reflexivity.
  - vm_compute. discriminate.
Defined.

(** The run of the witness: four files are tried under the names of the
    four parts, the second fails and is reported, and the run ends with
    the confirmation. *)
Lemma biggify_second_part_fails :
  map snd (sent_files
             (trace (biggify (pil := Raster.pillow) (discord := Scripted.discord)
                       (Some (Scripted.png 1)) 4 f1_5) [true; false; true; true]))
  = ["biggified_part_1.png"; "biggified_part_2.png";
     "biggified_part_3.png"; "biggified_part_4.png"]%string /\
  replies (trace (biggify (pil := Raster.pillow) (discord := Scripted.discord)
                    (Some (Scripted.png 1)) 4 f1_5) [true; false; true; true])
  = ["Could not send part 2 due to an error.";
     "Image biggified and sent!"]%string /\
  hd_error (core_events
              (trace (biggify (pil := Raster.pillow) (discord := Scripted.discord)
                        (Some (Scripted.png 1)) 4 f1_5) [true; false; true; true]))
  = Some (Call_open Sample.photo_png).
Proof. repeat split; vm_compute; reflexivity. Qed.

(** X9.  An attachment without a content type makes [biggify] raise:
    [None] has no [startswith].  The [AttributeError] leaves the handler
    right after the defer, and the user gets no reply.  [mergebiggify]
    looks at the content type first and skips such an attachment. *)
Theorem biggify_raises_on_missing_content_type :
  forall (pil : PIL) (discord : Discord)
         (img : Attachment) (rows : Z) (stretch_factor : float) (w : World),
    content_type img = None ->
    fst (response_defer true true w) = inr tt ->
    trace (biggify (Some img) rows stretch_factor) w = [Call_defer true true] /\
    outcome (biggify (Some img) rows stretch_factor) w
    = inl (Exc "AttributeError" "'NoneType' object has no attribute 'startswith'") /\
    forall before after,
      valid_images_of (before ++ Some img :: after)
      = valid_images_of before ++ valid_images_of after.
Proof.
  intros pil discord img rows sf w Hct Hd.
  pose proof (biggify_run (Some img) rows sf w Hd) as H.
  cbn [biggify_rejection] in H. rewrite Hct in H. destruct H as [Ht Ho].
  split; [exact Ht |]. split; [exact Ho |].
  intros before after. unfold valid_images_of. rewrite flat_map_app.
  cbn [flat_map is_valid_image]. rewrite Hct. reflexivity.
Qed.

Lemma biggify_raises_on_missing_content_type_witness :
  trace (biggify (pil := Raster.pillow) (discord := Scripted.discord)
           (Some (Scripted.untyped 1)) 4 f1_5) []
  = [Call_defer true true] /\
  outcome (biggify (pil := Raster.pillow) (discord := Scripted.discord)
             (Some (Scripted.untyped 1)) 4 f1_5) []
  = inl (Exc "AttributeError" "'NoneType' object has no attribute 'startswith'") /\
  forall before after,
    valid_images_of (before ++ Some (Scripted.untyped 1) :: after)
    = valid_images_of before ++ valid_images_of after.
Proof.
  apply (biggify_raises_on_missing_content_type Raster.pillow Scripted.discord
           (Scripted.untyped 1) 4 f1_5 []).
  - reflexivity.
  - reflexivity.
Defined.

(** X10.  On the bot, an image with fewer pixel rows than the [rows] asked
    for is never cut: the strips are rescaled by 2.0, the first strip is
    empty, and the user gets the processing error; nothing is sent to the
    channel.  With the default of 4 rows this is every image less than 4
    pixels high. *)
Theorem biggify_reports_images_shorter_than_rows :
  forall (pil : PIL) (laws : PIL_laws pil) (discord : Discord)
         (img : Attachment) (ct : string) (rows : Z) (stretch_factor : float)
         (image_bytes : list byte) (orig : Image) (w : World),
    content_type img = Some ct ->
    biggify_rejection (Some img) rows stretch_factor = None ->
    fst (response_defer true true w) = inr tt ->
    downloads_to img image_bytes ->
    Image_open image_bytes = inr orig ->
    height orig < rows ->
    trace (biggify (Some img) rows stretch_factor) w
    = Call_defer true true :: Call_read img
      :: map Core (fst (biggify_image_run image_bytes rows stretch_factor f2_0))
      ++ [Call_followup "An error occurred while processing the image. Please try again with a different image or settings." true] /\
    sent_files (trace (biggify (Some img) rows stretch_factor) w) = [].
Proof.
  intros pil laws discord img ct rows sf image_bytes orig w Hct Hrej Hd Hdl Ho Hh.
  pose proof (biggify_run (Some img) rows sf w Hd) as H.
  rewrite Hrej, Hct in H. destruct H as (_ & _ & _ & Ht & _).
  pose proof (download_and_send_run img rows sf
                (snd (response_defer true true w))) as Hrun.
  rewrite Hdl in Hrun.
  rewrite (short_image_result image_bytes orig rows sf f2_0 Ho Hh eq_refl) in Hrun.
  destruct Hrun as [Ht2 _].
  destruct (reply_run "An error occurred while processing the image. Please try again with a different image or settings."
              (snd (attachment_read img (snd (response_defer true true w)))))
    as [Hrt _].
  rewrite Hrt in Ht2. rewrite Ht, Ht2. split; [reflexivity |].
  change (Call_defer true true :: Call_read img
          :: map Core (fst (biggify_image_run image_bytes rows sf f2_0))
          ++ [Call_followup "An error occurred while processing the image. Please try again with a different image or settings." true])
    with ([Call_defer true true; Call_read img]
          ++ map Core (fst (biggify_image_run image_bytes rows sf f2_0))
          ++ [Call_followup "An error occurred while processing the image. Please try again with a different image or settings." true]).
  rewrite !sent_files_app, sent_files_core. reflexivity.
Qed.

Lemma biggify_reports_images_shorter_than_rows_witness :
  trace (biggify (pil := Raster.pillow) (discord := Scripted.discord)
           (Some (Scripted.png 1)) 5 f1_5) []
  = Call_defer true true :: Call_read (Scripted.png 1)
    :: map Core (fst (biggify_image_run (pil := Raster.pillow)
                        Sample.photo_png 5 f1_5 f2_0))
    ++ [Call_followup "An error occurred while processing the image. Please try again with a different image or settings." true] /\
  sent_files (trace (biggify (pil := Raster.pillow) (discord := Scripted.discord)
                       (Some (Scripted.png 1)) 5 f1_5) []) = [].
Proof.
  apply (biggify_reports_images_shorter_than_rows Raster.pillow
           RasterFacts.pillow_laws Scripted.discord
           (Scripted.png 1) "image/png" 5 f1_5 Sample.photo_png Sample.photo []).
  - reflexivity.
  - reflexivity.
  - reflexivity.
  - intros w. reflexivity.
  - vm_compute. reflexivity.
  - reflexivity.
Defined.

(** X15.  A download that raises ends [biggify]: the failure is printed
    and reported to the user, in the words for an HTTP error or for any
    other exception, and that is all; the image functions are not
    called. *)
Theorem biggify_reports_a_failed_download :
  forall (pil : PIL) (discord : Discord)
         (img : Attachment) (ct : string) (rows : Z) (stretch_factor : float)
         (e : exn) (w : World),
    content_type img = Some ct ->
    biggify_rejection (Some img) rows stretch_factor = None ->
    fst (response_defer true true w) = inr tt ->
    fst (attachment_read img (snd (response_defer true true w))) = inl e ->
    trace (biggify (Some img) rows stretch_factor) w
    = [Call_defer true true;
       Call_read img;
       Bot_printed (if is_HTTPException e
                    then "HTTP Error downloading image: " ++ str_exn e
                    else "Unexpected error downloading image: " ++ str_exn e);
       Call_followup
         (if is_HTTPException e
          then "Could not download the image. Please try again. Error: "
               ++ str_exn e
          else "An unexpected error occurred while downloading the image. Error: "
               ++ str_exn e) true].
Proof.
  intros pil discord img ct rows sf e w Hct Hrej Hd He.
  pose proof (biggify_run (Some img) rows sf w Hd) as H.
  rewrite Hrej, Hct in H. destruct H as (_ & _ & _ & Ht & _).
  pose proof (download_and_send_run img rows sf
                (snd (response_defer true true w))) as Hrun.
  rewrite He in Hrun. now rewrite Ht, Hrun.
Qed.

Lemma biggify_reports_a_failed_download_witness :
  trace (biggify (pil := Raster.pillow) (discord := Scripted.discord)
           (Some (Scripted.png 9)) 4 f1_5) []
  = [Call_defer true true;
     Call_read (Scripted.png 9);
     Bot_printed (if is_HTTPException (Exc "NotFound" "404 Not Found")
                  then "HTTP Error downloading image: "
                       ++ str_exn (Exc "NotFound" "404 Not Found")
                  else "Unexpected error downloading image: "
                       ++ str_exn (Exc "NotFound" "404 Not Found"));
     Call_followup
       (if is_HTTPException (Exc "NotFound" "404 Not Found")
        then "Could not download the image. Please try again. Error: "
             ++ str_exn (Exc "NotFound" "404 Not Found")
        else "An unexpected error occurred while downloading the image. Error: "
             ++ str_exn (Exc "NotFound" "404 Not Found")) true].
Proof.
  apply (biggify_reports_a_failed_download Raster.pillow Scripted.discord
           (Scripted.png 9) "image/png" 4 f1_5 (Exc "NotFound" "404 Not Found") []).
  - reflexivity.
  - reflexivity.
  - reflexivity.
  - reflexivity.
Defined.

(* ===================================================================== *)
(** ** The /mergebiggify command *)
(* ===================================================================== *)

Section MergeHandler.

Context {pil : PIL} {discord : Discord}.

Lemma merge_attached_run attached w :
  fst (response_defer true true w) = inr tt ->
  trace (merge_attached attached) w
  = Call_defer true true
    :: trace (match valid_images_of attached with
              | [] => reply "Please attach at least one valid image strip to merge."
              | _ :: _ =>
                  if Z.of_nat (List.length (valid_images_of attached)) <? 2 then
                    reply "Please attach at least two image strips to merge them effectively."
                  else download_all (valid_images_of attached) [] merge_and_send
              end) (snd (response_defer true true w)).
Proof.
  intros Hd. unfold merge_attached.
  now rewrite (bbind_trace_inr _ _ _ _ _ _ (defer_run w Hd)).
Qed.

(** The download loop when every download returns: all attachments are
    read, in order, and the handler goes on with their bytes. *)
Lemma download_all_ok valid : forall datas acc rest w,
  Forall2 downloads_to valid datas ->
  exists w',
    trace (download_all valid acc rest) w
    = map Call_read valid ++ trace (rest (acc ++ datas)) w' /\
    outcome (download_all valid acc rest) w = outcome (rest (acc ++ datas)) w'.
Proof.
  induction valid as [| a valid IH]; intros datas acc rest w HF;
    inversion HF as [| ? d ? datas' Ha HF']; subst; cbn [download_all map app].
  - exists w. now rewrite app_nil_r.
  - pose proof (await_run (Call_read a) (attachment_read a) w) as Hr.
    rewrite Ha in Hr.
    rewrite (try_else_trace_inr _ _ _ _ _ _ _ Hr).
    rewrite (try_else_outcome_inr _ _ _ _ _ _ _ Hr).
    destruct (IH datas' (acc ++ [d]) rest (snd (attachment_read a w)) HF')
      as (w' & Ht & Ho).
    exists w'. rewrite Ht, Ho, <- app_assoc. auto.
Qed.

(** The download loop when a download raises: the attachments before it
    are read, the failure is printed and reported, and the handler ends. *)
Lemma download_all_fails pre : forall datas a e post acc rest w,
  Forall2 downloads_to pre datas ->
  (forall w0, fst (attachment_read a w0) = inl e) ->
  trace (download_all (pre ++ a :: post) acc rest) w
  = map Call_read pre
    ++ [Call_read a;
        Bot_printed (if is_HTTPException e
                     then "HTTP Error downloading image for merge: " ++ str_exn e
                     else "Unexpected error downloading image for merge: "
                          ++ str_exn e);
        Call_followup
          (if is_HTTPException e
           then "Could not download one of the images for merging. Error: "
                ++ str_exn e
           else "An unexpected error occurred while downloading images for merging. Error: "
                ++ str_exn e) true].
Proof.
  induction pre as [| p pre IH]; intros datas a e post acc rest w HF Ha;
    inversion HF as [| ? d ? datas' Hp HF']; subst; cbn [download_all map app].
  - pose proof (await_run (Call_read a) (attachment_read a) w) as Hr.
    rewrite Ha in Hr. rewrite (try_else_trace_inl _ _ _ _ _ _ _ Hr).
    destruct (is_HTTPException e); unfold trace, bbind, bot_print, reply;
      rewrite await_run; reflexivity.
  - pose proof (await_run (Call_read p) (attachment_read p) w) as Hr.
    rewrite Hp in Hr. rewrite (try_else_trace_inr _ _ _ _ _ _ _ Hr).
    now rewrite (IH datas' a e post _ rest _ HF' Ha).
Qed.

(** Lines 171-186: the merge, then the merged file or the error reply. *)
Lemma merge_and_send_run l w :
  exists tail,
    trace (merge_and_send l) w = map Core (fst (merge_images_run l)) ++ tail /\
    match merge_images l with
    | Some buf =>
        exists tail',
          tail = Call_channel_send buf "merged_biggified_image.png" :: tail' /\
          sent_files tail' = [] /\ core_events tail' = [] /\ downloads tail' = []
    | None =>
        tail = [Call_followup "An error occurred while merging the images. Please ensure they are valid image strips." true]
    end.
Proof.
  unfold merge_and_send.
  assert (Hc : core (merge_images_run l) w
               = ((map Core (fst (merge_images_run l)), inr (merge_images l)), w)).
  { unfold core. now rewrite merge_images_run_returns. }
  rewrite (bbind_trace_inr _ _ _ _ _ _ Hc).
  destruct (merge_images l) as [buf |].
  2:{ eexists. split; [reflexivity |]. apply reply_run. }
  eexists. split; [reflexivity |].
  set (name := "merged_biggified_image.png"%string).
  pose proof (await_run (Call_channel_send buf name) (channel_send buf name) w) as Hs.
  set (handler := fun e : exn =>
         if is_HTTPException e
         then bbind (bot_print ("Error sending merged image: " ++ str_exn e))
                (fun _ => reply ("Could not send the merged image (likely too large). Error: "
                                 ++ str_exn e))
         else bbind (bot_print ("An unexpected error occurred while sending the merged image: "
                                ++ str_exn e))
                (fun _ => reply ("An unexpected error occurred while sending the merged image: "
                                 ++ str_exn e))).
  assert (Hh : forall e w0, exists c1 c2,
             trace (handler e) w0 = [Bot_printed c1; Call_followup c2 true]).
  { intros e w0. unfold handler.
    destruct (is_HTTPException e); unfold trace, bbind, bot_print, reply;
      rewrite await_run; eexists _, _; reflexivity. }
  unfold trace at 1. unfold try_else.
  change (fun e : exn =>
            if is_HTTPException e
            then bbind (bot_print ("Error sending merged image: " ++ str_exn e))
                   (fun _ => reply ("Could not send the merged image (likely too large). Error: "
                                    ++ str_exn e))
            else bbind (bot_print ("An unexpected error occurred while sending the merged image: "
                                   ++ str_exn e))
                   (fun _ => reply ("An unexpected error occurred while sending the merged image: "
                                    ++ str_exn e))) with handler.
  unfold bbind at 1. rewrite Hs.
  destruct (fst (channel_send buf name w)) as [e | []].
  - destruct (Hh e (snd (channel_send buf name w))) as (c1 & c2 & Hth).
    pose proof (run_parts (handler e) (snd (channel_send buf name w))) as Hp.
    rewrite Hth in Hp. rewrite Hp. cbn [fst app].
    eexists. split; [reflexivity |]. repeat split.
  - unfold reply at 1. rewrite await_run.
    destruct (fst (followup_send "Images merged successfully!" true
                     (snd (channel_send buf name w)))) as [e | []].
    + destruct (Hh e (snd (followup_send "Images merged successfully!" true
                             (snd (channel_send buf name w)))))
        as (c1 & c2 & Hth).
      pose proof (run_parts (handler e)
                    (snd (followup_send "Images merged successfully!" true
                            (snd (channel_send buf name w))))) as Hp.
      rewrite Hth in Hp. rewrite Hp. cbn [fst app].
      eexists. split; [reflexivity |]. repeat split.
    + cbn [fst app bret]. eexists. split; [reflexivity |]. repeat split.
Qed.

Lemma length_valid_images_of attached :
  (List.length (valid_images_of attached) <= List.length attached)%nat.
Proof.
  induction attached as [| o attached IH]; [apply Nat.le_refl |].
  change (valid_images_of (o :: attached))
    with (match o with
          | Some a => if is_valid_image o then [a] else []
          | None => []
          end ++ valid_images_of attached).
  rewrite length_app. cbn [List.length].
  destruct o as [a |]; [destruct (is_valid_image (Some a)) |];
    cbn [List.length]; lia.
Qed.

End MergeHandler.

(** X11.  [mergebiggify] merges nothing when fewer than two of the
    attachments are images: after the defer the run is one reply, asking
    for one image when none is valid and for two when one is, and nothing
    is downloaded.  [merge_images] is never called on an empty list or on
    a single strip by the bot. *)
Theorem mergebiggify_asks_for_two_images :
  forall (pil : PIL) (discord : Discord)
         (attached_images : list (option Attachment)) (w : World),
    (List.length (valid_images_of attached_images) < 2)%nat ->
    fst (response_defer true true w) = inr tt ->
    trace (merge_attached attached_images) w
    = [Call_defer true true;
       Call_followup
         (match valid_images_of attached_images with
          | [] => "Please attach at least one valid image strip to merge."
          | _ :: _ =>
              "Please attach at least two image strips to merge them effectively."
          end) true].
Proof.
  intros pil discord attached w Hlen Hd.
  rewrite (merge_attached_run attached w Hd).
  destruct (valid_images_of attached) as [| a l] eqn:Hv.
  - now destruct (reply_run "Please attach at least one valid image strip to merge."
                    (snd (response_defer true true w))) as [-> _].
  - replace (Z.of_nat (List.length (a :: l)) <? 2) with true
      by (symmetry; apply Z.ltb_lt; lia).
    now destruct (reply_run "Please attach at least two image strips to merge them effectively."
                    (snd (response_defer true true w))) as [-> _].
Qed.

Lemma mergebiggify_asks_for_two_images_witness :
  trace (mergebiggify (pil := Raster.pillow) (discord := Scripted.discord)
           (Scripted.png 2) (Some (Scripted.text 3)) (Some (Scripted.untyped 3))
           None None None None None None None) []
  = [Call_defer true true;
     Call_followup
       (match valid_images_of
                [Some (Scripted.png 2); Some (Scripted.text 3);
                 Some (Scripted.untyped 3); None; None; None; None; None; None;
                 None] with
        | [] => "Please attach at least one valid image strip to merge."
        | _ :: _ =>
            "Please attach at least two image strips to merge them effectively."
        end) true].
Proof.
  apply (mergebiggify_asks_for_two_images Raster.pillow Scripted.discord
           [Some (Scripted.png 2); Some (Scripted.text 3);
            Some (Scripted.untyped 3); None; None; None; None; None; None; None]
           []).
  - vm_compute. lia.
  - reflexivity.
Defined.

(** X12.  A download that raises ends [mergebiggify]: the attachments
    before it have been read, the failure is printed and reported to the
    user, in the words for an HTTP error or for any other exception, and
    that is all.  The attachments after it are not read, nothing is merged
    and nothing is sent. *)
Theorem mergebiggify_stops_at_a_failed_download :
  forall (pil : PIL) (discord : Discord)
         (attached_images : list (option Attachment))
         (before : list Attachment) (datas : list (list byte))
         (a : Attachment) (e : exn) (after : list Attachment) (w : World),
    valid_images_of attached_images = before ++ a :: after ->
    (2 <= List.length (before ++ a :: after))%nat ->
    Forall2 downloads_to before datas ->
    (forall w0, fst (attachment_read a w0) = inl e) ->
    fst (response_defer true true w) = inr tt ->
    trace (merge_attached attached_images) w
    = Call_defer true true
      :: map Call_read before
      ++ [Call_read a;
          Bot_printed (if is_HTTPException e
                       then "HTTP Error downloading image for merge: " ++ str_exn e
                       else "Unexpected error downloading image for merge: "
                            ++ str_exn e);
          Call_followup
            (if is_HTTPException e
             then "Could not download one of the images for merging. Error: "
                  ++ str_exn e
             else "An unexpected error occurred while downloading images for merging. Error: "
                  ++ str_exn e) true].
Proof.
  intros pil discord attached pre datas a e post w Hv Hlen HF Ha Hd.
  rewrite (merge_attached_run attached w Hd), Hv.
  destruct (pre ++ a :: post) as [| x xs] eqn:Hl; [destruct pre; discriminate |].
  replace (Z.of_nat (List.length (x :: xs)) <? 2) with false
    by (symmetry; apply Z.ltb_ge; lia).
  rewrite <- Hl. f_equal. now apply download_all_fails with (datas := datas).
Qed.

Lemma mergebiggify_stops_at_a_failed_download_witness :
  trace (mergebiggify (pil := Raster.pillow) (discord := Scripted.discord)
           (Scripted.png 2) (Some (Scripted.png 9)) (Some (Scripted.png 3))
           None None None None None None None) []
  = Call_defer true true
    :: map Call_read [Scripted.png 2]
    ++ [Call_read (Scripted.png 9);
        Bot_printed (if is_HTTPException (Exc "NotFound" "404 Not Found")
                     then "HTTP Error downloading image for merge: "
                          ++ str_exn (Exc "NotFound" "404 Not Found")
                     else "Unexpected error downloading image for merge: "
                          ++ str_exn (Exc "NotFound" "404 Not Found"));
        Call_followup
          (if is_HTTPException (Exc "NotFound" "404 Not Found")
           then "Could not download one of the images for merging. Error: "
                ++ str_exn (Exc "NotFound" "404 Not Found")
           else "An unexpected error occurred while downloading images for merging. Error: "
                ++ str_exn (Exc "NotFound" "404 Not Found")) true].
Proof.
  apply (mergebiggify_stops_at_a_failed_download Raster.pillow Scripted.discord
           [Some (Scripted.png 2); Some (Scripted.png 9); Some (Scripted.png 3);
            None; None; None; None; None; None; None]
           [Scripted.png 2] [Sample.strip_a_png] (Scripted.png 9)
           (Exc "NotFound" "404 Not Found") [Scripted.png 3] []).
  - reflexivity.
  - cbn. lia.
  - repeat constructor.
  - intros w0. reflexivity.
  - reflexivity.
Defined.

(** X13.  When the downloads return, [mergebiggify] hands [merge_images]
    the bytes of the valid attachments, in the order of the arguments:
    the run is the defer, one download for each valid attachment, the run
    of [merge_images] on the downloaded bytes, and then either the merged
    buffer sent once under the name [merged_biggified_image.png], or, when
    the merge failed, the reply that says so and no file.  The list has at
    least two elements and at most as many as there are arguments. *)
Theorem mergebiggify_merges_the_downloads_in_order :
  forall (pil : PIL) (discord : Discord)
         (attached_images : list (option Attachment))
         (datas : list (list byte)) (w : World),
    Forall2 downloads_to (valid_images_of attached_images) datas ->
    (2 <= List.length datas)%nat ->
    fst (response_defer true true w) = inr tt ->
    (List.length datas <= List.length attached_images)%nat /\
    downloads (trace (merge_attached attached_images) w)
    = valid_images_of attached_images /\
    core_events (trace (merge_attached attached_images) w)
    = fst (merge_images_run datas) /\
    sent_files (trace (merge_attached attached_images) w)
    = match merge_images datas with
      | Some buf => [(buf, "merged_biggified_image.png"%string)]
      | None => []
      end /\
    (merge_images datas = None ->
     exists before,
       trace (merge_attached attached_images) w
       = before ++ [Call_followup "An error occurred while merging the images. Please ensure they are valid image strips." true]).
Proof.
  intros pil discord attached datas w HF Hlen Hd.
  pose proof (Forall2_length HF) as Hl.
  split; [rewrite <- Hl; apply length_valid_images_of |].
  rewrite (merge_attached_run attached w Hd).
  destruct (valid_images_of attached) as [| x xs] eqn:Hv;
    [cbn in Hl; lia |].
  replace (Z.of_nat (List.length (x :: xs)) <? 2) with false
    by (symmetry; apply Z.ltb_ge; lia).
  destruct (download_all_ok (x :: xs) datas [] merge_and_send
              (snd (response_defer true true w)) HF) as (w' & -> & _).
  cbn [app]. destruct (merge_and_send_run datas w') as (tail & -> & Htail).
  assert (Hd_app : forall l1 l2, downloads (l1 ++ l2) = downloads l1 ++ downloads l2)
    by (intros; apply flat_map_app).
  assert (Hc_app : forall l1 l2,
             core_events (l1 ++ l2) = core_events l1 ++ core_events l2)
    by (intros; apply flat_map_app).
  assert (Hd_read : forall l, downloads (map Call_read l) = l).
  { induction l as [| a l IH]; [reflexivity |].
    change (downloads (map Call_read (a :: l)))
      with (a :: downloads (map Call_read l)). now rewrite IH. }
  assert (Hd_core : forall l : list event, downloads (map Core l) = [])
    by (induction l; [reflexivity | assumption]).
  assert (Hc_read : forall l, core_events (map Call_read l) = [])
    by (induction l; [reflexivity | assumption]).
  assert (Hc_core : forall l : list event, core_events (map Core l) = l).
  { induction l as [| a l IH]; [reflexivity |].
    change (core_events (map Core (a :: l)))
      with (a :: core_events (map Core l)). now rewrite IH. }
  assert (Hs_read : forall l, sent_files (map Call_read l) = [])
    by (induction l; [reflexivity | assumption]).
  change (Call_defer true true
          :: map Call_read (x :: xs) ++ map Core (fst (merge_images_run datas)) ++ tail)
    with ([Call_defer true true]
          ++ map Call_read (x :: xs) ++ map Core (fst (merge_images_run datas)) ++ tail).
  rewrite !Hd_app, !Hc_app, !sent_files_app.
  rewrite Hd_read, Hd_core, Hc_read, Hc_core, Hs_read, sent_files_core.
  cbn [downloads core_events sent_files flat_map app].
  destruct (merge_images datas) as [buf |].
  - destruct Htail as (tail' & -> & Hs & Hc & Hdn).
    change (Call_channel_send buf "merged_biggified_image.png" :: tail')
      with ([Call_channel_send buf "merged_biggified_image.png"] ++ tail').
    rewrite Hd_app, Hc_app, sent_files_app, Hs, Hc, Hdn.
    cbn [downloads core_events sent_files flat_map app].
    rewrite !app_nil_r. repeat split; try reflexivity. discriminate.
  - subst tail. cbn [downloads core_events sent_files flat_map app].
    rewrite !app_nil_r. repeat split; try reflexivity.
    intros _.
    exists (Call_defer true true
            :: map Call_read (x :: xs) ++ map Core (fst (merge_images_run datas))).
    cbn [app]. now rewrite <- app_assoc.
Qed.

Lemma mergebiggify_merges_the_downloads_in_order_witness :
  (List.length [Sample.strip_a_png; Sample.strip_b_png]
   <= List.length [Some (Scripted.png 2); Some (Scripted.text 1);
                   Some (Scripted.png 3); None; None; None; None; None; None;
                   None])%nat /\
  downloads (trace (mergebiggify (pil := Raster.pillow)
                      (discord := Scripted.discord)
                      (Scripted.png 2) (Some (Scripted.text 1))
                      (Some (Scripted.png 3))
                      None None None None None None None) [])
  = valid_images_of [Some (Scripted.png 2); Some (Scripted.text 1);
                     Some (Scripted.png 3); None; None; None; None; None; None;
                     None] /\
  core_events (trace (mergebiggify (pil := Raster.pillow)
                        (discord := Scripted.discord)
                        (Scripted.png 2) (Some (Scripted.text 1))
                        (Some (Scripted.png 3))
                        None None None None None None None) [])
  = fst (merge_images_run (pil := Raster.pillow)
           [Sample.strip_a_png; Sample.strip_b_png]) /\
  sent_files (trace (mergebiggify (pil := Raster.pillow)
                       (discord := Scripted.discord)
                       (Scripted.png 2) (Some (Scripted.text 1))
                       (Some (Scripted.png 3))
                       None None None None None None None) [])
  = match merge_images (pil := Raster.pillow)
            [Sample.strip_a_png; Sample.strip_b_png] with
    | Some buf => [(buf, "merged_biggified_image.png"%string)]
    | None => []
    end /\
  (merge_images (pil := Raster.pillow) [Sample.strip_a_png; Sample.strip_b_png]
   = None ->
   exists before,
     trace (mergebiggify (pil := Raster.pillow) (discord := Scripted.discord)
              (Scripted.png 2) (Some (Scripted.text 1)) (Some (Scripted.png 3))
              None None None None None None None) []
     = before ++ [Call_followup "An error occurred while merging the images. Please ensure they are valid image strips." true]).
Proof.
  apply (mergebiggify_merges_the_downloads_in_order Raster.pillow Scripted.discord
           [Some (Scripted.png 2); Some (Scripted.text 1); Some (Scripted.png 3);
            None; None; None; None; None; None; None]
           [Sample.strip_a_png; Sample.strip_b_png] []).
  - repeat constructor.
  - cbn. lia.
  - reflexivity.
Defined.

(** The run of the witness: the text attachment is skipped, the two strips
    are downloaded and merged, the merged file is sent and the user is
    told. *)
Lemma mergebiggify_two_strips :
  map attachment_id
    (downloads (trace (mergebiggify (pil := Raster.pillow)
                         (discord := Scripted.discord)
                         (Scripted.png 2) (Some (Scripted.text 1))
                         (Some (Scripted.png 3))
                         None None None None None None None) []))
  = [2; 3] /\
  sent_files (trace (mergebiggify (pil := Raster.pillow)
                       (discord := Scripted.discord)
                       (Scripted.png 2) (Some (Scripted.text 1))
                       (Some (Scripted.png 3))
                       None None None None None None None) [])
  = [(mkBytesIO Sample.merged_png 0, "merged_biggified_image.png"%string)] /\
  replies (trace (mergebiggify (pil := Raster.pillow)
                    (discord := Scripted.discord)
                    (Scripted.png 2) (Some (Scripted.text 1))
                    (Some (Scripted.png 3))
                    None None None None None None None) [])
  = ["Images merged successfully!"%string].
Proof. repeat split; vm_compute; reflexivity. Qed.

(** X14.  Neither handler lets an exception of the download, of the image
    functions or of the channel escape: when the replies to the
    interaction go through, [mergebiggify] always returns, and so does
    [biggify] unless the attachment has no content type. *)
Theorem handlers_return_when_replies_go_through :
  forall (pil : PIL) (discord : Discord),
    replies_go_through ->
    (forall image rows stretch_factor,
       (forall img, image = Some img -> content_type img <> None) ->
       returns (biggify image rows stretch_factor)) /\
    (forall attached_images, returns (merge_attached attached_images)).
Proof.
  intros pil discord Hr. pose proof Hr as [Hd Hf]. split.
  - intros image rows sf Himg. unfold biggify.
    apply returns_bbind.
    { apply returns_await. intros w. exists tt. apply Hd. }
    intros _. destruct image as [img |]; [| now apply returns_reply].
    unfold content_type_startswith_image.
    destruct (content_type img) as [ct |] eqn:Hct;
      [| now destruct (Himg img eq_refl)].
    apply returns_bbind; [intros w; now eexists |]. intros is_image.
    destruct (negb is_image); [now apply returns_reply |].
    destruct (negb _); [now apply returns_reply |].
    destruct (negb _); [now apply returns_reply |].
    unfold download_and_send. apply returns_try_else.
    + intros e. destruct (is_HTTPException e);
        (apply returns_bbind; [apply returns_bot_print |]);
        intros _; now apply returns_reply.
    + intros image_bytes. apply returns_bbind.
      * eapply returns_core. apply biggify_image_run_returns.
      * intros l. destruct l as [| b l]; [now apply returns_reply |].
        apply returns_bbind; [now apply returns_send_parts |].
        intros _. now apply returns_reply.
  - intros attached. unfold merge_attached.
    apply returns_bbind.
    { apply returns_await. intros w. exists tt. apply Hd. }
    intros _. destruct (valid_images_of attached) as [| a l];
      [now apply returns_reply |].
    destruct (_ <? 2); [now apply returns_reply |].
    apply returns_download_all; [assumption |].
    intros datas. unfold merge_and_send. apply returns_bbind.
    + eapply returns_core. apply merge_images_run_returns.
    + intros [buf |]; [| now apply returns_reply].
      apply returns_try_else; [| intros; apply returns_bret].
      intros e. destruct (is_HTTPException e);
        (apply returns_bbind; [apply returns_bot_print |]);
        intros _; now apply returns_reply.
Qed.

Lemma handlers_return_when_replies_go_through_witness :
  (forall image rows stretch_factor,
     (forall img, image = Some img -> content_type img <> None) ->
     returns (biggify (pil := Raster.pillow) (discord := Scripted.discord)
                image rows stretch_factor)) /\
  (forall attached_images,
     returns (merge_attached (pil := Raster.pillow) (discord := Scripted.discord)
                attached_images)).
Proof.
  apply (handlers_return_when_replies_go_through Raster.pillow Scripted.discord).
  split; intros; reflexivity.
Defined.

Section SentFiles.

Context {pil : PIL} {discord : Discord}.


End SentFiles.


(** A JPEG upload: the strip is sent as a JPEG file named
    [biggified_part_1.png]. *)
Lemma jpeg_strip_named_png :
  map (fun f => (match Raster.decode (getvalue (fst f)) with
                 | inr im => Raster.r_format im
                 | inl _ => None
                 end, snd f))
    (sent_files (trace (biggify (pil := Raster.pillow)
                          (discord := Scripted.discord)
                          (Some (Scripted.png 4)) 1 f1_5) []))
  = [(Some "JPEG"%string, "biggified_part_1.png"%string)].
Proof. vm_compute. reflexivity. Qed.

Section MergedFile.

Context {pil : PIL} {discord : Discord}.

Lemma always_download_all (Q : bot_event -> Prop) valid : forall acc rest,
  (forall a, In a valid -> Q (Call_read a)) ->
  (forall line, Q (Bot_printed line)) ->
  (forall content, Q (Call_followup content true)) ->
  (forall l, always Q (rest l)) ->
  always Q (download_all valid acc rest).
Proof.
  induction valid as [| a valid IH]; intros acc rest Hr Hp Hf Hrest;
    cbn [download_all].
  - apply Hrest.
  - apply always_try_else.
    + apply always_await, Hr. now left.
    + intros e. destruct (is_HTTPException e);
        (apply always_bbind; [apply always_bot_print, Hp |]);
        intros _; apply always_reply, Hf.
    + intros data. apply IH; try assumption.
      intros a' Hin. apply Hr. now right.
Qed.

Lemma valid_images_of_In attached a :
  In a (valid_images_of attached) ->
  In (Some a) attached /\
  exists ct, content_type a = Some ct /\ prefix "image/" ct = true.
Proof.
  unfold valid_images_of. rewrite in_flat_map.
  intros ([x |] & Hin & Hx); [| destruct Hx].
  cbn [is_valid_image] in Hx.
  destruct (content_type x) as [ct |] eqn:Hct; [| destruct Hx].
  destruct (truthy (Some ct) && prefix "image/" ct) eqn:Hv; [| destruct Hx].
  destruct Hx as [<- | []]. apply andb_prop in Hv as [_ Hp].
  split; [assumption |]. now exists ct.
Qed.

End MergedFile.

(** X17.  Every file [mergebiggify] sends to the channel is the rewound
    buffer of a [merge_images] call: it holds a canvas encoded as PNG, and
    it goes out under the name [merged_biggified_image.png]. *)
Theorem mergebiggify_sends_a_png :
  forall (pil : PIL) (discord : Discord)
         (attached_images : list (option Attachment)) (w : World),
    Forall (fun ev =>
              match ev with
              | Call_channel_send fp name =>
                  name = "merged_biggified_image.png"%string /\
                  tell fp = 0%nat /\
                  exists image_bytes_list canvas,
                    merge_images image_bytes_list = Some fp /\
                    save canvas "PNG" = inr (getvalue fp)
              | _ => True
              end)
      (trace (merge_attached attached_images) w).
Proof.
  intros pil discord attached.
  set (Q := fun ev : bot_event =>
              match ev with
              | Call_channel_send fp name =>
                  name = "merged_biggified_image.png"%string /\
                  tell fp = 0%nat /\
                  exists image_bytes_list canvas,
                    merge_images image_bytes_list = Some fp /\
                    save canvas "PNG" = inr (getvalue fp)
              | _ => True
              end).
  change (always Q (merge_attached attached)).
  unfold merge_attached. apply always_bbind; [now apply always_await |]. intros _.
  destruct (valid_images_of attached) as [| a l]; [now apply always_reply |].
  destruct (_ <? 2); [now apply always_reply |].
  apply always_download_all; try (intros; exact I).
  intros datas w. unfold merge_and_send.
  assert (Hc : core (merge_images_run datas) w
               = ((map Core (fst (merge_images_run datas)),
                   inr (merge_images datas)), w)).
  { unfold core. now rewrite merge_images_run_returns. }
  rewrite (bbind_trace_inr _ _ _ _ _ _ Hc). apply Forall_app. split.
  { apply Forall_map. apply Forall_forall. intros ev _. exact I. }
  destruct (merge_images datas) as [buf |] eqn:Hm; [| now apply always_reply].
  apply always_try_else.
  - apply always_bbind; [| intros _; now apply always_reply].
    apply always_await. cbn. split; [reflexivity |].
    destruct (merge_images_buffer _ _ _ Hm) as (Ht & canvas & Hs).
    split; [exact Ht |]. now exists datas, canvas.
  - intros e. destruct (is_HTTPException e);
      (apply always_bbind; [now apply always_bot_print |]);
      intros _; now apply always_reply.
  - intros _. apply always_bret.
Qed.

(** X18.  The handlers download only what passed their check: [biggify]
    reads nothing but its one attachment, and only when its content type
    starts with [image/]; [mergebiggify] reads only attachments it was
    given whose content type starts with [image/]. *)
Theorem handlers_download_images_only :
  forall (pil : PIL) (discord : Discord),
    (forall image rows stretch_factor w,
       Forall (fun ev =>
                 match ev with
                 | Call_read a =>
                     image = Some a /\
                     exists ct, content_type a = Some ct /\
                                prefix "image/" ct = true
                 | _ => True
                 end)
         (trace (biggify image rows stretch_factor) w)) /\
    (forall attached_images w,
       Forall (fun ev =>
                 match ev with
                 | Call_read a =>
                     In (Some a) attached_images /\
                     exists ct, content_type a = Some ct /\
                                prefix "image/" ct = true
                 | _ => True
                 end)
         (trace (merge_attached attached_images) w)).
Proof.
  intros pil discord. split.
  - intros image rows sf.
    set (Q := fun ev : bot_event =>
                match ev with
                | Call_read a =>
                    image = Some a /\
                    exists ct, content_type a = Some ct /\
                               prefix "image/" ct = true
                | _ => True
                end).
    change (always Q (biggify image rows sf)).
    unfold biggify. apply always_bbind; [now apply always_await |]. intros _.
    destruct image as [img |] eqn:Himg; [| now apply always_reply].
    unfold content_type_startswith_image.
    destruct (content_type img) as [ct |] eqn:Hct.
    2:{ intros w. unfold trace, bbind, blift. cbn [fst]. constructor. }
    intros w.
    assert (Hl : blift (@inr exn bool (prefix "image/" ct)) w
                 = (([], inr (prefix "image/" ct)), w)) by reflexivity.
    rewrite (bbind_trace_inr _ _ _ _ _ _ Hl). cbn [app]. clear Hl. revert w.
    change (always Q
              (if negb (prefix "image/" ct)
               then reply "Please attach a valid image to the command!"
               else if negb ((1 <=? rows) && (rows <=? 10))
               then reply "Rows must be between 1 and 10 (inclusive)."
               else if negb (fleb f1_0 sf && fleb sf f3_0)
               then reply "Stretch factor must be between 1.0 and 3.0 (e.g., 1.5). Larger values mean more stretch."
               else download_and_send img rows sf)).
    destruct (prefix "image/" ct) eqn:Hp; cbn [negb]; [| now apply always_reply].
    destruct (negb _); [now apply always_reply |].
    destruct (negb _); [now apply always_reply |].
    unfold download_and_send. apply always_try_else.
    + apply always_await. cbn. split; [reflexivity |]. now exists ct.
    + intros e. destruct (is_HTTPException e);
        (apply always_bbind; [now apply always_bot_print |]);
        intros _; now apply always_reply.
    + intros image_bytes. apply always_bbind.
      * apply always_core. apply Forall_forall. intros ev _. exact I.
      * intros l. destruct l as [| b l]; [now apply always_reply |].
        apply always_bbind; [| intros _; now apply always_reply].
        apply always_send_parts; intros; exact I.
  - intros attached.
    set (Q := fun ev : bot_event =>
                match ev with
                | Call_read a =>
                    In (Some a) attached /\
                    exists ct, content_type a = Some ct /\
                               prefix "image/" ct = true
                | _ => True
                end).
    change (forall w, Forall Q (trace (merge_attached attached) w)).
    change (always Q (merge_attached attached)).
    unfold merge_attached. apply always_bbind; [now apply always_await |].
    intros _.
    pose proof (valid_images_of_In attached) as Hin.
    destruct (valid_images_of attached) as [| a l]; [now apply always_reply |].
    destruct (_ <? 2); [now apply always_reply |].
    apply always_download_all; try (intros; exact I).
    { intros a' Ha'. cbn. now apply Hin. }
    intros datas. unfold merge_and_send. apply always_bbind.
    + apply always_core. apply Forall_forall. intros ev _. exact I.
    + intros [buf |]; [| now apply always_reply].
      apply always_try_else.
      * apply always_bbind; [| intros _; now apply always_reply].
        now apply always_await.
      * intros e. destruct (is_HTTPException e);
          (apply always_bbind; [now apply always_bot_print |]);
          intros _; now apply always_reply.
      * intros _. apply always_bret.
Qed.
